(** * Skrimish 7x7: rules engine, computer turn and turn bookkeeping

    A shallow embedding of the game logic (services/gameLogic), of the
    computer's support placement and turn planner (services/aiLogic) and
    of the state handlers of the application component (App.tsx),
    followed by the properties of the rules that the specification states.

    Conventions.
    - JavaScript numbers are modelled by [Z]: every coordinate, budget and
      strength the engine handles is an integer; [Math.abs] is [Z.abs].
    - A React state updater [setGameState(prev => ...)] is a function
      [GameState -> GameState]; a handler that queues several updaters is
      their composition in program order.  Timers ([setTimeout], awaited
      promises) only delay the next updater, so a handler is modelled by
      running its updaters one after the other.
    - [Math.random] and [generateId] are inputs of the functions that call
      them. *)

From Stdlib Require Import ZArith List Ascii String Bool Lia DecimalString.
From Stdlib Require Import Sorted Permutation.
Import ListNotations.
Open Scope Z_scope.

(** ** types.ts *)

Module Types.

Inductive Player := player | computer.

Inductive Difficulty := random | easy | medium | hard.

Inductive UnitType := INFANTRY | ARCHER | CAVALRY.

Inductive Direction := NORTH | EAST | SOUTH | WEST.

Record Unit := mkUnit {
  u_id : string;
  u_type : UnitType;
  u_player : Player;
  u_x : Z;
  u_y : Z;
  u_rotation : Direction;
  u_movesLeft : Z;
  u_attacksLeft : Z;
  u_hasRotated : bool;
  u_maxMoves : Z;
  u_hp : Z
}.

Inductive LineType := row | col.

(** The interface declares [player: Player], but an object reaches this
    type through an unchecked [as SupportLine[]] cast in aiLogic, so the
    field may be absent at run time; [None] is JavaScript's [undefined]. *)
Record SupportLine := mkSupportLine {
  sl_player : option Player;
  sl_type : LineType;
  sl_index : Z
}.

Record PendingAttack := mkPendingAttack {
  pa_targetId : string;
  pa_attackerIds : list string
}.

Record CombatState := mkCombatState {
  cs_attackerIds : list string;
  cs_defenderId : string
}.

(** [GameState.turn]: a side, or one of the three phase markers. *)
Inductive Turn := turn_of (p : Player) | setup_placement | setup_support | game_over.

Record GameState := mkGameState {
  gridSize : Z;
  difficulty : Difficulty;
  units : list Unit;
  playerSupport : list SupportLine;
  computerSupport : list SupportLine;
  turn : Turn;
  winner : option Player;
  selectedUnitId : option string;
  logs : list string;
  combatState : option CombatState;
  pendingAttack : option PendingAttack;
  showComputerSupport : bool
}.

Record Coordinate := mkCoordinate { c_x : Z; c_y : Z }.

Inductive ActionType := act_move | act_rotate | act_attack | act_end_turn.

Record AIAction := mkAIAction {
  a_unitId : string;
  a_actionType : ActionType;
  a_target : option Coordinate;
  a_direction : option Direction
}.

(** [===] on the enumerations. *)
Definition Player_eqb (a b : Player) : bool :=
  match a, b with
  | player, player | computer, computer => true
  | _, _ => false
  end.

Definition UnitType_eqb (a b : UnitType) : bool :=
  match a, b with
  | INFANTRY, INFANTRY | ARCHER, ARCHER | CAVALRY, CAVALRY => true
  | _, _ => false
  end.

Definition LineType_eqb (a b : LineType) : bool :=
  match a, b with
  | row, row | col, col => true
  | _, _ => false
  end.

(** [sl.player === p] where the left side may be [undefined]. *)
Definition owner_eqb (o : option Player) (p : Player) : bool :=
  match o with
  | Some q => Player_eqb q p
  | None => false
  end.

(** The string value of a [UnitType] member. *)
Definition UnitType_str (t : UnitType) : string :=
  match t with
  | INFANTRY => "Infantry"
  | ARCHER => "Archer"
  | CAVALRY => "Cavalry"
  end.

(** The numeric value of a [Direction] member, and back. *)
Definition Direction_num (d : Direction) : Z :=
  match d with
  | NORTH => 0
  | EAST => 1
  | SOUTH => 2
  | WEST => 3
  end.

Definition Direction_of_num (n : Z) : Direction :=
  if n =? 0 then NORTH else if n =? 1 then EAST else if n =? 2 then SOUTH else WEST.

(** [Array.prototype.includes] on identifiers. *)
Definition includes (ids : list string) (i : string) : bool :=
  existsb (String.eqb i) ids.

Definition isEmpty {A : Type} (l : list A) : bool :=
  match l with
  | [] => true
  | _ :: _ => false
  end.

(** Template-literal rendering of an integer. *)
Definition showZ (n : Z) : string := NilZero.string_of_int (Z.to_int n).

(** Functional record updates ([{ ...u, field: v }]). *)
Definition set_units (us : list Unit) (g : GameState) : GameState :=
  mkGameState (gridSize g) (difficulty g) us (playerSupport g) (computerSupport g)
    (turn g) (winner g) (selectedUnitId g) (logs g) (combatState g)
    (pendingAttack g) (showComputerSupport g).

Definition set_turn (t : Turn) (g : GameState) : GameState :=
  mkGameState (gridSize g) (difficulty g) (units g) (playerSupport g) (computerSupport g)
    t (winner g) (selectedUnitId g) (logs g) (combatState g)
    (pendingAttack g) (showComputerSupport g).

Definition set_winner (w : option Player) (g : GameState) : GameState :=
  mkGameState (gridSize g) (difficulty g) (units g) (playerSupport g) (computerSupport g)
    (turn g) w (selectedUnitId g) (logs g) (combatState g)
    (pendingAttack g) (showComputerSupport g).

Definition set_selectedUnitId (s : option string) (g : GameState) : GameState :=
  mkGameState (gridSize g) (difficulty g) (units g) (playerSupport g) (computerSupport g)
    (turn g) (winner g) s (logs g) (combatState g)
    (pendingAttack g) (showComputerSupport g).

Definition set_logs (l : list string) (g : GameState) : GameState :=
  mkGameState (gridSize g) (difficulty g) (units g) (playerSupport g) (computerSupport g)
    (turn g) (winner g) (selectedUnitId g) l (combatState g)
    (pendingAttack g) (showComputerSupport g).

Definition set_combatState (c : option CombatState) (g : GameState) : GameState :=
  mkGameState (gridSize g) (difficulty g) (units g) (playerSupport g) (computerSupport g)
    (turn g) (winner g) (selectedUnitId g) (logs g) c
    (pendingAttack g) (showComputerSupport g).

Definition set_pendingAttack (p : option PendingAttack) (g : GameState) : GameState :=
  mkGameState (gridSize g) (difficulty g) (units g) (playerSupport g) (computerSupport g)
    (turn g) (winner g) (selectedUnitId g) (logs g) (combatState g)
    p (showComputerSupport g).

Definition set_playerSupport (s : list SupportLine) (g : GameState) : GameState :=
  mkGameState (gridSize g) (difficulty g) (units g) s (computerSupport g)
    (turn g) (winner g) (selectedUnitId g) (logs g) (combatState g)
    (pendingAttack g) (showComputerSupport g).

Definition set_computerSupport (s : list SupportLine) (g : GameState) : GameState :=
  mkGameState (gridSize g) (difficulty g) (units g) (playerSupport g) s
    (turn g) (winner g) (selectedUnitId g) (logs g) (combatState g)
    (pendingAttack g) (showComputerSupport g).

Definition set_position (x y : Z) (r : Direction) (m : Z) (h : bool) (u : Unit) : Unit :=
  mkUnit (u_id u) (u_type u) (u_player u) x y r m (u_attacksLeft u) h (u_maxMoves u) (u_hp u).

Definition set_rotation (r : Direction) (h : bool) (u : Unit) : Unit :=
  mkUnit (u_id u) (u_type u) (u_player u) (u_x u) (u_y u) r (u_movesLeft u)
    (u_attacksLeft u) h (u_maxMoves u) (u_hp u).

Definition set_budget (m a : Z) (h : bool) (u : Unit) : Unit :=
  mkUnit (u_id u) (u_type u) (u_player u) (u_x u) (u_y u) (u_rotation u) m a h
    (u_maxMoves u) (u_hp u).

End Types.

Export Types.

(** ** services/gameLogic *)

Module GameLogic.

Definition GRID_SIZE : Z := 7.

Definition INITIAL_ARMY_COMPOSITION : list UnitType :=
  [INFANTRY; INFANTRY; ARCHER; ARCHER; CAVALRY; CAVALRY].

Definition getVectorForRotation (dir : Direction) : Coordinate :=
  match dir with
  | NORTH => mkCoordinate 0 (-1)
  | SOUTH => mkCoordinate 0 1
  | EAST => mkCoordinate 1 0
  | WEST => mkCoordinate (-1) 0
  end.

Definition getFlankBonus (attacker defender : Unit) : Z :=
  if UnitType_eqb (u_type attacker) ARCHER then 0 else
  let dx := u_x attacker - u_x defender in
  let dy := u_y attacker - u_y defender in
  let f := getVectorForRotation (u_rotation defender) in
  if (dx =? c_x f) && (dy =? c_y f) then 0 else 1.

(** The body of the [forEach] in [calculateBaseStrength]: both tests are
    run on every line, each adding one when it holds. *)
Definition supportStep (unit : Unit) (strength : Z) (sl : SupportLine) : Z :=
  let strength :=
    if LineType_eqb (sl_type sl) row && (sl_index sl =? u_y unit)
    then strength + 1 else strength in
  if LineType_eqb (sl_type sl) col && (sl_index sl =? u_x unit)
  then strength + 1 else strength.

Definition calculateBaseStrength (unit : Unit) (supportLines : list SupportLine) : Z :=
  let mySupports := filter (fun sl => owner_eqb (sl_player sl) (u_player unit)) supportLines in
  fold_left (supportStep unit) mySupports 1.

Definition getUnitAt (units : list Unit) (x y : Z) : option Unit :=
  find (fun u => (u_x u =? x) && (u_y u =? y)) units.

Definition isValidMove (unit : Unit) (targetX targetY : Z) (allUnits : list Unit) : bool :=
  if (targetX <? 1) || (targetX >? GRID_SIZE) || (targetY <? 1) || (targetY >? GRID_SIZE)
  then false else
  match getUnitAt allUnits targetX targetY with
  | Some _ => false
  | None =>
    let dx := targetX - u_x unit in
    let dy := targetY - u_y unit in
    let absDist := Z.abs dx + Z.abs dy in
    if absDist =? 1 then true else
    if UnitType_eqb (u_type unit) CAVALRY && (u_movesLeft unit >=? 2) && (absDist =? 2)
    then
      let vec := getVectorForRotation (u_rotation unit) in
      if (dx =? c_x vec * 2) && (dy =? c_y vec * 2) then
        let midX := u_x unit + c_x vec in
        let midY := u_y unit + c_y vec in
        match getUnitAt allUnits midX midY with
        | None => true
        | Some _ => false
        end
      else false
    else false
  end.

Definition canRotate (unit : Unit) : bool := u_movesLeft unit >? 0.

(** [isAdjacentToAnyEnemy] of [canAttack]. *)
Definition isAdjacentToAnyEnemy (attacker : Unit) (allUnits : list Unit) : bool :=
  existsb (fun e =>
    negb (Player_eqb (u_player e) (u_player attacker)) &&
    (Z.abs (u_x attacker - u_x e) + Z.abs (u_y attacker - u_y e) =? 1)) allUnits.

(** The midpoint [(a + d) / 2] is only computed under [isLinearGap], where
    the sum is even and the division exact. *)
Definition canAttack (attacker defender : Unit) (allUnits : list Unit) : bool :=
  if u_attacksLeft attacker <=? 0 then false else
  if Player_eqb (u_player attacker) (u_player defender) then false else
  let dxRaw := u_x defender - u_x attacker in
  let dyRaw := u_y defender - u_y attacker in
  let facing := getVectorForRotation (u_rotation attacker) in
  let dotProduct := dxRaw * c_x facing + dyRaw * c_y facing in
  if dotProduct <=? 0 then false else
  let dx := Z.abs dxRaw in
  let dy := Z.abs dyRaw in
  let dist := dx + dy in
  if UnitType_eqb (u_type attacker) ARCHER then
    let isDiagonal := (dx =? 1) && (dy =? 1) in
    let isLinearGap := ((dx =? 2) && (dy =? 0)) || ((dx =? 0) && (dy =? 2)) in
    if isAdjacentToAnyEnemy attacker allUnits then false else
    if isDiagonal || isLinearGap then
      if isLinearGap then
        let midX := (u_x attacker + u_x defender) / 2 in
        let midY := (u_y attacker + u_y defender) / 2 in
        match getUnitAt allUnits midX midY with
        | Some _ => false
        | None => true
        end
      else true
    else false
  else dist =? 1.

Definition getValidAttackTargets (unit : Unit) (allUnits : list Unit) : list Unit :=
  let enemies := filter (fun u => negb (Player_eqb (u_player u) (u_player unit))) allUnits in
  filter (fun enemy => canAttack unit enemy allUnits) enemies.

(** The [for ... of] loop of [isValidSupportPlacement]. *)
Fixpoint noDuplicateLine (supports : list SupportLine) (newSupport : SupportLine) : bool :=
  match supports with
  | [] => true
  | s :: rest =>
    if LineType_eqb (sl_type s) (sl_type newSupport) && (sl_index s =? sl_index newSupport)
    then false
    else noDuplicateLine rest newSupport
  end.

Definition isValidSupportPlacement (supports : list SupportLine) (newSupport : SupportLine) : bool :=
  if (Z.of_nat (List.length supports) >=? 3) then false
  else noDuplicateLine supports newSupport.

Inductive CombatWinner := win_attacker | win_defender | win_tie.

Record CombatResult := mkCombatResult {
  r_winner : CombatWinner;
  r_log : string;
  r_atkTotal : Z;
  r_defTotal : Z
}.

(** [Array.prototype.join]. *)
Fixpoint join (sep : string) (parts : list string) : string :=
  match parts with
  | [] => ""
  | [p] => p
  | p :: rest => (p ++ sep ++ join sep rest)%string
  end.

(** One round of the [attackers.forEach] of [resolveCombat]: the strength
    of one attacker and its log fragment. *)
Definition attackerStrength (atk defender : Unit) (attackerSupport : list SupportLine) : Z * string :=
  let strength := calculateBaseStrength atk attackerSupport in
  let details := (UnitType_str (u_type atk) ++ "(" ++ showZ strength)%string in
  let flank := getFlankBonus atk defender in
  let '(strength, details) :=
    if flank >? 0 then (strength + flank, (details ++ "+Flank")%string)
    else (strength, details) in
  let '(strength, details) :=
    if UnitType_eqb (u_type atk) CAVALRY && (u_movesLeft atk >? 0)
    then (strength + 1, (details ++ "+Charge")%string)
    else (strength, details) in
  (strength, (details ++ ")")%string).

Definition attackStep (defender : Unit) (attackerSupport : list SupportLine)
    (acc : Z * list string) (atk : Unit) : Z * list string :=
  let '(atkTotal, atkLogParts) := acc in
  let '(strength, details) := attackerStrength atk defender attackerSupport in
  (atkTotal + strength, atkLogParts ++ [details]).

Definition resolveCombat (attackers : list Unit) (defender : Unit)
    (attackerSupport defenderSupport : list SupportLine) : CombatResult :=
  let defBase := calculateBaseStrength defender defenderSupport in
  let defDetails := ("[Base+Sup: " ++ showZ defBase ++ "]")%string in
  let defTotal := defBase in
  let '(atkTotal, atkLogParts) :=
    fold_left (attackStep defender attackerSupport) attackers (0, []) in
  let log := ("COMBAT: " ++ join " + " atkLogParts ++ " = " ++ showZ atkTotal
              ++ " vs Defender " ++ defDetails ++ " = " ++ showZ defTotal ++ ". ")%string in
  if UnitType_eqb (u_type defender) ARCHER &&
     existsb (fun a => negb (UnitType_eqb (u_type a) ARCHER)) attackers
  then mkCombatResult win_attacker "Melee units overrun Archer! Auto-win." atkTotal 0
  else if atkTotal >? defTotal then
    mkCombatResult win_attacker (log ++ "Attackers win!")%string atkTotal defTotal
  else if defTotal >? atkTotal then
    let isMeleeAttack := existsb (fun u => negb (UnitType_eqb (u_type u) ARCHER)) attackers in
    if isMeleeAttack
    then mkCombatResult win_defender (log ++ "Defender Repels Attack! Attackers Lost.")%string
           atkTotal defTotal
    else mkCombatResult win_tie (log ++ "Ranged Attack Failed.")%string atkTotal defTotal
  else mkCombatResult win_tie (log ++ "Stalemate.")%string atkTotal defTotal.

Definition getCombatOutcome (attackers : list Unit) (defender : Unit) (gameState : GameState)
    : CombatResult :=
  resolveCombat attackers defender (computerSupport gameState) (playerSupport gameState).

End GameLogic.

Export GameLogic.

(** ** services/aiLogic: the computer's support lines and its planner

    [Math.floor(len * 0.1)] and [Math.floor(len * 0.5)] are the integer
    quotients by 10 and by 2 for the list lengths that occur (at most 50
    candidate moves). *)

Module AiLogic.

(** An object literal [{type: t, index: i}]: it has no [player] property. *)
Definition lineLiteral (t : LineType) (i : Z) : SupportLine := mkSupportLine None t i.

Definition options : list (list SupportLine) :=
  [ [lineLiteral col 3; lineLiteral col 4; lineLiteral col 5];
    [lineLiteral row 3; lineLiteral row 4; lineLiteral row 5];
    [lineLiteral col 4; lineLiteral row 3; lineLiteral row 5];
    [lineLiteral row 4; lineLiteral col 3; lineLiteral col 5] ].

(** [r] is the index [Math.floor(Math.random() * options.length)]; the
    selected array is returned as it is, under a cast. *)
Definition getComputerSupportPlacement (r : nat) : list SupportLine :=
  nth r options [].

(** The weights [SCORES]. *)
Definition KILL_UNIT_MULTIPLIER : Z := 100.

Definition UNIT_VALUES (t : UnitType) : Z :=
  match t with
  | CAVALRY => 5
  | ARCHER => 4
  | INFANTRY => 2
  end.

Definition SURVIVAL : Z := 50.

Definition SUPPORT_BONUS : Z := 10.

Definition FLANKING_POS : Z := 5.

Definition DANGER_PENALTY : Z := -20.

Definition evaluateState (gameState : GameState) : Z :=
  let myUnits := filter (fun u => Player_eqb (u_player u) computer) (units gameState) in
  let enemyUnits := filter (fun u => Player_eqb (u_player u) player) (units gameState) in
  let score := 0 in
  let score :=
    fold_left (fun score u => score + (SURVIVAL + UNIT_VALUES (u_type u) * 10)) myUnits score in
  let score :=
    fold_left (fun score u => score - (SURVIVAL + UNIT_VALUES (u_type u) * 10))
      enemyUnits score in
  fold_left (fun score u =>
    let strength := calculateBaseStrength u (computerSupport gameState) in
    let score := score + (strength - 1) * SUPPORT_BONUS in
    if UnitType_eqb (u_type u) ARCHER then
      let nearEnemy :=
        existsb (fun e => Z.abs (u_x e - u_x u) + Z.abs (u_y e - u_y u) =? 1) enemyUnits in
      if nearEnemy then score + DANGER_PENALTY * 2 else score
    else score) myUnits score.

(** [enemies.sort((a, b) => UNIT_VALUES[b.type] - UNIT_VALUES[a.type])]: a
    stable sort by decreasing value. *)
Fixpoint insertByValue (e : Unit) (sorted : list Unit) : list Unit :=
  match sorted with
  | [] => [e]
  | h :: t =>
    if UNIT_VALUES (u_type h) <? UNIT_VALUES (u_type e)
    then e :: h :: t
    else h :: insertByValue e t
  end.

Definition sortByValue (l : list Unit) : list Unit :=
  fold_left (fun sorted e => insertByValue e sorted) l [].

Definition attackAction (atk enemy : Unit) : AIAction :=
  mkAIAction (u_id atk) act_attack (Some (mkCoordinate (u_x enemy) (u_y enemy))) None.

Definition moveAction (unit : Unit) (x y : Z) : AIAction :=
  mkAIAction (u_id unit) act_move (Some (mkCoordinate x y)) None.

(** The state the planner threads through its loops: the actions chosen so
    far, the ids of [unitsThatActed], and [simulatedUnits]. *)
Record Planning := mkPlanning {
  actions : list AIAction;
  unitsThatActed : list string;
  simulatedUnits : list Unit
}.

(** One round of the attack phase, for one enemy. *)
Definition planAttackOn (gameState : GameState) (myUnits : list Unit)
    (st : Planning) (enemy : Unit) : Planning :=
  let potentialAttackers :=
    filter (fun u => negb (includes (unitsThatActed st) (u_id u))
                     && canAttack u enemy (simulatedUnits st)) myUnits in
  if isEmpty potentialAttackers then st else
  let outcome :=
    getCombatOutcome potentialAttackers enemy (set_units (simulatedUnits st) gameState) in
  match r_winner outcome with
  | win_attacker =>
    mkPlanning
      (actions st ++ map (fun atk => attackAction atk enemy) potentialAttackers)
      (unitsThatActed st ++ map u_id potentialAttackers)
      (filter (fun u => negb (String.eqb (u_id u) (u_id enemy))) (simulatedUnits st))
  | _ => st
  end.

Definition sampleSize (d : Difficulty) (n : Z) : Z :=
  match d with
  | random => 1
  | easy => Z.max 1 (n / 10)
  | medium => Z.max 2 (n / 2)
  | hard => n
  end.

(** The auto-rotate chain of the simulated step. *)
Definition simRotation (u : Unit) (x y : Z) : Direction :=
  if y <? u_y u then NORTH
  else if x >? u_x u then EAST
  else if y >? u_y u then SOUTH
  else if x <? u_x u then WEST
  else u_rotation u.

(** The scan of the candidates of one unit: the best action so far and its
    score ([None] is minus infinity). *)
Definition scoreCandidate (gameState : GameState) (unit : Unit) (sim : list Unit)
    (best : option AIAction * option Z) (action : AIAction)
    : option AIAction * option Z :=
  match a_target action with
  | None => best
  | Some t =>
    let nextUnits := map (fun u =>
      if String.eqb (u_id u) (u_id unit)
      then set_position (c_x t) (c_y t) (simRotation u (c_x t) (c_y t))
             (u_movesLeft u) (u_hasRotated u) u
      else u) sim in
    let score := evaluateState (set_units nextUnits gameState) in
    match snd best with
    | Some bestScore => if score >? bestScore then (Some action, Some score) else best
    | None => (Some action, Some score)
    end
  end.

(** One round of the movement phase, for one unit that has not attacked.
    [shuffled] stands for [validMoves.sort(() => Math.random() - 0.5)]. *)
Definition planMoveOf (shuffled : list AIAction -> list AIAction) (gameState : GameState)
    (st : Planning) (unit : Unit) : Planning :=
  let range := [1; 2; 3; 4; 5; 6; 7] in
  let validMoves :=
    moveAction unit (u_x unit) (u_y unit)
    :: flat_map (fun y =>
         flat_map (fun x =>
           if isValidMove unit x y (simulatedUnits st) then [moveAction unit x y] else [])
           range) range in
  let size := sampleSize (difficulty gameState) (Z.of_nat (List.length validMoves)) in
  let candidates := firstn (Z.to_nat size) (shuffled validMoves) in
  let best :=
    fold_left (scoreCandidate gameState unit (simulatedUnits st)) candidates (None, None) in
  match fst best with
  | Some bestAction =>
    match a_target bestAction with
    | Some t =>
      if negb (c_x t =? u_x unit) || negb (c_y t =? u_y unit) then
        mkPlanning (actions st ++ [bestAction]) (unitsThatActed st)
          (map (fun u =>
             if String.eqb (u_id u) (u_id unit)
             then set_position (c_x t) (c_y t) (u_rotation u) (u_movesLeft u)
                    (u_hasRotated u) u
             else u) (simulatedUnits st))
      else st
    | None => st
    end
  | None => st
  end.

(** The movement loop; [shuffle k] is the shuffle drawn for the unit of
    rank [k]. *)
Fixpoint planMoves (shuffle : nat -> list AIAction -> list AIAction) (k : nat)
    (gameState : GameState) (st : Planning) (remainingUnits : list Unit) : Planning :=
  match remainingUnits with
  | [] => st
  | unit :: rest =>
    planMoves shuffle (S k) gameState (planMoveOf (shuffle k) gameState st unit) rest
  end.

Definition getComputerMovesLocal (shuffle : nat -> list AIAction -> list AIAction)
    (gameState : GameState) : list AIAction :=
  let simulated := units gameState in
  let enemies := filter (fun u => Player_eqb (u_player u) player) simulated in
  let myUnits := filter (fun u => Player_eqb (u_player u) computer) simulated in
  let enemies := sortByValue enemies in
  let st := fold_left (planAttackOn gameState myUnits) enemies (mkPlanning [] [] simulated) in
  let remainingUnits :=
    filter (fun u => negb (includes (unitsThatActed st) (u_id u))) myUnits in
  let st := planMoves shuffle 0 gameState st remainingUnits in
  actions st ++ [mkAIAction "global" act_end_turn None None].

End AiLogic.

(** The second copy of aiLogic kept in the repository, whose
    [getComputerSupportPlacement] rebuilds every selected line with an
    owner. *)
Module AiLogicOwned.

Definition getComputerSupportPlacement (r : nat) : list SupportLine :=
  let selected := nth r AiLogic.options [] in
  map (fun s => mkSupportLine (Some computer) (sl_type s) (sl_index s)) selected.

(** [simulateMove], the step this copy of the planner folds into its
    working list of units. *)
Definition simulateMove (unit : Unit) (targetX targetY : Z) : Unit :=
  let newRot :=
    if targetY <? u_y unit then NORTH
    else if targetX >? u_x unit then EAST
    else if targetY >? u_y unit then SOUTH
    else if targetX <? u_x unit then WEST
    else u_rotation unit in
  let dist := Z.abs (u_x unit - targetX) + Z.abs (u_y unit - targetY) in
  set_position targetX targetY newRot (Z.max 0 (u_movesLeft unit - dist))
    (u_hasRotated unit) unit.

End AiLogicOwned.

(** ** App.tsx: state and handlers *)

Module App.

(** The component's state cells that the handlers read or write. *)
Record AppState := mkAppState {
  gameState : GameState;
  setupUnitsLeft : list UnitType;
  isProcessingAI : bool;
  aiPlan : option (list AIAction)
}.

Definition with_gameState (f : GameState -> GameState) (s : AppState) : AppState :=
  mkAppState (f (gameState s)) (setupUnitsLeft s) (isProcessingAI s) (aiPlan s).

(** The double-quote character of the welcome message. *)
Definition dquote : string := String "034"%char EmptyString.

Definition initialGameState : GameState :=
  mkGameState GRID_SIZE medium [] [] [] setup_placement None None
    [("Welcome to " ++ dquote ++ "Skrimish 7x7" ++ dquote)%string;
     "Place your units in the blue zone (Bottom 2 rows)."%string]
    None None false.

Definition initialAppState : AppState :=
  mkAppState initialGameState INITIAL_ARMY_COMPOSITION false None.

Definition maxMovesFor (t : UnitType) : Z :=
  if UnitType_eqb t CAVALRY then 2 else 1.

(** The six tiles of the computer's zone in the order the two nested
    loops push them, before the shuffle. *)
Definition computerZone : list Coordinate :=
  flat_map (fun y => map (fun x => mkCoordinate x y) [3; 4; 5]) [1; 2].

(** [compTypes.forEach((type, idx) => ...)]: [placements] is the shuffled
    zone and [genId idx] the identifier drawn for the unit of rank [idx]. *)
Fixpoint deployComputer (genId : nat -> string) (idx : nat)
    (compTypes : list UnitType) (placements : list Coordinate) : list Unit :=
  match compTypes with
  | [] => []
  | t :: rest =>
    match nth_error placements idx with
    | Some p =>
      mkUnit (genId idx) t computer (c_x p) (c_y p) SOUTH
        (maxMovesFor t) 1 false (maxMovesFor t) 1
      :: deployComputer genId (S idx) rest placements
    | None => deployComputer genId (S idx) rest placements
    end
  end.

(** The effect run once at start-up: the computer's units and support
    lines are added to the state.  [r] is the random index drawn by
    [getComputerSupportPlacement]. *)
Definition initialComputerSetup (genId : nat -> string) (placements : list Coordinate)
    (r : nat) (prev : GameState) : GameState :=
  let compUnits := deployComputer genId 0 INITIAL_ARMY_COMPOSITION placements in
  let compSupport := AiLogic.getComputerSupportPlacement r in
  set_computerSupport compSupport (set_units (units prev ++ compUnits) prev).

Definition addLog (msg : string) (prev : GameState) : GameState :=
  set_logs (logs prev ++ [msg]) prev.

Definition findById (us : list Unit) (i : string) : option Unit :=
  find (fun u => String.eqb (u_id u) i) us.

(** [units.find(u => u.id === selectedUnitId)]: no unit has the id [null]. *)
Definition findSelected (g : GameState) : option Unit :=
  match selectedUnitId g with
  | Some i => findById (units g) i
  | None => None
  end.

(** The auto-rotate chain shared by [executeMove] and the computer's move. *)
Definition moveRotation (unit : Unit) (x y : Z) : Direction :=
  if y <? u_y unit then NORTH
  else if x >? u_x unit then EAST
  else if y >? u_y unit then SOUTH
  else if x <? u_x unit then WEST
  else u_rotation unit.

Definition handleSetupPlacement (x y : Z) (fresh : string) (s : AppState) : AppState :=
  let g := gameState s in
  match setupUnitsLeft s with
  | [] => s
  | t :: rest =>
    if (y <? 6) || (x <? 3) || (x >? 5)
    then with_gameState (addLog "Invalid placement zone (Bottom center 2x3).") s
    else
      match getUnitAt (units g) x y with
      | Some _ => with_gameState (addLog "Tile occupied.") s
      | None =>
        let newUnit :=
          mkUnit fresh t player x y NORTH (maxMovesFor t) 1 false (maxMovesFor t) 1 in
        let g1 := set_units (units g ++ [newUnit]) g in
        let g2 :=
          if Nat.eqb (List.length (setupUnitsLeft s)) 1
          then set_turn setup_support
                 (addLog "Units placed. Toggle 3 secret support lines using the board headers." g1)
          else g1 in
        mkAppState g2 rest (isProcessingAI s) (aiPlan s)
      end
  end.

(** [findIndex] followed by [splice(existingIndex, 1)]: the first line of
    that axis and index is taken out. *)
Fixpoint removeFirstLine (t : LineType) (index : Z) (l : list SupportLine)
    : option (list SupportLine) :=
  match l with
  | [] => None
  | s :: rest =>
    if LineType_eqb (sl_type s) t && (sl_index s =? index) then Some rest
    else match removeFirstLine t index rest with
         | Some rest' => Some (s :: rest')
         | None => None
         end
  end.

Definition toggleSupport (t : LineType) (index : Z) (g : GameState) : GameState :=
  match turn g with
  | setup_support =>
    match removeFirstLine t index (playerSupport g) with
    | Some newSupport => set_playerSupport newSupport g
    | None =>
      if Z.of_nat (List.length (playerSupport g)) >=? 3
      then addLog "Max 3 supports allowed. Deselect one first." g
      else
        let newS := mkSupportLine (Some player) t index in
        if isValidSupportPlacement (playerSupport g) newS
        then set_playerSupport (playerSupport g ++ [newS]) g
        else addLog "Invalid support placement (Adjacent parallel lines not allowed)." g
    end
  | _ => g
  end.

Definition finishSetup (g : GameState) : GameState :=
  if negb (Nat.eqb (List.length (playerSupport g)) 3)
  then addLog "You must select exactly 3 support lines." g
  else addLog "Game Start! Your Turn." (set_turn (turn_of player) g).

Definition executeMove (unit : Unit) (x y cost : Z) (prev : GameState) : GameState :=
  let newRotation := moveRotation unit x y in
  let newUnits := map (fun u =>
    if String.eqb (u_id u) (u_id unit)
    then set_position x y newRotation (u_movesLeft u - cost) false u
    else u) (units prev) in
  set_units newUnits prev.

Inductive Turning := turn_left | turn_right.

Definition pendingIncludes (g : GameState) (i : string) : bool :=
  match pendingAttack g with
  | Some pa => includes (pa_attackerIds pa) i
  | None => false
  end.

Definition executeRotate (direction : Turning) (g : GameState) : GameState :=
  match findSelected g with
  | None => g
  | Some unit =>
    if pendingIncludes g (u_id unit)
    then addLog "Cannot rotate while preparing to attack." g
    else if negb (canRotate unit)
    then addLog "Cannot rotate (Need at least 1 move remaining)." g
    else
      let newUnits := map (fun u =>
        if String.eqb (u_id u) (u_id unit) then
          let newDir :=
            match direction with
            | turn_left => Direction_of_num ((Direction_num (u_rotation u) + 3) mod 4)
            | turn_right => Direction_of_num ((Direction_num (u_rotation u) + 1) mod 4)
            end in
          set_rotation newDir true u
        else u) (units g) in
      set_units newUnits g
  end.

Definition pendingTargetIs (g : GameState) (i : string) : bool :=
  match pendingAttack g with
  | Some pa => String.eqb (pa_targetId pa) i
  | None => false
  end.

(** Scenario 1 of [handleGameInteraction]: an enemy unit was clicked. *)
Definition clickEnemy (clickedUnit : Unit) (selectedUnit : option Unit) (g : GameState)
    : GameState :=
  let canSel :=
    match selectedUnit with
    | Some sel => canAttack sel clickedUnit (units g)
    | None => false
    end in
  let newAttackerIds :=
    match selectedUnit with
    | Some sel => if canSel then [u_id sel] else []
    | None => []
    end in
  if negb canSel && pendingTargetIs g (u_id clickedUnit) then g else
  match pendingAttack g with
  | Some pa =>
    if String.eqb (pa_targetId pa) (u_id clickedUnit) then
      match selectedUnit with
      | Some sel =>
        if negb (includes (pa_attackerIds pa) (u_id sel)) && canAttack sel clickedUnit (units g)
        then addLog (UnitType_str (u_type sel) ++ " added to attack plan.")%string
               (set_pendingAttack
                  (Some (mkPendingAttack (pa_targetId pa) (pa_attackerIds pa ++ [u_id sel]))) g)
        else g
      | None => g
      end
    else if negb (isEmpty newAttackerIds)
    then addLog ("Targeting " ++ UnitType_str (u_type clickedUnit)
                 ++ ". Add more units or Confirm.")%string
           (set_pendingAttack (Some (mkPendingAttack (u_id clickedUnit) newAttackerIds)) g)
    else addLog "Select one of your units first to initiate attack." g
  | None =>
    if negb (isEmpty newAttackerIds)
    then addLog ("Targeting " ++ UnitType_str (u_type clickedUnit)
                 ++ ". Add more units or Confirm.")%string
           (set_pendingAttack (Some (mkPendingAttack (u_id clickedUnit) newAttackerIds)) g)
    else addLog "Select one of your units first to initiate attack." g
  end.

(** Scenario 2: one of the player's own units was clicked. *)
Definition clickOwn (clickedUnit : Unit) (g : GameState) : GameState :=
  let select := set_selectedUnitId (Some (u_id clickedUnit)) in
  match pendingAttack g with
  | Some pa =>
    match findById (units g) (pa_targetId pa) with
    | Some target =>
      if canAttack clickedUnit target (units g) then
        let alreadyAdded := includes (pa_attackerIds pa) (u_id clickedUnit) in
        let g1 :=
          if alreadyAdded
          then addLog (UnitType_str (u_type clickedUnit) ++ " removed from attack.")%string
                 (set_pendingAttack
                    (Some (mkPendingAttack (pa_targetId pa)
                       (filter (fun i => negb (String.eqb i (u_id clickedUnit)))
                          (pa_attackerIds pa)))) g)
          else addLog (UnitType_str (u_type clickedUnit) ++ " joining attack.")%string
                 (set_pendingAttack
                    (Some (mkPendingAttack (pa_targetId pa)
                       (pa_attackerIds pa ++ [u_id clickedUnit]))) g) in
        select g1
      else select g
    | None => select g
    end
  | None => select g
  end.

(** Scenario 3: an empty tile was clicked while a unit is selected. *)
Definition clickEmpty (selectedUnit : Unit) (x y : Z) (g : GameState) : GameState :=
  if pendingIncludes g (u_id selectedUnit)
  then addLog "Unit is preparing to attack. Cancel attack to move." g
  else if isValidMove selectedUnit x y (units g) then
    let dist := Z.abs (u_x selectedUnit - x) + Z.abs (u_y selectedUnit - y) in
    if u_movesLeft selectedUnit >=? dist
    then executeMove selectedUnit x y dist g
    else addLog "Not enough moves left." g
  else set_selectedUnitId None g.

Definition handleGameInteraction (x y : Z) (g : GameState) : GameState :=
  let clickedUnit := getUnitAt (units g) x y in
  let selectedUnit := findSelected g in
  match clickedUnit with
  | Some clicked =>
    match u_player clicked with
    | computer => clickEnemy clicked selectedUnit g
    | player => clickOwn clicked g
    end
  | None =>
    match selectedUnit with
    | Some sel => clickEmpty sel x y g
    | None => g
    end
  end.

Definition isSome {A : Type} (o : option A) : bool :=
  match o with
  | Some _ => true
  | None => false
  end.

(** [fresh] is the identifier [generateId] would draw for a placed unit. *)
Definition handleTileClick (x y : Z) (fresh : string) (s : AppState) : AppState :=
  if isSome (winner (gameState s)) || isProcessingAI s || isSome (aiPlan s) then s else
  match turn (gameState s) with
  | setup_placement => handleSetupPlacement x y fresh s
  | turn_of player => with_gameState (handleGameInteraction x y) s
  | _ => s
  end.

Definition checkWinCondition (prev : GameState) : GameState :=
  let playerUnits := filter (fun u => Player_eqb (u_player u) player) (units prev) in
  let computerUnits := filter (fun u => Player_eqb (u_player u) computer) (units prev) in
  if isEmpty playerUnits
  then addLog "Defeat! Computer wins." (set_turn game_over (set_winner (Some computer) prev))
  else if isEmpty computerUnits
  then addLog "Victory! You win." (set_turn game_over (set_winner (Some player) prev))
  else prev.

(** The updater of [executeMultiAttack] that resolves the combat. *)
Definition resolveMultiAttack (attackers : list Unit) (defender : Unit) (prev : GameState)
    : GameState :=
  let curAttackers :=
    filter (fun u => includes (map u_id attackers) (u_id u)) (units prev) in
  match isEmpty curAttackers, findById (units prev) (u_id defender) with
  | false, Some curDefender =>
    let result :=
      resolveCombat curAttackers curDefender (playerSupport prev) (computerSupport prev) in
    let newUnits := map (fun u =>
      if existsb (fun atk => String.eqb (u_id atk) (u_id u)) curAttackers
      then set_budget (Z.max 0 (u_movesLeft u)) 0 (u_hasRotated u) u
      else u) (units prev) in
    let newUnits :=
      match r_winner result with
      | win_attacker =>
        filter (fun u => negb (String.eqb (u_id u) (u_id curDefender))) newUnits
      | win_defender =>
        let attackerIds := map u_id curAttackers in
        filter (fun u => negb (includes attackerIds (u_id u))) newUnits
      | win_tie => newUnits
      end in
    set_logs (logs prev ++ [r_log result])
      (set_combatState None (set_selectedUnitId None (set_units newUnits prev)))
  | _, _ => set_combatState None prev
  end.

(** The three updates of [executeMultiAttack], up to the timer that runs
    [checkWinCondition] a tenth of a second later: the pending attack is
    cleared, the animation marker set, the combat resolved.  Until the
    timer fires the state is this one, and clicks are handled on it. *)
Definition multiAttackUpdates (attackers : list Unit) (defender : Unit) (g : GameState)
    : GameState :=
  let g1 := set_pendingAttack None g in
  let g2 := set_combatState
              (Some (mkCombatState (map u_id attackers) (u_id defender))) g1 in
  resolveMultiAttack attackers defender g2.

(** [executeMultiAttack] with its timer fired and nothing handled in
    between: the pending attack is cleared, the animation marker set, the
    combat resolved, and the win condition checked. *)
Definition executeMultiAttack (attackers : list Unit) (defender : Unit) (g : GameState)
    : GameState :=
  let g1 := set_pendingAttack None g in
  let g2 := set_combatState
              (Some (mkCombatState (map u_id attackers) (u_id defender))) g1 in
  let g3 := resolveMultiAttack attackers defender g2 in
  checkWinCondition g3.

Definition confirmPendingAttack (g : GameState) : GameState :=
  match pendingAttack g with
  | None => g
  | Some pa =>
    if isEmpty (pa_attackerIds pa) then g else
    let target := findById (units g) (pa_targetId pa) in
    let attackers := filter (fun u => includes (pa_attackerIds pa) (u_id u)) (units g) in
    match target with
    | None => set_pendingAttack None g
    | Some t =>
      if isEmpty attackers then set_pendingAttack None g
      else executeMultiAttack attackers t g
    end
  end.

Definition cancelPendingAttack (g : GameState) : GameState :=
  addLog "Attack cancelled." (set_pendingAttack None g).

(** The budget reset both end-of-turn updaters apply to one side. *)
Definition resetSide (side : Player) (us : list Unit) : list Unit :=
  map (fun u =>
    if Player_eqb (u_player u) side
    then set_budget (u_maxMoves u) 1 false u
    else u) us.

Definition endPlayerTurn (prev : GameState) : GameState :=
  let resetUnits := resetSide player (units prev) in
  set_combatState None
    (set_pendingAttack None
       (set_selectedUnitId None
          (set_turn (turn_of computer) (set_units resetUnits prev)))).

(** *** The computer's turn ([runComputerTurn]) *)

Definition Difficulty_str (d : Difficulty) : string :=
  match d with
  | random => "random"
  | easy => "easy"
  | medium => "medium"
  | hard => "hard"
  end.

(** The effect that plans the computer's turn once the turn is the
    computer's: the plan is computed from the state the effect saw. *)
Definition planComputerTurn (shuffle : nat -> list AIAction -> list AIAction)
    (s : AppState) : AppState :=
  let g := gameState s in
  match turn g, winner g, isProcessingAI s, aiPlan s with
  | turn_of computer, None, false, None =>
    let g1 := addLog ("Computer thinking (" ++ Difficulty_str (difficulty g) ++ ")...")%string g in
    let plan := AiLogic.getComputerMovesLocal shuffle g in
    mkAppState (addLog "Computer ready. Click 'Execute' to watch." g1)
      (setupUnitsLeft s) false (Some plan)
  | _, _, _, _ => s
  end.

(** The updater of a ['move'] action. *)
Definition computerMove (unitId : string) (target : Coordinate) (current : GameState)
    : GameState :=
  match findById (units current) unitId with
  | None => current
  | Some unit =>
    match getUnitAt (units current) (c_x target) (c_y target) with
    | Some _ => current
    | None =>
      let newRotation := moveRotation unit (c_x target) (c_y target) in
      let dist := Z.abs (u_x unit - c_x target) + Z.abs (u_y unit - c_y target) in
      let newUnits := map (fun u =>
        if String.eqb (u_id u) (u_id unit)
        then set_position (c_x target) (c_y target) newRotation
               (Z.max 0 (u_movesLeft u - dist)) (u_hasRotated u) u
        else u) (units current) in
      set_units newUnits current
    end
  end.

(** The updater of a ['rotate'] action. *)
Definition computerRotate (unitId : string) (direction : Direction) (current : GameState)
    : GameState :=
  match findById (units current) unitId with
  | None => current
  | Some unit =>
    let newUnits := map (fun u =>
      if String.eqb (u_id u) (u_id unit)
      then set_rotation direction (u_hasRotated u) u
      else u) (units current) in
    set_units newUnits current
  end.

(** The updater that resolves an ['attack'] action. *)
Definition resolveComputerAttack (unitId : string) (target : Coordinate) (prev : GameState)
    : GameState :=
  match findById (units prev) unitId, getUnitAt (units prev) (c_x target) (c_y target) with
  | Some atk, Some def =>
    let res := resolveCombat [atk] def (computerSupport prev) (playerSupport prev) in
    let newUnits :=
      match r_winner res with
      | win_attacker => filter (fun u => negb (String.eqb (u_id u) (u_id def))) (units prev)
      | win_defender => filter (fun u => negb (String.eqb (u_id u) (u_id atk))) (units prev)
      | win_tie => units prev
      end in
    let newUnits :=
      if existsb (fun u => String.eqb (u_id u) (u_id atk)) newUnits
      then map (fun u =>
             if String.eqb (u_id u) (u_id atk)
             then set_budget (u_movesLeft u) 0 (u_hasRotated u) u
             else u) newUnits
      else newUnits in
    set_logs (logs prev ++ [r_log res]) (set_combatState None (set_units newUnits prev))
  | _, _ => set_combatState None prev
  end.

(** An ['attack'] action: attacker and defender are looked up in the
    current state; when both exist the animation marker is set and the
    combat resolved. *)
Definition computerAttack (unitId : string) (target : Coordinate) (current : GameState)
    : GameState :=
  match findById (units current) unitId,
        getUnitAt (units current) (c_x target) (c_y target) with
  | Some attacker, Some defender =>
    let g1 := set_combatState
                (Some (mkCombatState [u_id attacker] (u_id defender))) current in
    resolveComputerAttack unitId target g1
  | _, _ => current
  end.

(** One iteration of the loop over the plan, for an action other than
    ['end_turn']. *)
Definition applyAction (action : AIAction) (g : GameState) : GameState :=
  match a_actionType action, a_target action, a_direction action with
  | act_move, Some t, _ => computerMove (a_unitId action) t g
  | act_rotate, _, Some d => computerRotate (a_unitId action) d g
  | act_attack, Some t, _ => computerAttack (a_unitId action) t g
  | _, _, _ => g
  end.

(** The loop [for (const action of aiPlan)], left at the first
    ['end_turn']. *)
Fixpoint runPlan (plan : list AIAction) (g : GameState) : GameState :=
  match plan with
  | [] => g
  | action :: rest =>
    match a_actionType action with
    | act_end_turn => g
    | _ => runPlan rest (applyAction action g)
    end
  end.

(** The updater that closes the computer's turn. *)
Definition finishComputerTurn (prev : GameState) : GameState :=
  let resetUnits := resetSide computer (units prev) in
  let playerAlive := existsb (fun u => Player_eqb (u_player u) player) resetUnits in
  let compAlive := existsb (fun u => Player_eqb (u_player u) computer) resetUnits in
  let st := (None, turn_of player, logs prev ++ ["Your Turn."%string]) in
  let st :=
    if negb playerAlive
    then let '(_, _, l) := st in (Some computer, game_over, l ++ ["Computer Wins!"%string])
    else st in
  let st :=
    if negb compAlive
    then let '(_, _, l) := st in (Some player, game_over, l ++ ["You Win!"%string])
    else st in
  let '(winner, turn, logs) := st in
  set_combatState None
    (set_logs logs (set_winner winner (set_turn turn (set_units resetUnits prev)))).

Definition runComputerTurn (s : AppState) : AppState :=
  match aiPlan s with
  | None => s
  | Some plan =>
    mkAppState (finishComputerTurn (runPlan plan (gameState s)))
      (setupUnitsLeft s) false None
  end.

(** *** The highlights handed to the board *)

(** The 49 tiles in the order [Array.from({length: GRID_SIZE*GRID_SIZE})]
    enumerates them: [x = i % 7 + 1], [y = floor(i / 7) + 1]. *)
Definition allTiles : list Coordinate :=
  map (fun i => mkCoordinate (Z.of_nat i mod GRID_SIZE + 1) (Z.of_nat i / GRID_SIZE + 1))
    (seq 0 (Z.to_nat (GRID_SIZE * GRID_SIZE))).

Definition validMoves (g : GameState) : list Coordinate :=
  match findSelected g, turn g, pendingAttack g with
  | Some selectedUnit, turn_of player, None =>
    filter (fun c => isValidMove selectedUnit (c_x c) (c_y c) (units g)
                     && (u_movesLeft selectedUnit >? 0)) allTiles
  | _, _, _ => []
  end.

Definition validTargets (g : GameState) : list Coordinate :=
  match findSelected g, turn g with
  | Some selectedUnit, turn_of player =>
    map (fun u => mkCoordinate (u_x u) (u_y u)) (getValidAttackTargets selectedUnit (units g))
  | _, _ => []
  end.

End App.

Export App.

(** ** Vocabulary of the specification

    The notions the specification uses to state the rules, written from
    its words; the properties below relate them to the code. *)

Module Spec.

(** No unit of the list stands on the tile. *)
Definition Unoccupied (us : list Unit) (x y : Z) : Prop :=
  forall u, In u us -> ~ (u_x u = x /\ u_y u = y).

(** The line lies along the unit's row or along its column. *)
Definition onLine (unit : Unit) (sl : SupportLine) : bool :=
  match sl_type sl with
  | row => sl_index sl =? u_y unit
  | col => sl_index sl =? u_x unit
  end.

(** The line is owned by the unit's side and passes through its tile. *)
Definition supports (unit : Unit) (sl : SupportLine) : bool :=
  owner_eqb (sl_player sl) (u_player unit) && onLine unit sl.

(** The board is the square [1..7] x [1..7]. *)
Definition InBounds (x y : Z) : Prop := 1 <= x <= 7 /\ 1 <= y <= 7.

(** Manhattan distance from a unit to a tile. *)
Definition manhattan (unit : Unit) (x y : Z) : Z :=
  Z.abs (x - u_x unit) + Z.abs (y - u_y unit).

(** The cavalry charge: two tiles along the current facing, with two move
    points left and the tile in between free. *)
Definition Charge (unit : Unit) (tx ty : Z) (us : list Unit) : Prop :=
  let f := getVectorForRotation (u_rotation unit) in
  u_type unit = CAVALRY /\ 2 <= u_movesLeft unit /\
  tx - u_x unit = 2 * c_x f /\ ty - u_y unit = 2 * c_y f /\
  Unoccupied us (u_x unit + c_x f) (u_y unit + c_y f).

(** Dot product of the displacement attacker -> defender with the
    attacker's facing vector. *)
Definition facingDot (attacker defender : Unit) : Z :=
  let f := getVectorForRotation (u_rotation attacker) in
  (u_x defender - u_x attacker) * c_x f + (u_y defender - u_y attacker) * c_y f.

(** The three gates every attack must pass. *)
Definition AttackGates (attacker defender : Unit) : Prop :=
  0 < u_attacksLeft attacker /\ u_player attacker <> u_player defender /\
  0 < facingDot attacker defender.

(** An archer is engaged when some enemy stands at Manhattan distance 1. *)
Definition Engaged (attacker : Unit) (us : list Unit) : Prop :=
  exists e, In e us /\ u_player e <> u_player attacker /\
            manhattan e (u_x attacker) (u_y attacker) = 1.

Definition Diagonal (attacker defender : Unit) : Prop :=
  Z.abs (u_x defender - u_x attacker) = 1 /\ Z.abs (u_y defender - u_y attacker) = 1.

Definition LinearGap (attacker defender : Unit) : Prop :=
  (Z.abs (u_x defender - u_x attacker) = 2 /\ Z.abs (u_y defender - u_y attacker) = 0) \/
  (Z.abs (u_x defender - u_x attacker) = 0 /\ Z.abs (u_y defender - u_y attacker) = 2).

(** The tile [(mx, my)] lies halfway between the two units. *)
Definition Between (attacker defender : Unit) (mx my : Z) : Prop :=
  2 * mx = u_x attacker + u_x defender /\ 2 * my = u_y attacker + u_y defender.

Definition sumZ (l : list Z) : Z := fold_right Z.add 0 l.

(** A frontal attack: the displacement from the defender to the attacker
    is the defender's facing vector. *)
Definition Frontal (attacker defender : Unit) : Prop :=
  let f := getVectorForRotation (u_rotation defender) in
  u_x attacker - u_x defender = c_x f /\ u_y attacker - u_y defender = c_y f.

(** The charge bonus: one for cavalry with movement left when the combat
    is resolved. *)
Definition chargeBonus (attacker : Unit) : Z :=
  match u_type attacker with
  | CAVALRY => if 0 <? u_movesLeft attacker then 1 else 0
  | _ => 0
  end.

(** Some attacker of the group is not an archer. *)
Definition HasMelee (attackers : list Unit) : Prop :=
  exists a, In a attackers /\ u_type a <> ARCHER.

(** No unit with this identifier is left in the list. *)
Definition Removed (i : string) (us : list Unit) : Prop :=
  forall u, In u us -> u_id u <> i.

(** The attackers' total as the loop of [resolveCombat] accumulates it,
    and its test for a non-archer in the group. *)
Definition atkTotalOf (attackers : list Unit) (defender : Unit)
    (attackerSupport : list SupportLine) : Z :=
  fst (fold_left (attackStep defender attackerSupport) attackers (0, [])).

Definition anyMelee (attackers : list Unit) : bool :=
  existsb (fun a => negb (UnitType_eqb (u_type a) ARCHER)) attackers.

Definition otherSide (p : Player) : Player :=
  match p with
  | player => computer
  | computer => player
  end.

(** A side has no unit left, or still has one. *)
Definition NoUnits (p : Player) (g : GameState) : Prop :=
  forall u, In u (units g) -> u_player u <> p.

Definition HasUnits (p : Player) (g : GameState) : Prop :=
  exists u, In u (units g) /\ u_player u = p.

(** The turn budget of a unit. *)
Definition budget (u : Unit) : Z * Z := (u_movesLeft u, u_attacksLeft u).

(** The end-of-turn rule in the words of the specification: when [ending]
    ends its turn, the units of the other side get their full budget, the
    budgets of [ending]'s own units stay as they are, the pending attack
    is cleared and the turn passes to the other side. *)
Definition EndTurnRefreshesOpponent (ending : Player) (before after : GameState) : Prop :=
  (forall u, In u (units after) -> u_player u = otherSide ending ->
     u_movesLeft u = u_maxMoves u /\ u_attacksLeft u = 1)
  /\ map budget (filter (fun u => Player_eqb (u_player u) ending) (units after))
     = map budget (filter (fun u => Player_eqb (u_player u) ending) (units before))
  /\ pendingAttack after = None
  /\ turn after = turn_of (otherSide ending).

(** What the code does instead: every unit of [side] gets its full budget
    back and every other unit is left as it is, position by position. *)
Definition RefreshesSide (side : Player) (before after : list Unit) : Prop :=
  Forall2 (fun u u' =>
    (u_player u = side -> u' = set_budget (u_maxMoves u) 1 false u) /\
    (u_player u <> side -> u' = u)) before after.

(** The invocations through which a move or an attack reaches the state:
    a click on a tile (a move to a free tile, or the staging of an attack
    on an enemy), the confirmation of the staged attack, the planning of
    the computer's turn and the run of its plan. *)
Inductive Invocation :=
| TileClick (x y : Z) (fresh : string)
| ConfirmAttack
| PlanComputerTurn (shuffle : nat -> list AIAction -> list AIAction)
| RunComputerTurn.

Definition invoke (s : AppState) (i : Invocation) : AppState :=
  match i with
  | TileClick x y fresh => handleTileClick x y fresh s
  | ConfirmAttack => with_gameState confirmPendingAttack s
  | PlanComputerTurn shuffle => planComputerTurn shuffle s
  | RunComputerTurn => runComputerTurn s
  end.

(** The game is over: a winner is recorded, the phase is ['game_over'], and
    no attack is staged nor any plan waiting. *)
Definition GameOver (s : AppState) (w : Player) : Prop :=
  winner (gameState s) = Some w /\ turn (gameState s) = game_over /\
  pendingAttack (gameState s) = None /\ aiPlan s = None.

(** The end of the game in the words of the specification: in the state
    a combat resolution leaves, a side without units has lost at once,
    and from then on every click and every action of the computer's plan
    leaves the state as it is. *)
Definition OverAtOnce (s : AppState) : Prop :=
  forall p, NoUnits p (gameState s) -> HasUnits (otherSide p) (gameState s) ->
    (winner (gameState s) = Some (otherSide p) /\ turn (gameState s) = game_over)
    /\ (forall x y fresh, handleTileClick x y fresh s = s)
    /\ (forall action, applyAction action (gameState s) = gameState s).

(** The direction a unit faces when it looks back at [d]. *)
Definition opposite (d : Direction) : Direction :=
  match d with
  | NORTH => SOUTH
  | EAST => WEST
  | SOUTH => NORTH
  | WEST => EAST
  end.

(** The defender stands on the tile right in front of the attacker. *)
Definition InFront (attacker defender : Unit) : Prop :=
  let f := getVectorForRotation (u_rotation attacker) in
  u_x defender = u_x attacker + c_x f /\ u_y defender = u_y attacker + c_y f.

(** Axis and index of a line, and lists that hold no line twice. *)
Definition lineKey (sl : SupportLine) : LineType * Z := (sl_type sl, sl_index sl).

Definition DuplicateFree (lines : list SupportLine) : Prop := NoDup (map lineKey lines).

(** The player's support lines are sound: at most three, none repeated,
    all owned by the player. *)
Definition SupportSound (lines : list SupportLine) : Prop :=
  (List.length lines <= 3)%nat /\ DuplicateFree lines /\
  forall sl, In sl lines -> sl_player sl = Some player.

(** A run of clicks on the board headers. *)
Definition toggleAll (toggles : list (LineType * Z)) (g : GameState) : GameState :=
  fold_left (fun g ti => toggleSupport (fst ti) (snd ti) g) toggles g.

(** The tile a unit stands on. *)
Definition tile (u : Unit) : Z * Z := (u_x u, u_y u).

(** A unit's budget is within its limits. *)
Definition budgetOk (u : Unit) : Prop :=
  0 <= u_movesLeft u <= u_maxMoves u /\ 0 <= u_attacksLeft u <= 1.

(** The units are orderly: no identifier twice, no tile twice, every
    budget within its limits; and on the board when every unit is. *)
Definition Orderly (us : list Unit) : Prop :=
  NoDup (map u_id us) /\ NoDup (map tile us) /\ forall u, In u us -> budgetOk u.

Definition OnBoard (us : list Unit) : Prop :=
  forall u, In u us -> InBounds (u_x u) (u_y u).

(** [u'] is the unit [u] at a later time: same identifier, kind, side,
    movement allowance and hit points. *)
Definition SameUnit (u u' : Unit) : Prop :=
  u_id u' = u_id u /\ u_type u' = u_type u /\ u_player u' = u_player u /\
  u_maxMoves u' = u_maxMoves u /\ u_hp u' = u_hp u.

(** Every unit of [us'] is a unit of [us] at a later time. *)
Definition Descends (us us' : list Unit) : Prop :=
  forall u', In u' us' -> exists u, In u us /\ SameUnit u u'.

(** The ways the handlers of the play phase rewrite the list of units:
    some units are adjusted in place (facing, budget), some are removed,
    or the units of one identifier are moved to a free tile that
    [Allowed] accepts. *)
Inductive Evolves (Allowed : Z -> Z -> Prop) : list Unit -> list Unit -> Prop :=
| ev_refl us : Evolves Allowed us us
| ev_trans us1 us2 us3 :
    Evolves Allowed us1 us2 -> Evolves Allowed us2 us3 -> Evolves Allowed us1 us3
| ev_adjust us (c : Unit -> bool) (f : Unit -> Unit) :
    (forall u, SameUnit u (f u) /\ tile (f u) = tile u /\ (budgetOk u -> budgetOk (f u))) ->
    Evolves Allowed us (map (fun u => if c u then f u else u) us)
| ev_remove us (c : Unit -> bool) : Evolves Allowed us (filter c us)
| ev_move us (i : string) (x y : Z) (f : Unit -> Unit) :
    Allowed x y -> Unoccupied us x y ->
    (forall u, SameUnit u (f u) /\ tile (f u) = (x, y)) ->
    (forall u, In u us -> u_id u = i -> budgetOk u -> budgetOk (f u)) ->
    Evolves Allowed us (map (fun u => if String.eqb (u_id u) i then f u else u) us).

(** What the player can do in its turn, on the state of the game. *)
Inductive PlayerAction :=
| Click (x y : Z)
| Rotate (direction : Turning)
| Confirm
| Cancel
| EndTurn.

Definition perform (g : GameState) (a : PlayerAction) : GameState :=
  match a with
  | Click x y => handleGameInteraction x y g
  | Rotate direction => executeRotate direction g
  | Confirm => confirmPendingAttack g
  | Cancel => cancelPendingAttack g
  | EndTurn => endPlayerTurn g
  end.

(** A unit after a quarter turn ([hasRotated] is raised). *)
Definition turned (d : Turning) (u : Unit) : Unit :=
  set_rotation
    match d with
    | turn_left => Direction_of_num ((Direction_num (u_rotation u) + 3) mod 4)
    | turn_right => Direction_of_num ((Direction_num (u_rotation u) + 1) mod 4)
    end true u.

Definition counterTurn (d : Turning) : Turning :=
  match d with
  | turn_left => turn_right
  | turn_right => turn_left
  end.

(** The shuffle of the candidate moves only ever returns candidates. *)
Definition Faithful (shuffle : nat -> list AIAction -> list AIAction) : Prop :=
  forall k l a, In a (shuffle k l) -> In a l.

(** An action the planner may hand out for the position [g]: an attack by
    a computer unit on the tile of a player unit, or a move of a computer
    unit to a tile of the board; never a rotation. *)
Definition PlannedFor (g : GameState) (a : AIAction) : Prop :=
  (exists u, In u (units g) /\ u_player u = computer /\ a_unitId a = u_id u)
  /\ a_direction a = None
  /\ ((a_actionType a = act_attack /\
       exists e, In e (units g) /\ u_player e = player /\
                 a_target a = Some (mkCoordinate (u_x e) (u_y e)))
      \/ (a_actionType a = act_move /\
          exists x y, a_target a = Some (mkCoordinate x y) /\ InBounds x y)).

(** Every action chosen so far is one the planner may hand out. *)
Definition AllPlanned (g : GameState) (st : AiLogic.Planning) : Prop :=
  forall a, In a (AiLogic.actions st) -> PlannedFor g a.

(** A freshly deployed unit of [side], facing [r], with its full budget. *)
Definition FreshUnit (side : Player) (r : Direction) (u : Unit) : Prop :=
  u_player u = side /\ u_rotation u = r /\ u_movesLeft u = maxMovesFor (u_type u)
  /\ u_maxMoves u = maxMovesFor (u_type u) /\ u_attacksLeft u = 1 /\ u_hp u = 1.

(** The deployment zones: columns 3 to 5, rows 1 and 2 for the computer,
    rows 6 and 7 for the player.  [handleSetupPlacement] tests the
    columns and the lower row only; the upper row is the edge of the
    board, which the tiles offered for a click do not pass. *)
Definition InComputerZone (x y : Z) : Prop := 3 <= x <= 5 /\ 1 <= y <= 2.

Definition InPlayerZone (x y : Z) : Prop := 3 <= x <= 5 /\ 6 <= y <= 7.

(** Clicks on tiles of the board. *)
Definition OnTiles (clicks : list (Z * Z * string)) : Prop :=
  forall c, In c clicks -> InBounds (fst (fst c)) (snd (fst c)).

Definition playerUnits (g : GameState) : list Unit :=
  filter (fun u => Player_eqb (u_player u) player) (units g).

(** The deployment is under way or just over: the roster left and the
    phase agree, the kinds placed so far and the roster left make up the
    army, every unit of the player stands fresh in its zone, and no two
    units share a tile. *)
Definition Deploying (s : AppState) : Prop :=
  ((turn (gameState s) = setup_placement /\ setupUnitsLeft s <> [])
   \/ (turn (gameState s) = setup_support /\ setupUnitsLeft s = []))
  /\ map u_type (playerUnits (gameState s)) ++ setupUnitsLeft s = INITIAL_ARMY_COMPOSITION
  /\ (forall u, In u (playerUnits (gameState s)) ->
        FreshUnit player NORTH u /\ InPlayerZone (u_x u) (u_y u))
  /\ NoDup (map tile (units (gameState s))).

(** A run of clicks on tiles, each with the identifier drawn for it. *)
Definition clickAll (clicks : list (Z * Z * string)) (s : AppState) : AppState :=
  fold_left (fun s c => handleTileClick (fst (fst c)) (snd (fst c)) (snd c) s) clicks s.

(** The planner's worth of a unit, and lists in order of decreasing worth. *)
Definition worth (u : Unit) : Z := AiLogic.UNIT_VALUES (u_type u).

Definition ByDecreasingWorth (l : list Unit) : Prop :=
  StronglySorted (fun a b => worth b <= worth a) l.

Definition ofWorth (v : Z) (l : list Unit) : list Unit :=
  filter (fun u => worth u =? v) l.

End Spec.

Export Spec.

(** ** Concrete positions used to exercise the rules *)

Module Scenarios.

(** A unit with the standing values of a deployed piece. *)
Definition piece (i : string) (t : UnitType) (p : Player) (x y : Z) (r : Direction)
    (moves attacks : Z) : Unit :=
  mkUnit i t p x y r moves attacks false (maxMovesFor t) 1.

Definition playerLines : list SupportLine :=
  [mkSupportLine (Some player) row 5; mkSupportLine (Some player) col 4;
   mkSupportLine (Some player) row 6].

Definition board (us : list Unit) (t : Turn) (pa : option PendingAttack) : GameState :=
  mkGameState GRID_SIZE medium us playerLines (AiLogic.getComputerSupportPlacement 0)
    t None None [] None pa false.

(** The player has moved its infantry (no move left); the computer's
    infantry holds its full budget. *)
Definition movedInfantry : Unit := piece "p1" INFANTRY player 4 5 NORTH 0 1.

Definition idleEnemy : Unit := piece "c1" INFANTRY computer 4 2 SOUTH 1 1.

Definition afterPlayerMove : GameState :=
  board [movedInfantry; idleEnemy] (turn_of player) None.

(** The computer's infantry on its back row, the player's last unit, an
    archer, on the opposite edge; the computer is about to act. *)
Definition raider : Unit := piece "c1" INFANTRY computer 4 1 SOUTH 1 1.

Definition lastArcher : Unit := piece "p1" ARCHER player 4 7 NORTH 1 1.

Definition beforeRaid : GameState :=
  board [raider; lastArcher] (turn_of computer) None.

(** A plan that crosses the board in one move, turns with no move left
    and strikes a unit standing to its side. *)
Definition raidMove : AIAction := mkAIAction "c1" act_move (Some (mkCoordinate 4 6)) None.

Definition raidRotate : AIAction := mkAIAction "c1" act_rotate None (Some EAST).

Definition raidAttack : AIAction := mkAIAction "c1" act_attack (Some (mkCoordinate 4 7)) None.

Definition raidPlan : list AIAction :=
  [raidMove; raidRotate; raidAttack; mkAIAction "global" act_end_turn None None].

Definition raiderArrived : Unit := piece "c1" INFANTRY computer 4 6 SOUTH 0 1.

Definition raiderTurned : Unit := piece "c1" INFANTRY computer 4 6 EAST 0 1.

(** A computer unit standing on column 3, which the first choice of
    support lines covers. *)
Definition columnGuard : Unit := piece "c2" INFANTRY computer 3 2 SOUTH 1 1.

(** The player's infantry faces the computer's last unit, an archer, and
    has staged an attack on it. *)
Definition spearman : Unit := piece "p1" INFANTRY player 4 5 NORTH 1 1.

Definition cornered : Unit := piece "c1" ARCHER computer 4 4 SOUTH 1 1.

Definition stagedAttack : GameState :=
  board [spearman; cornered] (turn_of player)
    (Some (mkPendingAttack "c1" ["p1"%string])).

Definition stagedApp : AppState :=
  mkAppState stagedAttack [] false None.

Definition raidApp : AppState :=
  mkAppState beforeRaid [] false (Some raidPlan).

(** The computer's infantry stands in front of the player's last unit,
    with a second infantry in reserve; the plan is the one the planner
    returns when the shuffle reverses the candidates. *)
Definition vanguard : Unit := piece "c1" INFANTRY computer 4 6 SOUTH 1 1.

Definition reserve : Unit := piece "c3" INFANTRY computer 2 2 SOUTH 1 1.

Definition lastStand : GameState :=
  board [vanguard; reserve; lastArcher] (turn_of computer) None.

Definition lastStandAttack : AIAction :=
  mkAIAction "c1" act_attack (Some (mkCoordinate 4 7)) None.

Definition lastStandMove : AIAction :=
  mkAIAction "c3" act_move (Some (mkCoordinate 2 3)) None.

Definition lastStandPlan : list AIAction :=
  [lastStandAttack; lastStandMove; mkAIAction "global" act_end_turn None None].

Definition lastStandApp : AppState :=
  mkAppState lastStand [] false (Some lastStandPlan).

(** An archer two tiles in front of its target, nothing in between. *)
Definition bowman : Unit := piece "c3" ARCHER computer 4 2 SOUTH 1 1.

Definition distantTarget : Unit := piece "p2" INFANTRY player 4 4 NORTH 1 1.

(** A pincer: two infantry flank the player's cavalry on row 3, an archer
    stands right behind the cavalry and a second archer covers the
    player's infantry from the diagonal. *)
Definition pincerLines : list SupportLine :=
  [mkSupportLine (Some player) row 3; mkSupportLine (Some player) row 6;
   mkSupportLine (Some player) row 7].

Definition rearArcher : Unit := piece "c3" ARCHER computer 4 2 SOUTH 1 1.

Definition coveredInfantry : Unit := piece "p2" INFANTRY player 4 4 NORTH 1 1.

Definition pincer : GameState :=
  mkGameState GRID_SIZE hard
    [piece "p1" CAVALRY player 4 3 NORTH 2 1;
     coveredInfantry;
     piece "c1" INFANTRY computer 5 3 WEST 1 1;
     piece "c2" INFANTRY computer 3 3 EAST 1 1;
     rearArcher;
     piece "c4" ARCHER computer 5 5 WEST 1 1]
    pincerLines (AiLogic.getComputerSupportPlacement 0)
    (turn_of computer) None None [] None None false.

Definition strike (i : string) (x y : Z) : AIAction :=
  mkAIAction i act_attack (Some (mkCoordinate x y)) None.

(** Positions of the specification's worked examples. *)
Definition lancer (moves : Z) : Unit := piece "p3" CAVALRY player 4 5 NORTH moves 1.

Definition footman : Unit := piece "c5" INFANTRY computer 4 4 SOUTH 1 1.

Definition farInfantry : Unit := piece "p4" INFANTRY player 4 6 NORTH 1 1.

Definition farArcher : Unit := piece "c6" ARCHER computer 4 4 SOUTH 1 1.

(** The player's turn with one infantry selected. *)
Definition playerToMove : AppState :=
  mkAppState
    (mkGameState GRID_SIZE medium [farInfantry; farArcher] playerLines
       (AiLogic.getComputerSupportPlacement 0) (turn_of player) None
       (Some "p4"%string) [] None None false)
    [] false None.

(** The state on start-up, once the computer has deployed on its zone in
    loop order and chosen its first option of support lines. *)
Definition startUp : AppState :=
  with_gameState (initialComputerSetup (fun k => String (ascii_of_nat (97 + k)) "") computerZone 0)
    initialAppState.

End Scenarios.

(** * Properties *)

(** ** Reflection of the equality tests *)

Lemma Player_eqb_eq (a b : Player) : Player_eqb a b = true <-> a = b.
Proof. destruct a, b; simpl; split; congruence. Qed.

Lemma Player_eqb_neq (a b : Player) : Player_eqb a b = false <-> a <> b.
Proof. destruct a, b; simpl; split; congruence. Qed.

Lemma UnitType_eqb_eq (a b : UnitType) : UnitType_eqb a b = true <-> a = b.
Proof. destruct a, b; simpl; split; congruence. Qed.

Lemma UnitType_eqb_neq (a b : UnitType) : UnitType_eqb a b = false <-> a <> b.
Proof. destruct a, b; simpl; split; congruence. Qed.

Lemma LineType_eqb_eq (a b : LineType) : LineType_eqb a b = true <-> a = b.
Proof. destruct a, b; simpl; split; congruence. Qed.

Lemma owner_eqb_eq (o : option Player) (p : Player) : owner_eqb o p = true <-> o = Some p.
Proof.
  destruct o as [q|]; simpl.
  - rewrite Player_eqb_eq. split; congruence.
  - split; congruence.
Qed.

(** Turns every boolean test on integers in the context and the goal into
    the proposition it decides. *)
Ltac zify_tests :=
  repeat match goal with
  | H : (_ && _) = true |- _ => apply andb_true_iff in H; destruct H
  | H : (_ || _) = false |- _ => apply orb_false_iff in H; destruct H
  | H : (_ =? _) = true |- _ => apply Z.eqb_eq in H
  | H : (_ =? _) = false |- _ => apply Z.eqb_neq in H
  | H : (_ <? _) = true |- _ => apply Z.ltb_lt in H
  | H : (_ <? _) = false |- _ => apply Z.ltb_ge in H
  | H : (_ <=? _) = true |- _ => apply Z.leb_le in H
  | H : (_ <=? _) = false |- _ => apply Z.leb_gt in H
  | H : (_ >? _) = true |- _ => rewrite Z.gtb_ltb in H
  | H : (_ >? _) = false |- _ => rewrite Z.gtb_ltb in H
  | H : (_ >=? _) = true |- _ => rewrite Z.geb_leb in H
  | H : (_ >=? _) = false |- _ => rewrite Z.geb_leb in H
  | H : UnitType_eqb _ _ = true |- _ => apply UnitType_eqb_eq in H
  | H : UnitType_eqb _ _ = false |- _ => apply UnitType_eqb_neq in H
  | H : Player_eqb _ _ = true |- _ => apply Player_eqb_eq in H
  | H : Player_eqb _ _ = false |- _ => apply Player_eqb_neq in H
  end.

(** ** Board queries *)

Section BoardQuery.

Lemma getUnitAt_None (us : list Unit) (x y : Z) :
  getUnitAt us x y = None <-> Unoccupied us x y.
Proof.
  unfold getUnitAt, Unoccupied. split.
  - intros H u Hin [Hx Hy].
    pose proof (find_none _ _ H u Hin) as Hf. simpl in Hf.
    subst. rewrite !Z.eqb_refl in Hf. discriminate.
  - intros H. destruct (find _ us) as [u|] eqn:Hf; [|reflexivity].
    apply find_some in Hf. destruct Hf as [Hin Ht].
    zify_tests. exfalso. apply (H u Hin). split; assumption.
Qed.

Lemma getUnitAt_Some (us : list Unit) (x y : Z) (u : Unit) :
  getUnitAt us x y = Some u -> In u us /\ u_x u = x /\ u_y u = y.
Proof.
  unfold getUnitAt. intros Hf. apply find_some in Hf.
  destruct Hf as [Hin Ht]. zify_tests. auto.
Qed.

End BoardQuery.

(** ** Support lines and strength *)

Section Strength.

Lemma supportStep_onLine (unit : Unit) (strength : Z) (sl : SupportLine) :
  supportStep unit strength sl = strength + (if onLine unit sl then 1 else 0).
Proof.
  unfold supportStep, onLine.
  destruct (sl_type sl); simpl;
    destruct (sl_index sl =? u_y unit), (sl_index sl =? u_x unit); lia.
Qed.

Lemma fold_supportStep (unit : Unit) (l : list SupportLine) (acc : Z) :
  fold_left (supportStep unit) l acc
  = acc + Z.of_nat (List.length (filter (onLine unit) l)).
Proof.
  revert acc. induction l as [|sl l IH]; intros acc; simpl.
  - lia.
  - rewrite IH, supportStep_onLine.
    destruct (onLine unit sl); simpl List.length; lia.
Qed.

Lemma filter_filter {A : Type} (f g : A -> bool) (l : list A) :
  filter g (filter f l) = filter (fun a => f a && g a) l.
Proof.
  induction l as [|a l IH]; simpl; [reflexivity|].
  destruct (f a); simpl; [destruct (g a); simpl; congruence | assumption].
Qed.

Lemma calculateBaseStrength_count (unit : Unit) (lines : list SupportLine) :
  calculateBaseStrength unit lines
  = 1 + Z.of_nat (List.length (filter (supports unit) lines)).
Proof.
  unfold calculateBaseStrength. rewrite fold_supportStep, filter_filter.
  reflexivity.
Qed.

(** C8. The strength of a unit is 1 plus the number of support lines of
    its own side that run along its row or its column; where one own row
    line and one own column line cross on its tile, the strength is 3. *)
Theorem calculateBaseStrength_spec (unit : Unit) (lines : list SupportLine) :
  calculateBaseStrength unit lines
    = 1 + Z.of_nat (List.length (filter (supports unit) lines))
  /\ calculateBaseStrength unit
       [mkSupportLine (Some (u_player unit)) row (u_y unit);
        mkSupportLine (Some (u_player unit)) col (u_x unit)] = 3
  /\ (forall sl, supports unit sl = true <->
        sl_player sl = Some (u_player unit) /\
        (sl_type sl = row /\ sl_index sl = u_y unit \/
         sl_type sl = col /\ sl_index sl = u_x unit)).
Proof.
  split; [apply calculateBaseStrength_count|]. split.
  - rewrite calculateBaseStrength_count. unfold supports, onLine; simpl.
    assert (Ho : owner_eqb (Some (u_player unit)) (u_player unit) = true)
      by (apply owner_eqb_eq; reflexivity).
    simpl in Ho. rewrite Ho, !Z.eqb_refl. reflexivity.
  - intros sl. unfold supports, onLine.
    rewrite andb_true_iff, owner_eqb_eq.
    destruct (sl_type sl); rewrite Z.eqb_eq; split.
    + intros [Ho Hi]. split; [assumption|]. left; auto.
    + intros [Ho [[_ Hi]|[Hc _]]]; [auto | discriminate].
    + intros [Ho Hi]. split; [assumption|]. right; auto.
    + intros [Ho [[Hc _]|[_ Hi]]]; [discriminate | auto].
Qed.

End Strength.

(** ** Support-line placement *)

Section SupportPlacement.

Lemma noDuplicateLine_false (supports : list SupportLine) (newSupport : SupportLine) :
  noDuplicateLine supports newSupport = false <->
  exists s, In s supports /\ sl_type s = sl_type newSupport
            /\ sl_index s = sl_index newSupport.
Proof.
  induction supports as [|s rest IH]; simpl.
  - split; [discriminate | intros [s [[] _]]].
  - destruct (LineType_eqb (sl_type s) (sl_type newSupport)
              && (sl_index s =? sl_index newSupport)) eqn:E.
    + split; [intros _ | reflexivity].
      apply andb_true_iff in E. destruct E as [Et Ei].
      apply LineType_eqb_eq in Et. apply Z.eqb_eq in Ei.
      exists s. auto.
    + rewrite IH. split.
      * intros [s' [Hin H]]. exists s'. auto.
      * intros [s' [[Heq|Hin] [Ht Hi]]].
        -- subst s'. exfalso.
           apply andb_false_iff in E. destruct E as [E|E].
           ++ apply (proj2 (LineType_eqb_eq _ _)) in Ht. congruence.
           ++ apply Z.eqb_neq in E. contradiction.
        -- exists s'. auto.
Qed.

(** C9. A candidate support line is rejected exactly when three lines are
    already held or a held line has the candidate's axis and index; a
    candidate next to a held line of the same axis is accepted while
    fewer than three lines are held and none is the candidate itself. *)
Theorem isValidSupportPlacement_spec (supports : list SupportLine) (newSupport : SupportLine) :
  (isValidSupportPlacement supports newSupport = false <->
     (3 <= List.length supports)%nat \/
     exists s, In s supports /\ sl_type s = sl_type newSupport
               /\ sl_index s = sl_index newSupport)
  /\ (forall s, In s supports -> sl_type s = sl_type newSupport ->
        Z.abs (sl_index s - sl_index newSupport) = 1 ->
        (List.length supports < 3)%nat ->
        (forall s', In s' supports -> sl_type s' = sl_type newSupport ->
                    sl_index s' <> sl_index newSupport) ->
        isValidSupportPlacement supports newSupport = true).
Proof.
  assert (Hiff : isValidSupportPlacement supports newSupport = false <->
     (3 <= List.length supports)%nat \/
     exists s, In s supports /\ sl_type s = sl_type newSupport
               /\ sl_index s = sl_index newSupport).
  { unfold isValidSupportPlacement.
    destruct (Z.of_nat (List.length supports) >=? 3) eqn:E; zify_tests.
    - split; [intros _; left; lia | reflexivity].
    - rewrite noDuplicateLine_false. split; [auto | intros [H|H]; [lia | exact H]]. }
  split; [exact Hiff|].
  intros s Hin Ht Hadj Hlen Hnodup.
  destruct (isValidSupportPlacement supports newSupport) eqn:E; [reflexivity|].
  destruct (proj1 Hiff eq_refl) as [E'|[s' [Hin' [Ht' Hi']]]]; [lia|].
  exfalso. exact (Hnodup s' Hin' Ht' Hi').
Qed.

(** A row line on index 4 is accepted next to a held row line on index 3. *)
Lemma isValidSupportPlacement_spec_witness :
  isValidSupportPlacement [mkSupportLine (Some player) row 3]
    (mkSupportLine (Some player) row 4) = true.
Proof.
  apply (proj2 (isValidSupportPlacement_spec [mkSupportLine (Some player) row 3]
                  (mkSupportLine (Some player) row 4))
           (mkSupportLine (Some player) row 3)).
  - simpl. left. reflexivity.
  - reflexivity.
  - reflexivity.
  - simpl. lia.
  - intros s' [Hs|[]] _. subst s'. simpl. lia.
Defined.

End SupportPlacement.

(** ** Movement *)

Section Movement.

Lemma vector_cases (d : Direction) :
  let f := getVectorForRotation d in
  (c_x f = 0 /\ c_y f = -1) \/ (c_x f = 1 /\ c_y f = 0) \/
  (c_x f = 0 /\ c_y f = 1) \/ (c_x f = -1 /\ c_y f = 0).
Proof. destruct d; simpl; auto. Qed.

(** C6. A move is valid exactly when the target is on the board, free, and
    either one tile away or the end of a cavalry charge; every other
    target more than one tile away is rejected. *)
Theorem isValidMove_spec (unit : Unit) (tx ty : Z) (us : list Unit) :
  isValidMove unit tx ty us = true <->
  InBounds tx ty /\ Unoccupied us tx ty /\
  (manhattan unit tx ty = 1 \/ Charge unit tx ty us).
Proof.
  unfold isValidMove, InBounds, Charge, manhattan, GRID_SIZE.
  pose proof (vector_cases (u_rotation unit)) as Hv. cbv zeta in Hv.
  destruct ((tx <? 1) || (tx >? 7) || (ty <? 1) || (ty >? 7)) eqn:Eb.
  { split; [discriminate|]. intros [[Hx Hy] _]. exfalso.
    repeat (apply orb_true_iff in Eb; destruct Eb as [Eb|Eb]);
      zify_tests; lia. }
  zify_tests.
  destruct (getUnitAt us tx ty) as [o|] eqn:Eo.
  { split; [discriminate|]. intros [_ [Hfree _]]. exfalso.
    apply getUnitAt_None in Hfree. congruence. }
  apply getUnitAt_None in Eo.
  destruct (Z.abs (tx - u_x unit) + Z.abs (ty - u_y unit) =? 1) eqn:E1; zify_tests.
  { split; [intros _|reflexivity]. repeat split; try lia; auto. }
  destruct (UnitType_eqb (u_type unit) CAVALRY && (u_movesLeft unit >=? 2)
            && (Z.abs (tx - u_x unit) + Z.abs (ty - u_y unit) =? 2)) eqn:Ec.
  - zify_tests.
    destruct ((tx - u_x unit =? c_x (getVectorForRotation (u_rotation unit)) * 2)
              && (ty - u_y unit =? c_y (getVectorForRotation (u_rotation unit)) * 2)) eqn:Ed.
    + zify_tests.
      destruct (getUnitAt us _ _) as [m|] eqn:Em.
      * split; [discriminate|]. intros [_ [_ [Hq|Hq]]]; [lia|].
        destruct Hq as (_ & _ & _ & _ & Hfree).
        apply getUnitAt_None in Hfree. congruence.
      * apply getUnitAt_None in Em. split; [intros _|reflexivity].
        repeat split; try lia; auto. right. repeat split; try lia; auto.
    + split; [discriminate|]. intros [_ [_ [Hq|Hq]]]; [lia|].
      destruct Hq as (_ & _ & Hx & Hy & _). exfalso.
      apply andb_false_iff in Ed. destruct Ed as [Ed|Ed]; zify_tests; lia.
  - split; [discriminate|]. intros [_ [_ [Hq|Hq]]]; [lia|].
    destruct Hq as (Ht & Hm & Hx & Hy & _). exfalso.
    apply andb_false_iff in Ec. destruct Ec as [Ec|Ec].
    + apply andb_false_iff in Ec. destruct Ec as [Ec|Ec]; zify_tests;
        [contradiction | lia].
    + zify_tests. lia.
Qed.

End Movement.

(** ** Attack legality *)

Section AttackLegality.

Lemma isAdjacentToAnyEnemy_Engaged (attacker : Unit) (us : list Unit) :
  isAdjacentToAnyEnemy attacker us = true <-> Engaged attacker us.
Proof.
  unfold isAdjacentToAnyEnemy, Engaged, manhattan. rewrite existsb_exists.
  split; intros [e [Hin H]]; exists e; (split; [exact Hin|]).
  - apply andb_true_iff in H. destruct H as [Hp Hd].
    apply negb_true_iff in Hp. zify_tests. auto.
  - destruct H as [Hp Hd]. apply andb_true_iff. split.
    + apply negb_true_iff. apply Player_eqb_neq. exact Hp.
    + apply Z.eqb_eq. exact Hd.
Qed.

Lemma half_unique (s m : Z) : 2 * m = s -> s / 2 = m.
Proof. intros <-. rewrite Z.mul_comm. apply Z.div_mul. lia. Qed.

(** The archer's part of [canAttack], once the three gates are passed. *)
Lemma archer_range (attacker defender : Unit) (us : list Unit) :
  let dx := Z.abs (u_x defender - u_x attacker) in
  let dy := Z.abs (u_y defender - u_y attacker) in
  let isLinearGap := ((dx =? 2) && (dy =? 0)) || ((dx =? 0) && (dy =? 2)) in
  (if ((dx =? 1) && (dy =? 1)) || isLinearGap then
     if isLinearGap then
       match getUnitAt us ((u_x attacker + u_x defender) / 2)
                          ((u_y attacker + u_y defender) / 2) with
       | Some _ => false
       | None => true
       end
     else true
   else false) = true <->
  (Diagonal attacker defender \/
   (LinearGap attacker defender /\
    exists mx my, Between attacker defender mx my /\ Unoccupied us mx my)).
Proof.
  cbv zeta. unfold Diagonal, LinearGap, Between.
  set (dx := Z.abs (u_x defender - u_x attacker)).
  set (dy := Z.abs (u_y defender - u_y attacker)).
  destruct (((dx =? 2) && (dy =? 0)) || ((dx =? 0) && (dy =? 2))) eqn:Eg.
  - rewrite orb_true_r.
    assert (Hgap : (dx = 2 /\ dy = 0) \/ (dx = 0 /\ dy = 2)).
    { apply orb_true_iff in Eg. destruct Eg as [Eg|Eg]; zify_tests; auto. }
    assert (Hmid : exists mx my,
               2 * mx = u_x attacker + u_x defender /\
               2 * my = u_y attacker + u_y defender).
    { subst dx dy. destruct Hgap as [[Hx Hy]|[Hx Hy]].
      - destruct (Z.abs_spec (u_x defender - u_x attacker)) as [[_ E]|[_ E]].
        + exists (u_x attacker + 1), (u_y attacker). lia.
        + exists (u_x attacker - 1), (u_y attacker). lia.
      - destruct (Z.abs_spec (u_y defender - u_y attacker)) as [[_ E]|[_ E]].
        + exists (u_x attacker), (u_y attacker + 1). lia.
        + exists (u_x attacker), (u_y attacker - 1). lia. }
    destruct Hmid as (mx & my & Hmx & Hmy).
    rewrite (half_unique _ _ Hmx), (half_unique _ _ Hmy).
    destruct (getUnitAt us mx my) as [o|] eqn:Eo.
    + split; [discriminate|]. intros [[Hx Hy]|[_ (mx' & my' & [Hx Hy] & Hfree)]].
      * exfalso. lia.
      * assert (mx' = mx) by lia. assert (my' = my) by lia. subst mx' my'.
        apply getUnitAt_None in Hfree. congruence.
    + split; [intros _|reflexivity]. right. split; [exact Hgap|].
      exists mx, my. apply getUnitAt_None in Eo. auto.
  - rewrite orb_false_r.
    assert (Hnogap : ~ ((dx = 2 /\ dy = 0) \/ (dx = 0 /\ dy = 2))).
    { apply orb_false_iff in Eg. destruct Eg as [E1 E2].
      apply andb_false_iff in E1. apply andb_false_iff in E2.
      intros [[Hx Hy]|[Hx Hy]].
      - destruct E1 as [E1|E1]; zify_tests; contradiction.
      - destruct E2 as [E2|E2]; zify_tests; contradiction. }
    destruct ((dx =? 1) && (dy =? 1)) eqn:Ed.
    + zify_tests. split; [intros _|reflexivity]. left. auto.
    + split; [discriminate|]. intros [[Hx Hy]|[Hgap _]].
      * apply andb_false_iff in Ed. destruct Ed as [Ed|Ed]; zify_tests; contradiction.
      * contradiction.
Qed.

(** C5. [canAttack] is false when the attacker has no attack left, when
    both units are of one side, or when the defender is not strictly in
    front of the attacker; past these gates a melee unit attacks exactly at
    Manhattan distance 1, and an archer exactly when it is not engaged and
    the defender is diagonally adjacent or two tiles away in a straight
    line with the tile in between free. *)
Theorem canAttack_spec (attacker defender : Unit) (us : list Unit) :
  (u_attacksLeft attacker <= 0 \/ u_player attacker = u_player defender \/
   facingDot attacker defender <= 0 ->
   canAttack attacker defender us = false)
  /\ (AttackGates attacker defender -> u_type attacker <> ARCHER ->
      (canAttack attacker defender us = true <->
       manhattan attacker (u_x defender) (u_y defender) = 1))
  /\ (AttackGates attacker defender -> u_type attacker = ARCHER ->
      (canAttack attacker defender us = true <->
       ~ Engaged attacker us /\
       (Diagonal attacker defender \/
        (LinearGap attacker defender /\
         exists mx my, Between attacker defender mx my /\ Unoccupied us mx my)))).
Proof.
  assert (Hgates : AttackGates attacker defender ->
            canAttack attacker defender us =
            if UnitType_eqb (u_type attacker) ARCHER then
              if isAdjacentToAnyEnemy attacker us then false else
              let dx := Z.abs (u_x defender - u_x attacker) in
              let dy := Z.abs (u_y defender - u_y attacker) in
              let isLinearGap := ((dx =? 2) && (dy =? 0)) || ((dx =? 0) && (dy =? 2)) in
              if ((dx =? 1) && (dy =? 1)) || isLinearGap then
                if isLinearGap then
                  match getUnitAt us ((u_x attacker + u_x defender) / 2)
                                     ((u_y attacker + u_y defender) / 2) with
                  | Some _ => false
                  | None => true
                  end
                else true
              else false
            else Z.abs (u_x defender - u_x attacker)
                 + Z.abs (u_y defender - u_y attacker) =? 1).
  { intros (Ha & Hp & Hd). unfold facingDot in Hd. cbv zeta in Hd.
    unfold canAttack.
    apply Z.leb_gt in Ha. apply Player_eqb_neq in Hp. apply Z.leb_gt in Hd.
    rewrite Ha, Hp, Hd. reflexivity. }
  split; [|split].
  - intros Hfail. unfold canAttack.
    destruct (u_attacksLeft attacker <=? 0) eqn:Ea; [reflexivity|].
    destruct (Player_eqb (u_player attacker) (u_player defender)) eqn:Ep; [reflexivity|].
    unfold facingDot in Hfail. cbv zeta in Hfail.
    destruct (_ * _ + _ * _ <=? 0) eqn:Ed; [reflexivity|].
    zify_tests. exfalso. destruct Hfail as [Hf|[Hf|Hf]]; [lia | contradiction | lia].
  - intros Hg Hmelee. rewrite (Hgates Hg).
    apply UnitType_eqb_neq in Hmelee. rewrite Hmelee.
    unfold manhattan. apply Z.eqb_eq.
  - intros Hg Harcher. rewrite (Hgates Hg).
    apply UnitType_eqb_eq in Harcher. rewrite Harcher.
    destruct (isAdjacentToAnyEnemy attacker us) eqn:Ee.
    + split; [discriminate|]. intros [Hne _]. exfalso. apply Hne.
      apply isAdjacentToAnyEnemy_Engaged. exact Ee.
    + rewrite (archer_range attacker defender us). split.
      * intros Hr. split; [|exact Hr]. intros Heng.
        apply isAdjacentToAnyEnemy_Engaged in Heng. congruence.
      * intros [_ Hr]. exact Hr.
Qed.

End AttackLegality.

(** ** Combat resolution *)

Section Combat.

Lemma getFlankBonus_cases (attacker defender : Unit) :
  (getFlankBonus attacker defender = 0 <->
     u_type attacker = ARCHER \/ Frontal attacker defender)
  /\ (getFlankBonus attacker defender = 1 <->
     ~ (u_type attacker = ARCHER \/ Frontal attacker defender)).
Proof.
  unfold getFlankBonus, Frontal. cbv zeta.
  destruct (UnitType_eqb (u_type attacker) ARCHER) eqn:Et; zify_tests.
  - split; split; intros Hq; try reflexivity; auto; try discriminate.
    exfalso. apply Hq. auto.
  - destruct ((_ =? _) && (_ =? _)) eqn:Ef.
    + zify_tests. split; split; intros Hq; try reflexivity; auto; try discriminate.
      exfalso. apply Hq. auto.
    + assert (Hnf : ~ (u_x attacker - u_x defender
                         = c_x (getVectorForRotation (u_rotation defender)) /\
                       u_y attacker - u_y defender
                         = c_y (getVectorForRotation (u_rotation defender)))).
      { intros [Hx Hy]. apply andb_false_iff in Ef.
        destruct Ef as [Ef|Ef]; zify_tests; contradiction. }
      split; split; intros Hq; try reflexivity; try discriminate.
      * destruct Hq as [Hq|Hq]; contradiction.
      * intros [Hq'|Hq']; contradiction.
Qed.

Lemma chargeBonus_cases (attacker : Unit) :
  (chargeBonus attacker = 1 <-> u_type attacker = CAVALRY /\ 0 < u_movesLeft attacker)
  /\ (chargeBonus attacker = 0 <->
      ~ (u_type attacker = CAVALRY /\ 0 < u_movesLeft attacker)).
Proof.
  unfold chargeBonus.
  destruct (u_type attacker); try (split; split; [discriminate | intros [? _]; discriminate
                                                  | intros _ [? _]; discriminate | reflexivity]).
  destruct (0 <? u_movesLeft attacker) eqn:E; zify_tests.
  - split; split; intros Hq; try reflexivity; auto; try discriminate.
    exfalso. apply Hq. auto.
  - split; split; intros Hq; try reflexivity; try discriminate.
    + destruct Hq as [_ Hq]. lia.
    + intros [_ Hq']. lia.
Qed.

Lemma attackerStrength_total (atk defender : Unit) (attackerSupport : list SupportLine) :
  fst (attackerStrength atk defender attackerSupport)
  = calculateBaseStrength atk attackerSupport + getFlankBonus atk defender + chargeBonus atk.
Proof.
  unfold attackerStrength, chargeBonus.
  assert (Hf : getFlankBonus atk defender = 0 \/ getFlankBonus atk defender = 1).
  { unfold getFlankBonus. destruct (UnitType_eqb _ _); [auto|].
    cbv zeta. destruct (_ && _); auto. }
  rewrite Z.gtb_ltb.
  destruct (0 <? getFlankBonus atk defender) eqn:E; zify_tests;
    destruct (u_type atk); simpl; try lia;
    rewrite Z.gtb_ltb; destruct (0 <? u_movesLeft atk); simpl; lia.
Qed.

Lemma fold_attackStep (defender : Unit) (attackerSupport : list SupportLine)
    (attackers : list Unit) (total : Z) (parts : list string) :
  fst (fold_left (attackStep defender attackerSupport) attackers (total, parts))
  = total + sumZ (map (fun a => calculateBaseStrength a attackerSupport
                                + getFlankBonus a defender + chargeBonus a) attackers).
Proof.
  revert total parts. induction attackers as [|a rest IH]; intros total parts; simpl.
  - lia.
  - pose proof (attackerStrength_total a defender attackerSupport) as Ha.
    destruct (attackerStrength a defender attackerSupport) as [st dt].
    simpl in Ha. rewrite IH, Ha. lia.
Qed.

Lemma anyMelee_HasMelee (attackers : list Unit) :
  anyMelee attackers = true <-> HasMelee attackers.
Proof.
  unfold anyMelee, HasMelee. rewrite existsb_exists.
  split; intros [a [Hin H]]; exists a; (split; [exact Hin|]).
  - apply negb_true_iff in H. apply UnitType_eqb_neq. exact H.
  - apply negb_true_iff. apply UnitType_eqb_neq. exact H.
Qed.

(** The result record of [resolveCombat] without its log. *)
Lemma resolveCombat_result (attackers : list Unit) (defender : Unit)
    (attackerSupport defenderSupport : list SupportLine) :
  let r := resolveCombat attackers defender attackerSupport defenderSupport in
  let atkTotal := atkTotalOf attackers defender attackerSupport in
  let defTotal := calculateBaseStrength defender defenderSupport in
  r_atkTotal r = atkTotal /\
  (r_winner r, r_defTotal r) =
    if UnitType_eqb (u_type defender) ARCHER && anyMelee attackers
    then (win_attacker, 0)
    else if atkTotal >? defTotal then (win_attacker, defTotal)
    else if defTotal >? atkTotal
    then (if anyMelee attackers then win_defender else win_tie, defTotal)
    else (win_tie, defTotal).
Proof.
  cbv zeta. unfold resolveCombat, atkTotalOf, anyMelee.
  destruct (fold_left _ attackers (0, [])) as [t parts]. simpl fst.
  destruct (UnitType_eqb (u_type defender) ARCHER && _); [auto|].
  destruct (t >? _); [auto|].
  destruct (_ >? t); [|auto].
  destruct (existsb _ attackers); auto.
Qed.

(** C7. The attackers' total is the sum, over the attackers, of base
    strength, flank bonus and charge bonus; the flank bonus is 0 for an
    archer or a frontal attack and 1 otherwise; the charge bonus is 1
    exactly for cavalry with movement left. *)
Theorem resolveCombat_atkTotal (attackers : list Unit) (defender : Unit)
    (attackerSupport defenderSupport : list SupportLine) :
  r_atkTotal (resolveCombat attackers defender attackerSupport defenderSupport)
    = sumZ (map (fun a => calculateBaseStrength a attackerSupport
                          + getFlankBonus a defender + chargeBonus a) attackers)
  /\ (forall a, getFlankBonus a defender = 0 <->
                u_type a = ARCHER \/ Frontal a defender)
  /\ (forall a, getFlankBonus a defender = 1 <->
                ~ (u_type a = ARCHER \/ Frontal a defender))
  /\ (forall a, chargeBonus a = 1 <-> u_type a = CAVALRY /\ 0 < u_movesLeft a)
  /\ (forall a, chargeBonus a = 0 <-> ~ (u_type a = CAVALRY /\ 0 < u_movesLeft a)).
Proof.
  split.
  - destruct (resolveCombat_result attackers defender attackerSupport defenderSupport)
      as [Ht _].
    rewrite Ht. unfold atkTotalOf. rewrite fold_attackStep. lia.
  - repeat split; intros; try apply getFlankBonus_cases; try apply chargeBonus_cases;
      assumption.
Qed.

End Combat.

(** ** Combat outcome and removal of the losers *)

Section CombatOutcome.

Lemma units_checkWinCondition (g : GameState) :
  units (checkWinCondition g) = units g.
Proof.
  unfold checkWinCondition.
  destruct (isEmpty _); [reflexivity|]. destruct (isEmpty _); reflexivity.
Qed.

Lemma isEmpty_false {A : Type} (l : list A) : l <> [] -> isEmpty l = false.
Proof. destruct l; [congruence | reflexivity]. Qed.

Lemma includes_In (ids : list string) (i : string) :
  includes ids i = true <-> In i ids.
Proof.
  unfold includes. rewrite existsb_exists. split.
  - intros [j [Hin Hj]]. apply String.eqb_eq in Hj. subst. exact Hin.
  - intros Hin. exists i. split; [exact Hin | apply String.eqb_refl].
Qed.

(** The units after [executeMultiAttack], when the attackers and the
    defender are still on the board. *)
Lemma executeMultiAttack_units (attackers : list Unit) (defender : Unit) (g : GameState)
    (curDefender : Unit) :
  let curAttackers := filter (fun u => includes (map u_id attackers) (u_id u)) (units g) in
  findById (units g) (u_id defender) = Some curDefender ->
  curAttackers <> [] ->
  let spent := map (fun u =>
      if existsb (fun atk => String.eqb (u_id atk) (u_id u)) curAttackers
      then set_budget (Z.max 0 (u_movesLeft u)) 0 (u_hasRotated u) u
      else u) (units g) in
  units (executeMultiAttack attackers defender g) =
    match r_winner (resolveCombat curAttackers curDefender
                      (playerSupport g) (computerSupport g)) with
    | win_attacker => filter (fun u => negb (String.eqb (u_id u) (u_id curDefender))) spent
    | win_defender =>
      filter (fun u => negb (includes (map u_id curAttackers) (u_id u))) spent
    | win_tie => spent
    end.
Proof.
  intros curAttackers Hdef Hatk spent.
  unfold executeMultiAttack. rewrite units_checkWinCondition.
  unfold resolveMultiAttack. simpl units. simpl playerSupport. simpl computerSupport.
  fold curAttackers. rewrite (isEmpty_false _ Hatk), Hdef.
  simpl units. reflexivity.
Qed.

Lemma spent_ids (curAttackers us : list Unit) :
  map u_id (map (fun u =>
      if existsb (fun atk => String.eqb (u_id atk) (u_id u)) curAttackers
      then set_budget (Z.max 0 (u_movesLeft u)) 0 (u_hasRotated u) u
      else u) us) = map u_id us.
Proof.
  rewrite map_map. apply map_ext. intros u.
  destruct (existsb _ curAttackers); reflexivity.
Qed.

(** C2. Outcome of a combat and who is taken off the board: an archer
    defender with a non-archer among the attackers loses at once with its
    total reported as 0; otherwise the larger total wins, a repelled group
    with a non-archer is removed whole, and a repelled all-archer group or
    equal totals remove nobody. *)
Theorem resolveCombat_outcome (attackers : list Unit) (defender : Unit) (g : GameState)
    (curDefender : Unit) :
  let curAttackers := filter (fun u => includes (map u_id attackers) (u_id u)) (units g) in
  findById (units g) (u_id defender) = Some curDefender ->
  curAttackers <> [] ->
  let r := resolveCombat curAttackers curDefender (playerSupport g) (computerSupport g) in
  let atkTotal := r_atkTotal r in
  let defTotal := calculateBaseStrength curDefender (computerSupport g) in
  let after := units (executeMultiAttack attackers defender g) in
  (u_type curDefender = ARCHER -> HasMelee curAttackers ->
     r_winner r = win_attacker /\ r_defTotal r = 0 /\ Removed (u_id curDefender) after)
  /\ (~ (u_type curDefender = ARCHER /\ HasMelee curAttackers) ->
      r_defTotal r = defTotal
      /\ (atkTotal > defTotal ->
          r_winner r = win_attacker /\ Removed (u_id curDefender) after)
      /\ (defTotal > atkTotal -> HasMelee curAttackers ->
          r_winner r = win_defender /\
          forall a, In a curAttackers -> Removed (u_id a) after)
      /\ ((defTotal > atkTotal /\ ~ HasMelee curAttackers) \/ atkTotal = defTotal ->
          r_winner r = win_tie /\ map u_id after = map u_id (units g))).
Proof.
  intros curAttackers Hdef Hatk r atkTotal defTotal after.
  pose proof (executeMultiAttack_units attackers defender g curDefender Hdef Hatk) as Hu.
  cbv zeta in Hu. fold curAttackers in Hu. fold r in Hu. fold after in Hu.
  destruct (resolveCombat_result curAttackers curDefender
              (playerSupport g) (computerSupport g)) as [Ht Hr].
  fold r in Ht, Hr. fold atkTotal in Ht. rewrite <- Ht in Hr. fold defTotal in Hr.
  assert (Hrem_def : r_winner r = win_attacker -> Removed (u_id curDefender) after).
  { intros Hw. rewrite Hw in Hu. rewrite Hu. intros u Hin.
    apply filter_In in Hin. destruct Hin as [_ Hne].
    apply negb_true_iff in Hne. apply String.eqb_neq in Hne. exact Hne. }
  split.
  - intros Harcher Hmelee.
    apply UnitType_eqb_eq in Harcher. apply anyMelee_HasMelee in Hmelee.
    rewrite Harcher, Hmelee in Hr. simpl in Hr. inversion Hr as [[Hw Hd]].
    repeat split; auto.
  - intros Hnot.
    assert (Hs : UnitType_eqb (u_type curDefender) ARCHER && anyMelee curAttackers = false).
    { destruct (UnitType_eqb _ _ && _) eqn:E; [|reflexivity].
      exfalso. apply Hnot. apply andb_true_iff in E. destruct E as [E1 E2].
      apply UnitType_eqb_eq in E1. apply anyMelee_HasMelee in E2. auto. }
    rewrite Hs in Hr.
    split; [|split; [|split]].
    + destruct (atkTotal >? defTotal); [inversion Hr; reflexivity|].
      destruct (defTotal >? atkTotal); inversion Hr; reflexivity.
    + intros Hgt. apply Z.gt_lt in Hgt. apply Z.gtb_lt in Hgt.
      rewrite Hgt in Hr. inversion Hr as [[Hw Hd]]. auto.
    + intros Hgt Hmelee.
      assert (Hn : (atkTotal >? defTotal) = false) by (rewrite Z.gtb_ltb; apply Z.ltb_ge; lia).
      apply Z.gt_lt in Hgt. apply Z.gtb_lt in Hgt. apply anyMelee_HasMelee in Hmelee.
      rewrite Hn, Hgt, Hmelee in Hr. inversion Hr as [[Hw Hd]].
      split; [reflexivity|]. intros a Hin u Hu'.
      rewrite Hu, Hw in Hu'. apply filter_In in Hu'. destruct Hu' as [_ Hne].
      apply negb_true_iff in Hne. intros Heq. rewrite Heq in Hne.
      assert (Hinc : includes (map u_id curAttackers) (u_id a) = true)
        by (apply includes_In; apply in_map; exact Hin).
      congruence.
    + intros Hcase.
      assert (Hw : r_winner r = win_tie).
      { destruct Hcase as [[Hgt Hnm]|Heq].
        - assert (Hn : (atkTotal >? defTotal) = false)
            by (rewrite Z.gtb_ltb; apply Z.ltb_ge; lia).
          apply Z.gt_lt in Hgt. apply Z.gtb_lt in Hgt.
          rewrite Hn, Hgt in Hr.
          destruct (anyMelee curAttackers) eqn:Em.
          + exfalso. apply Hnm. apply anyMelee_HasMelee. exact Em.
          + inversion Hr. reflexivity.
        - assert (Hn : (atkTotal >? defTotal) = false)
            by (rewrite Z.gtb_ltb; apply Z.ltb_ge; lia).
          assert (Hn' : (defTotal >? atkTotal) = false)
            by (rewrite Z.gtb_ltb; apply Z.ltb_ge; lia).
          rewrite Hn, Hn' in Hr. inversion Hr. reflexivity. }
      split; [exact Hw|]. rewrite Hu, Hw. apply spent_ids.
Qed.

(** The computer's single attack removes by the same verdicts: the
    defender on a win, the attacker when repelled, nobody on a tie. *)
Lemma resolveComputerAttack_units (unitId : string) (target : Coordinate) (g : GameState)
    (atk def : Unit) :
  findById (units g) unitId = Some atk ->
  getUnitAt (units g) (c_x target) (c_y target) = Some def ->
  let r := resolveCombat [atk] def (computerSupport g) (playerSupport g) in
  let after := units (computerAttack unitId target g) in
  (r_winner r = win_attacker -> Removed (u_id def) after)
  /\ (r_winner r = win_defender -> Removed (u_id atk) after)
  /\ (r_winner r = win_tie -> map u_id after = map u_id (units g)).
Proof.
  intros Hatk Hdef r after. subst after.
  unfold computerAttack. rewrite Hatk, Hdef.
  unfold resolveComputerAttack. simpl units. simpl computerSupport. simpl playerSupport.
  rewrite Hatk, Hdef. fold r. simpl units.
  assert (Hids : forall us,
            map u_id (if existsb (fun u => String.eqb (u_id u) (u_id atk)) us
                      then map (fun u => if String.eqb (u_id u) (u_id atk)
                                         then set_budget (u_movesLeft u) 0 (u_hasRotated u) u
                                         else u) us
                      else us) = map u_id us).
  { intros us. destruct (existsb _ us); [|reflexivity].
    rewrite map_map. apply map_ext. intros u.
    destruct (String.eqb (u_id u) (u_id atk)); reflexivity. }
  assert (Hrem : forall i us,
            Removed i (filter (fun u => negb (String.eqb (u_id u) i)) us) ->
            Removed i (if existsb (fun u => String.eqb (u_id u) (u_id atk))
                            (filter (fun u => negb (String.eqb (u_id u) i)) us)
                       then map (fun u => if String.eqb (u_id u) (u_id atk)
                                          then set_budget (u_movesLeft u) 0 (u_hasRotated u) u
                                          else u)
                              (filter (fun u => negb (String.eqb (u_id u) i)) us)
                       else filter (fun u => negb (String.eqb (u_id u) i)) us)).
  { intros i us Hr u Hin.
    assert (Hi : In (u_id u) (map u_id (filter (fun u => negb (String.eqb (u_id u) i)) us))).
    { rewrite <- (Hids (filter (fun u => negb (String.eqb (u_id u) i)) us)).
      apply in_map. exact Hin. }
    apply in_map_iff in Hi. destruct Hi as [u' [Hid Hin']].
    rewrite <- Hid. apply Hr. exact Hin'. }
  assert (Hfilt : forall i us, Removed i (filter (fun u => negb (String.eqb (u_id u) i)) us)).
  { intros i us u Hin. apply filter_In in Hin. destruct Hin as [_ Hne].
    apply negb_true_iff in Hne. apply String.eqb_neq in Hne. exact Hne. }
  repeat split; intros Hw; rewrite Hw.
  - apply Hrem. apply Hfilt.
  - apply Hrem. apply Hfilt.
  - apply Hids.
Qed.

End CombatOutcome.

(** ** End of turn *)

Section EndOfTurn.

Lemma resetSide_RefreshesSide (side : Player) (us : list Unit) :
  RefreshesSide side us (resetSide side us).
Proof.
  unfold RefreshesSide, resetSide. induction us as [|u us IH]; simpl.
  - constructor.
  - constructor; [|exact IH].
    destruct (Player_eqb (u_player u) side) eqn:E; zify_tests; split; intros Hq;
      try reflexivity; contradiction.
Qed.

Lemma resetSide_alive (side p : Player) (us : list Unit) :
  existsb (fun u => Player_eqb (u_player u) p) (resetSide side us)
  = existsb (fun u => Player_eqb (u_player u) p) us.
Proof.
  unfold resetSide. induction us as [|u us IH]; simpl; [reflexivity|].
  rewrite IH. destruct (Player_eqb (u_player u) side); reflexivity.
Qed.

Lemma alive_HasUnits (p : Player) (g : GameState) :
  existsb (fun u => Player_eqb (u_player u) p) (units g) = true <-> HasUnits p g.
Proof.
  unfold HasUnits. rewrite existsb_exists.
  split; intros [u [Hin Hq]]; exists u; (split; [exact Hin|]);
    apply Player_eqb_eq; exact Hq.
Qed.

Lemma finishComputerTurn_fields (g : GameState) :
  units (finishComputerTurn g) = resetSide computer (units g)
  /\ pendingAttack (finishComputerTurn g) = pendingAttack g.
Proof.
  unfold finishComputerTurn.
  destruct (negb (existsb _ (resetSide computer (units g))));
    destruct (negb (existsb _ (resetSide computer (units g)))); split; reflexivity.
Qed.

(** The verdict of the updater that closes the computer's turn. *)
Lemma finishComputerTurn_verdict (g : GameState) :
  (winner (finishComputerTurn g), turn (finishComputerTurn g)) =
    if negb (existsb (fun u => Player_eqb (u_player u) computer) (units g))
    then (Some player, game_over)
    else if negb (existsb (fun u => Player_eqb (u_player u) player) (units g))
    then (Some computer, game_over)
    else (None, turn_of player).
Proof.
  unfold finishComputerTurn. rewrite !resetSide_alive.
  destruct (negb (existsb (fun u => Player_eqb (u_player u) player) (units g)));
    destruct (negb (existsb (fun u => Player_eqb (u_player u) computer) (units g)));
    reflexivity.
Qed.

(** C3, as the code has it.  Ending a turn gives the units of the side
    that ends its turn their full budget back and leaves the other side's
    units as they are; ending the player's turn clears the pending attack
    and passes the turn to the computer; the close of the computer's turn
    keeps the pending attack and, while both sides have units, passes the
    turn to the player. *)
Theorem endTurn_refreshes_ending_side (g : GameState) :
  RefreshesSide player (units g) (units (endPlayerTurn g))
  /\ pendingAttack (endPlayerTurn g) = None
  /\ turn (endPlayerTurn g) = turn_of computer
  /\ RefreshesSide computer (units g) (units (finishComputerTurn g))
  /\ pendingAttack (finishComputerTurn g) = pendingAttack g
  /\ (HasUnits player g -> HasUnits computer g ->
      turn (finishComputerTurn g) = turn_of player).
Proof.
  destruct (finishComputerTurn_fields g) as [Hu Hp].
  repeat split.
  - apply resetSide_RefreshesSide.
  - rewrite Hu. apply resetSide_RefreshesSide.
  - exact Hp.
  - intros Hpl Hco. apply alive_HasUnits in Hpl. apply alive_HasUnits in Hco.
    pose proof (finishComputerTurn_verdict g) as Hv.
    rewrite Hpl, Hco in Hv. simpl in Hv. congruence.
Qed.

(** In the sample position, the close of the computer's turn hands the
    turn to the player. *)
Lemma endTurn_refreshes_ending_side_witness :
  turn (finishComputerTurn Scenarios.afterPlayerMove) = turn_of player.
Proof.
  apply (proj2 (proj2 (proj2 (proj2 (proj2
           (endTurn_refreshes_ending_side Scenarios.afterPlayerMove)))))).
  - exists Scenarios.movedInfantry. split; [left; reflexivity | reflexivity].
  - exists Scenarios.idleEnemy. split; [right; left; reflexivity | reflexivity].
Defined.

(** C3, as stated, fails: when the player ends its turn, the budget of its
    own infantry, spent by a move, is filled up again. *)
Lemma endTurn_opponent_refresh_fails :
  ~ EndTurnRefreshesOpponent player Scenarios.afterPlayerMove
      (endPlayerTurn Scenarios.afterPlayerMove).
Proof.
  intros (_ & Hkeep & _). vm_compute in Hkeep. discriminate Hkeep.
Qed.

End EndOfTurn.

(** ** The computer's support lines *)

Section ComputerSupport.

Lemma unowned_lines_strength (unit : Unit) (lines : list SupportLine) :
  (forall sl, In sl lines -> sl_player sl = None) ->
  calculateBaseStrength unit lines = 1.
Proof.
  intros Hnone. rewrite calculateBaseStrength_count.
  replace (filter (supports unit) lines) with (@nil SupportLine); [reflexivity|].
  symmetry. induction lines as [|sl lines IH]; simpl; [reflexivity|].
  unfold supports at 1. rewrite (Hnone sl (or_introl eq_refl)). simpl.
  apply IH. intros sl' Hin. apply Hnone. right. exact Hin.
Qed.

Lemma getComputerSupportPlacement_unowned (r : nat) (sl : SupportLine) :
  In sl (AiLogic.getComputerSupportPlacement r) -> sl_player sl = None.
Proof.
  unfold AiLogic.getComputerSupportPlacement, AiLogic.options.
  do 4 (destruct r as [|r];
        [simpl; intros [H|[H|[H|[]]]]; subst sl; reflexivity|]).
  destruct r; simpl; intros [].
Qed.

(** C4, evaluated on the code.  Whatever index is drawn, no support line
    stored for the computer at start-up carries an owner, and so no unit,
    of either side, draws strength from them; the same lines rebuilt with
    their owner, as the second copy of the planner does, give the column
    guard its bonus. *)
Theorem computerSupport_has_no_owner (genId : nat -> string)
    (placements : list Coordinate) (r : nat) (prev : GameState) (unit : Unit) :
  let g := initialComputerSetup genId placements r prev in
  (forall sl, In sl (computerSupport g) -> sl_player sl = None)
  /\ calculateBaseStrength unit (computerSupport g) = 1
  /\ calculateBaseStrength Scenarios.columnGuard (AiLogic.getComputerSupportPlacement 0) = 1
  /\ calculateBaseStrength Scenarios.columnGuard
       (AiLogicOwned.getComputerSupportPlacement 0) = 2.
Proof.
  cbv zeta. unfold initialComputerSetup. simpl computerSupport.
  split; [|split; [|split]].
  - apply getComputerSupportPlacement_unowned.
  - apply unowned_lines_strength. apply getComputerSupportPlacement_unowned.
  - reflexivity.
  - reflexivity.
Qed.

End ComputerSupport.

(** ** The computer's plan is applied without the legality predicates *)

Section ComputerPlan.

(** What guards each action of the plan: a move is dropped only for an
    unknown unit or an occupied target, a rotation only for an unknown
    unit, an attack only for an unknown attacker or an empty target tile. *)
Lemma applyAction_guards (g : GameState) (i : string) (t : Coordinate) (d : Direction) :
  (findById (units g) i = None \/ getUnitAt (units g) (c_x t) (c_y t) <> None ->
   applyAction (mkAIAction i act_move (Some t) None) g = g)
  /\ (forall unit, findById (units g) i = Some unit ->
      getUnitAt (units g) (c_x t) (c_y t) = None ->
      findById (units (applyAction (mkAIAction i act_move (Some t) None) g)) i
      = Some (set_position (c_x t) (c_y t) (moveRotation unit (c_x t) (c_y t))
                (Z.max 0 (u_movesLeft unit
                          - (Z.abs (u_x unit - c_x t) + Z.abs (u_y unit - c_y t))))
                (u_hasRotated unit) unit))
  /\ (findById (units g) i = None ->
      applyAction (mkAIAction i act_rotate None (Some d)) g = g)
  /\ (forall unit, findById (units g) i = Some unit ->
      findById (units (applyAction (mkAIAction i act_rotate None (Some d)) g)) i
      = Some (set_rotation d (u_hasRotated unit) unit))
  /\ (findById (units g) i = None \/ getUnitAt (units g) (c_x t) (c_y t) = None ->
      applyAction (mkAIAction i act_attack (Some t) None) g = g).
Proof.
  assert (Hfind : forall (f : Unit -> Unit) unit,
            (forall u, u_id (f u) = u_id u) ->
            findById (units g) i = Some unit ->
            findById (map (fun u => if String.eqb (u_id u) (u_id unit) then f u else u)
                        (units g)) i = Some (f unit)).
  { intros f unit Hid. unfold findById.
    induction (units g) as [|u us IH]; simpl; [discriminate|].
    destruct (String.eqb (u_id u) i) eqn:E.
    - intros Hs. inversion Hs; subst u. rewrite String.eqb_refl. simpl.
      rewrite Hid, E. reflexivity.
    - intros Hs. pose proof (find_some _ _ Hs) as [_ Hi].
      apply String.eqb_eq in Hi.
      destruct (String.eqb (u_id u) (u_id unit)) eqn:E'.
      + apply String.eqb_eq in E'. rewrite E', Hi, String.eqb_refl in E. discriminate.
      + simpl. rewrite E. apply IH. exact Hs. }
  unfold applyAction; simpl. repeat split.
  - unfold computerMove. intros [Hn|Ho].
    + rewrite Hn. reflexivity.
    + destruct (findById _ _); [|reflexivity].
      destruct (getUnitAt _ _ _); [reflexivity | congruence].
  - intros unit Hu Ho. unfold computerMove. rewrite Hu, Ho. simpl units.
    apply (Hfind (fun u => set_position (c_x t) (c_y t) (moveRotation unit (c_x t) (c_y t))
                    (Z.max 0 (u_movesLeft u
                       - (Z.abs (u_x unit - c_x t) + Z.abs (u_y unit - c_y t))))
                    (u_hasRotated u) u)); [reflexivity | exact Hu].
  - unfold computerRotate. intros Hn. rewrite Hn. reflexivity.
  - intros unit Hu. unfold computerRotate. rewrite Hu. simpl units.
    apply (Hfind (fun u => set_rotation d (u_hasRotated u) u)); [reflexivity | exact Hu].
  - unfold computerAttack. intros [Hn|Ho].
    + rewrite Hn. reflexivity.
    + rewrite Ho. destruct (findById _ _); reflexivity.
Qed.

(** C1, evaluated on the code.  From the raid position the plan moves the
    infantry five tiles, turns it with no move left and lets it strike a
    unit to its side: each action fails the legality predicate of its kind
    and each is applied, and the run ends with the player eliminated.
    From the pincer position the plan is the planner's own, whatever the
    shuffle: it was computed with the cavalry taken for dead, the cavalry
    survives the two single attacks, and the rear archer's shot over it,
    which [canAttack] refuses, is resolved all the same. *)
Theorem runComputerTurn_skips_legality (shuffle : nat -> list AIAction -> list AIAction) :
  (let g0 := Scenarios.beforeRaid in
   let g1 := applyAction Scenarios.raidMove g0 in
   let g2 := applyAction Scenarios.raidRotate g1 in
   let g3 := applyAction Scenarios.raidAttack g2 in
   isValidMove Scenarios.raider 4 6 (units g0) = false
   /\ units g1 = [Scenarios.raiderArrived; Scenarios.lastArcher]
   /\ canRotate Scenarios.raiderArrived = false
   /\ units g2 = [Scenarios.raiderTurned; Scenarios.lastArcher]
   /\ canAttack Scenarios.raiderTurned Scenarios.lastArcher (units g2) = false
   /\ map u_id (units g3) = ["c1"%string]
   /\ runPlan Scenarios.raidPlan g0 = g3
   /\ winner (gameState (runComputerTurn
                (mkAppState g0 [] false (Some Scenarios.raidPlan)))) = Some computer
   /\ winner (gameState (runComputerTurn
                (mkAppState g0 [] false (Some [])))) = None)
  /\ (let g2 := runPlan [Scenarios.strike "c1" 4 3; Scenarios.strike "c2" 4 3]
                  Scenarios.pincer in
      let g3 := applyAction (Scenarios.strike "c3" 4 4) g2 in
      AiLogic.getComputerMovesLocal shuffle Scenarios.pincer
        = [Scenarios.strike "c1" 4 3; Scenarios.strike "c2" 4 3;
           Scenarios.strike "c3" 4 4; Scenarios.strike "c4" 4 4;
           mkAIAction "global" act_end_turn None None]
      /\ findById (units g2) "c3" = Some Scenarios.rearArcher
      /\ getUnitAt (units g2) 4 4 = Some Scenarios.coveredInfantry
      /\ canAttack Scenarios.rearArcher Scenarios.coveredInfantry (units g2) = false
      /\ option_map u_attacksLeft (findById (units g3) "c3") = Some 0
      /\ logs g3 = logs g2
           ++ ["COMBAT: Archer(1) = 1 vs Defender [Base+Sup: 1] = 1. Stalemate."%string]).
Proof. vm_compute. repeat split. Qed.

End ComputerPlan.

(** ** Game over *)

Section Termination.

Lemma isEmpty_filter_NoUnits (p : Player) (g : GameState) :
  isEmpty (filter (fun u => Player_eqb (u_player u) p) (units g)) = true <-> NoUnits p g.
Proof.
  unfold NoUnits. split.
  - intros He u Hin Hp.
    assert (Hf : In u (filter (fun u => Player_eqb (u_player u) p) (units g))).
    { apply filter_In. split; [exact Hin | apply Player_eqb_eq; exact Hp]. }
    destruct (filter _ (units g)); [destruct Hf | discriminate].
  - intros Hno. destruct (filter _ (units g)) as [|u l] eqn:E; [reflexivity|].
    exfalso. assert (Hf : In u (filter (fun u => Player_eqb (u_player u) p) (units g)))
      by (rewrite E; left; reflexivity).
    apply filter_In in Hf. destruct Hf as [Hin Hp]. apply Player_eqb_eq in Hp.
    exact (Hno u Hin Hp).
Qed.

Lemma NoUnits_HasUnits (p : Player) (g : GameState) :
  NoUnits p g -> HasUnits p g -> False.
Proof. intros Hno [u [Hin Hp]]. exact (Hno u Hin Hp). Qed.

(** The verdict of [checkWinCondition] when one side only is left. *)
Lemma checkWinCondition_verdict (p : Player) (g : GameState) :
  NoUnits p g -> HasUnits (otherSide p) g ->
  winner (checkWinCondition g) = Some (otherSide p)
  /\ turn (checkWinCondition g) = game_over.
Proof.
  intros Hno Hhas. unfold checkWinCondition.
  destruct p; simpl otherSide in *.
  - apply isEmpty_filter_NoUnits in Hno. rewrite Hno. split; reflexivity.
  - destruct (isEmpty (filter (fun u => Player_eqb (u_player u) player) (units g))) eqn:Ep.
    + exfalso. apply isEmpty_filter_NoUnits in Ep. exact (NoUnits_HasUnits _ _ Ep Hhas).
    + apply isEmpty_filter_NoUnits in Hno. rewrite Hno. split; reflexivity.
Qed.

Lemma pendingAttack_checkWinCondition (g : GameState) :
  pendingAttack (checkWinCondition g) = pendingAttack g.
Proof.
  unfold checkWinCondition.
  destruct (isEmpty _); [reflexivity|]. destruct (isEmpty _); reflexivity.
Qed.

Lemma pendingAttack_executeMultiAttack (attackers : list Unit) (defender : Unit)
    (g : GameState) :
  pendingAttack (executeMultiAttack attackers defender g) = None.
Proof.
  unfold executeMultiAttack. rewrite pendingAttack_checkWinCondition.
  unfold resolveMultiAttack.
  destruct (isEmpty _); [reflexivity|].
  destruct (findById _ _); reflexivity.
Qed.

Lemma pendingAttack_applyAction (action : AIAction) (g : GameState) :
  pendingAttack (applyAction action g) = pendingAttack g.
Proof.
  unfold applyAction.
  destruct (a_actionType action), (a_target action) as [t|],
           (a_direction action) as [d|]; try reflexivity.
  - unfold computerMove. destruct (findById _ _); [|reflexivity].
    destruct (getUnitAt _ _ _); reflexivity.
  - unfold computerMove. destruct (findById _ _); [|reflexivity].
    destruct (getUnitAt _ _ _); reflexivity.
  - unfold computerRotate. destruct (findById _ _); reflexivity.
  - unfold computerRotate. destruct (findById _ _); reflexivity.
  - unfold computerAttack. destruct (findById _ _); [|reflexivity].
    destruct (getUnitAt _ _ _); [|reflexivity].
    unfold resolveComputerAttack. simpl units.
    destruct (findById _ _); [|reflexivity].
    destruct (getUnitAt _ _ _); reflexivity.
  - unfold computerAttack. destruct (findById _ _); [|reflexivity].
    destruct (getUnitAt _ _ _); [|reflexivity].
    unfold resolveComputerAttack. simpl units.
    destruct (findById _ _); [|reflexivity].
    destruct (getUnitAt _ _ _); reflexivity.
Qed.

Lemma pendingAttack_runPlan (plan : list AIAction) (g : GameState) :
  pendingAttack (runPlan plan g) = pendingAttack g.
Proof.
  revert g. induction plan as [|action rest IH]; intros g; simpl; [reflexivity|].
  destruct (a_actionType action); try reflexivity;
    rewrite IH; apply pendingAttack_applyAction.
Qed.

Lemma finishComputerTurn_units_side (p : Player) (g : GameState) :
  existsb (fun u => Player_eqb (u_player u) p) (units (finishComputerTurn g))
  = existsb (fun u => Player_eqb (u_player u) p) (units g).
Proof.
  destruct (finishComputerTurn_fields g) as [Hu _]. rewrite Hu.
  apply resetSide_alive.
Qed.

Lemma not_alive_NoUnits (p : Player) (g : GameState) :
  existsb (fun u => Player_eqb (u_player u) p) (units g) = false <-> NoUnits p g.
Proof.
  unfold NoUnits. split.
  - intros He u Hin Hp.
    assert (Ht : existsb (fun u => Player_eqb (u_player u) p) (units g) = true).
    { apply existsb_exists. exists u. split; [exact Hin | apply Player_eqb_eq; exact Hp]. }
    congruence.
  - intros Hno. destruct (existsb _ (units g)) eqn:E; [|reflexivity].
    apply existsb_exists in E. destruct E as [u [Hin Hp]].
    apply Player_eqb_eq in Hp. exfalso. exact (Hno u Hin Hp).
Qed.

(** A finished game stays as it is under every invocation. *)
Lemma GameOver_invoke (s : AppState) (w : Player) (i : Invocation) :
  GameOver s w -> invoke s i = s.
Proof.
  intros (Hw & Ht & Hp & Ha). destruct i; simpl.
  - unfold handleTileClick. rewrite Hw. reflexivity.
  - unfold with_gameState, confirmPendingAttack. rewrite Hp. destruct s; reflexivity.
  - unfold planComputerTurn. rewrite Ht. reflexivity.
  - unfold runComputerTurn. rewrite Ha. reflexivity.
Qed.

End Termination.

(** ** The properties on the sample positions *)

Section Samples.

Import Scenarios.

(** The bowman, unengaged, shoots over the free tile (4,3). *)
Lemma canAttack_spec_witness :
  canAttack bowman distantTarget [bowman; distantTarget] = true.
Proof.
  apply (proj2 (proj2 (canAttack_spec bowman distantTarget [bowman; distantTarget]))).
  - unfold AttackGates. split; [reflexivity | split; [discriminate | reflexivity]].
  - reflexivity.
  - split.
    + intros [e [Hin [Hside Hdist]]].
      destruct Hin as [He|[He|[]]]; subst e.
      * apply Hside. reflexivity.
      * vm_compute in Hdist. discriminate Hdist.
    + right. split.
      * right. split; reflexivity.
      * exists 4, 3. split; [split; reflexivity|].
        intros u Hin [Hx Hy].
        destruct Hin as [Hu|[Hu|[]]]; subst u; vm_compute in Hy; discriminate Hy.
Defined.

(** The spearman overruns the cornered archer. *)
Lemma resolveCombat_outcome_witness :
  r_winner (resolveCombat [spearman] cornered playerLines
              (AiLogic.getComputerSupportPlacement 0)) = win_attacker
  /\ r_defTotal (resolveCombat [spearman] cornered playerLines
                   (AiLogic.getComputerSupportPlacement 0)) = 0
  /\ Removed "c1" (units (executeMultiAttack [spearman] cornered stagedAttack)).
Proof.
  apply (proj1 (resolveCombat_outcome [spearman] cornered stagedAttack cornered
                  eq_refl ltac:(discriminate))).
  - reflexivity.
  - exists spearman. split; [left; reflexivity | discriminate].
Defined.

End Samples.

(** ** Worked positions *)

Section WorkedPositions.

Import Scenarios.

(** Infantry two tiles in front of an archer cannot attack it: the ranged
    shapes are the archer's alone. *)
Example infantry_has_no_range :
  canAttack farInfantry farArcher [farInfantry; farArcher] = false
  /\ canAttack farArcher farInfantry [farInfantry; farArcher] = true.
Proof. split; reflexivity. Qed.

(** Cavalry with movement left charges; with none left it does not. *)
Example charge_needs_movement :
  r_atkTotal (resolveCombat [lancer 2] footman [] []) = 2
  /\ r_atkTotal (resolveCombat [lancer 0] footman [] []) = 1
  /\ r_log (resolveCombat [lancer 2] footman [] [])
     = "COMBAT: Cavalry(1+Charge) = 2 vs Defender [Base+Sup: 1] = 1. Attackers win!"%string.
Proof. repeat split; reflexivity. Qed.

(** A cavalry charge covers two tiles along the facing; a diagonal step
    and a charge with one move left are refused. *)
Example charge_moves :
  isValidMove (lancer 2) 4 3 [lancer 2] = true
  /\ isValidMove (lancer 1) 4 3 [lancer 1] = false
  /\ isValidMove (lancer 2) 6 5 [lancer 2] = false
  /\ isValidMove (lancer 2) 5 4 [lancer 2] = false
  /\ isValidMove (lancer 2) 4 3 [lancer 2; footman] = false.
Proof. repeat split; reflexivity. Qed.

(** Move, then a refused rotation (no move left), then end of turn: the
    infantry holds its full budget again. *)
Example move_rotate_endTurn :
  let s1 := handleTileClick 4 5 "" playerToMove in
  let g2 := executeRotate turn_left (gameState s1) in
  let g3 := endPlayerTurn g2 in
  option_map budget (findById (units (gameState s1)) "p4") = Some (0, 1)
  /\ units g2 = units (gameState s1)
  /\ logs g2 = ["Cannot rotate (Need at least 1 move remaining)."%string]
  /\ option_map budget (findById (units g3) "p4") = Some (1, 1)
  /\ turn g3 = turn_of computer.
Proof. vm_compute. repeat split. Qed.

(** Toggling a row next to a held row adds it, in spite of the message
    kept for a refusal. *)
Example toggleSupport_adjacent :
  let g := set_turn setup_support
             (set_playerSupport [mkSupportLine (Some player) row 3] initialGameState) in
  playerSupport (toggleSupport row 4 g)
  = [mkSupportLine (Some player) row 3; mkSupportLine (Some player) row 4]
  /\ playerSupport (toggleSupport row 3 g) = [].
Proof. split; reflexivity. Qed.

End WorkedPositions.

(** * Further properties of the rules *)

(** ** Targets, facing and flanks *)

Section Targets.

(** X1. The targets of a unit are exactly the units of the list it can
    attack: the prior selection of the enemies changes nothing, since
    [canAttack] refuses a unit of the attacker's side. *)
Theorem getValidAttackTargets_filter (unit : Unit) (allUnits : list Unit) :
  getValidAttackTargets unit allUnits
  = filter (fun e => canAttack unit e allUnits) allUnits.
Proof.
  unfold getValidAttackTargets. rewrite filter_filter.
  apply filter_ext. intros e.
  destruct (Player_eqb (u_player e) (u_player unit)) eqn:Ep; simpl; [|reflexivity].
  unfold canAttack. destruct (u_attacksLeft unit <=? 0); [reflexivity|].
  apply Player_eqb_eq in Ep.
  assert (Hs : Player_eqb (u_player unit) (u_player e) = true)
    by (apply Player_eqb_eq; congruence).
  rewrite Hs. reflexivity.
Qed.

(** A positive dot product with a facing vector at Manhattan distance 1
    leaves one displacement: the facing vector. *)
Lemma front_tile (dx dy : Z) (d : Direction) :
  let f := getVectorForRotation d in
  (0 < dx * c_x f + dy * c_y f /\ Z.abs dx + Z.abs dy = 1) <->
  (dx = c_x f /\ dy = c_y f).
Proof. destruct d; simpl; lia. Qed.

(** X2. A unit that is not an archer can attack exactly the enemy on the
    tile right in front of it, as long as it has an attack left; the other
    units on the board play no part. *)
Theorem melee_attacks_front_tile (attacker defender : Unit) (us : list Unit) :
  u_type attacker <> ARCHER ->
  (canAttack attacker defender us = true <->
   0 < u_attacksLeft attacker /\ u_player attacker <> u_player defender /\
   InFront attacker defender).
Proof.
  intros Hmelee. apply UnitType_eqb_neq in Hmelee.
  unfold canAttack, InFront. cbv zeta. rewrite Hmelee.
  pose proof (front_tile (u_x defender - u_x attacker) (u_y defender - u_y attacker)
                (u_rotation attacker)) as Hf. cbv zeta in Hf.
  destruct (u_attacksLeft attacker <=? 0) eqn:Ea; zify_tests.
  { split; [discriminate | intros [Hq _]; lia]. }
  destruct (Player_eqb (u_player attacker) (u_player defender)) eqn:Ep; zify_tests.
  { split; [discriminate | intros [_ [Hq _]]; contradiction]. }
  destruct (_ * _ + _ * _ <=? 0) eqn:Ed; zify_tests.
  { split; [discriminate|]. intros [_ [_ [Hx Hy]]]. exfalso.
    assert (Hd : u_x defender - u_x attacker
                   = c_x (getVectorForRotation (u_rotation attacker)) /\
                 u_y defender - u_y attacker
                   = c_y (getVectorForRotation (u_rotation attacker))) by lia.
    apply Hf in Hd. lia. }
  rewrite Z.eqb_eq. split.
  - intros Hdist. repeat split; try assumption; try lia;
      destruct (proj1 Hf (conj Ed Hdist)); lia.
  - intros [_ [_ [Hx Hy]]].
    assert (Hd : u_x defender - u_x attacker
                   = c_x (getVectorForRotation (u_rotation attacker)) /\
                 u_y defender - u_y attacker
                   = c_y (getVectorForRotation (u_rotation attacker))) by lia.
    apply Hf in Hd. lia.
Qed.

(** The infantry of the staged attack and the archer right in front of it. *)
Lemma melee_attacks_front_tile_witness :
  canAttack Scenarios.spearman Scenarios.cornered
    [Scenarios.spearman; Scenarios.cornered] = true <->
  0 < u_attacksLeft Scenarios.spearman /\
  u_player Scenarios.spearman <> u_player Scenarios.cornered /\
  InFront Scenarios.spearman Scenarios.cornered.
Proof.
  apply (melee_attacks_front_tile Scenarios.spearman Scenarios.cornered
           [Scenarios.spearman; Scenarios.cornered]).
  simpl. discriminate.
Defined.

(** X3. In a legal attack by a unit that is not an archer, the flank bonus
    is withheld exactly when the defender faces the attacker, that is when
    the two units look at each other. *)
Theorem flank_iff_not_face_to_face (attacker defender : Unit) (us : list Unit) :
  u_type attacker <> ARCHER ->
  canAttack attacker defender us = true ->
  (getFlankBonus attacker defender = 0 <->
   u_rotation defender = opposite (u_rotation attacker))
  /\ (getFlankBonus attacker defender = 1 <->
      u_rotation defender <> opposite (u_rotation attacker)).
Proof.
  intros Hmelee Hcan.
  assert (Hfront : InFront attacker defender).
  { unfold canAttack in Hcan. apply UnitType_eqb_neq in Hmelee. rewrite Hmelee in Hcan.
    destruct (u_attacksLeft attacker <=? 0); [discriminate|].
    destruct (Player_eqb _ _); [discriminate|].
    destruct (_ * _ + _ * _ <=? 0) eqn:Ed; [discriminate|]. zify_tests.
    pose proof (front_tile (u_x defender - u_x attacker) (u_y defender - u_y attacker)
                  (u_rotation attacker)) as Hf. cbv zeta in Hf.
    unfold InFront. cbv zeta. destruct (proj1 Hf (conj Ed Hcan)). lia. }
  unfold InFront in Hfront. cbv zeta in Hfront. destruct Hfront as [Hx Hy].
  unfold getFlankBonus. apply UnitType_eqb_neq in Hmelee. rewrite Hmelee. cbv zeta.
  rewrite Hx, Hy.
  destruct (u_rotation attacker), (u_rotation defender); simpl;
    repeat rewrite Z.eqb_refl; simpl;
    repeat match goal with
    | |- context [?a =? ?b] =>
        let E := fresh "E" in destruct (a =? b) eqn:E;
        [apply Z.eqb_eq in E; try lia | simpl]
    end;
    split; split; intros; try reflexivity; try discriminate; try congruence; try lia.
Qed.

(** The same two units look at each other: no flank bonus. *)
Lemma flank_iff_not_face_to_face_witness :
  getFlankBonus Scenarios.spearman Scenarios.cornered = 0 <->
  u_rotation Scenarios.cornered = opposite (u_rotation Scenarios.spearman).
Proof.
  apply (flank_iff_not_face_to_face Scenarios.spearman Scenarios.cornered
           [Scenarios.spearman; Scenarios.cornered]).
  - simpl. discriminate.
  - reflexivity.
Defined.

End Targets.

(** ** Bounds on strength and on the attackers' total *)

Section StrengthBounds.

Lemma LineType_eq_dec (a b : LineType) : {a = b} + {a <> b}.
Proof. decide equality. Qed.

Lemma filter_none {A : Type} (f : A -> bool) (l : list A) :
  (forall a, In a l -> f a = false) -> filter f l = [].
Proof.
  induction l as [|a l IH]; simpl; intros Hf; [reflexivity|].
  rewrite (Hf a (or_introl eq_refl)). apply IH. intros b Hb. apply Hf. right. exact Hb.
Qed.

(** In a duplicate-free list at most one line has a given axis and index. *)
Lemma at_most_one_line (t : LineType) (i : Z) (lines : list SupportLine) :
  DuplicateFree lines ->
  (List.length
     (filter (fun sl => LineType_eqb (sl_type sl) t && (sl_index sl =? i)%Z) lines)
   <= 1)%nat.
Proof.
  unfold DuplicateFree. induction lines as [|sl lines IH]; simpl; [lia|].
  intros Hnd. inversion Hnd as [|k ks Hnotin Hnd']; subst.
  destruct (LineType_eqb (sl_type sl) t && (sl_index sl =? i)) eqn:E.
  - apply andb_true_iff in E. destruct E as [Et Ei].
    apply LineType_eqb_eq in Et. apply Z.eqb_eq in Ei.
    replace (filter _ lines) with (@nil SupportLine); [simpl; lia|].
    symmetry. apply filter_none. intros sl' Hin.
    destruct (LineType_eqb (sl_type sl') t && (sl_index sl' =? i)) eqn:E'; [|reflexivity].
    exfalso. apply andb_true_iff in E'. destruct E' as [Et' Ei'].
    apply LineType_eqb_eq in Et'. apply Z.eqb_eq in Ei'.
    apply Hnotin. apply in_map_iff. exists sl'. split; [|exact Hin].
    unfold lineKey. congruence.
  - apply IH. exact Hnd'.
Qed.

Lemma supports_length_split (unit : Unit) (lines : list SupportLine) :
  (List.length (filter (supports unit) lines)
   <= List.length (filter (fun sl => LineType_eqb (sl_type sl) row
                                     && (sl_index sl =? u_y unit)%Z) lines)
      + List.length (filter (fun sl => LineType_eqb (sl_type sl) col
                                       && (sl_index sl =? u_x unit)%Z) lines))%nat.
Proof.
  induction lines as [|sl lines IH]; simpl; [lia|].
  unfold supports at 1. unfold onLine.
  destruct (owner_eqb (sl_player sl) (u_player unit)); simpl;
    destruct (sl_type sl); simpl;
    try destruct (sl_index sl =? u_y unit); try destruct (sl_index sl =? u_x unit);
    simpl; lia.
Qed.

(** X4. A unit's strength is at least 1 and at most 1 plus the number of
    lines; among lines none of which repeats an axis and index, as
    [isValidSupportPlacement] keeps them, it is at most 3. *)
Theorem calculateBaseStrength_bounds (unit : Unit) (lines : list SupportLine) :
  1 <= calculateBaseStrength unit lines <= 1 + Z.of_nat (List.length lines)
  /\ (DuplicateFree lines -> calculateBaseStrength unit lines <= 3).
Proof.
  rewrite calculateBaseStrength_count. split.
  - pose proof (filter_length_le (supports unit) lines). lia.
  - intros Hnd.
    pose proof (supports_length_split unit lines).
    pose proof (at_most_one_line row (u_y unit) lines Hnd).
    pose proof (at_most_one_line col (u_x unit) lines Hnd).
    lia.
Qed.

(** Three player lines, two of them through the tile (4,5). *)
Lemma calculateBaseStrength_bounds_witness :
  calculateBaseStrength Scenarios.movedInfantry Scenarios.playerLines <= 3.
Proof.
  apply (proj2 (calculateBaseStrength_bounds Scenarios.movedInfantry Scenarios.playerLines)).
  unfold DuplicateFree. simpl.
  repeat constructor; simpl; intros Hin;
    repeat (destruct Hin as [Hin|Hin]; [discriminate Hin|]); exact Hin.
Defined.

Lemma sumZ_app (l1 l2 : list Z) : sumZ (l1 ++ l2) = sumZ l1 + sumZ l2.
Proof. unfold sumZ. induction l1 as [|a l1 IH]; simpl; lia. Qed.

Lemma atkTotalOf_sum (attackers : list Unit) (defender : Unit)
    (attackerSupport : list SupportLine) :
  atkTotalOf attackers defender attackerSupport
  = sumZ (map (fun a => calculateBaseStrength a attackerSupport
                        + getFlankBonus a defender + chargeBonus a) attackers).
Proof. unfold atkTotalOf. rewrite fold_attackStep. lia. Qed.

Lemma attacker_term_positive (a defender : Unit) (attackerSupport : list SupportLine) :
  1 <= calculateBaseStrength a attackerSupport + getFlankBonus a defender + chargeBonus a.
Proof.
  rewrite calculateBaseStrength_count.
  assert (0 <= getFlankBonus a defender).
  { unfold getFlankBonus. destruct (UnitType_eqb _ _); [lia|].
    cbv zeta. destruct (_ && _); lia. }
  assert (0 <= chargeBonus a).
  { unfold chargeBonus. destruct (u_type a); try lia.
    destruct (0 <? u_movesLeft a); lia. }
  lia.
Qed.

(** X5. The total of a joint attack is the sum of the totals its two
    halves would reach alone, and every attacker brings at least 1: the
    total is never below the number of attackers. *)
Theorem resolveCombat_atkTotal_additive (group1 group2 : list Unit) (defender : Unit)
    (attackerSupport defenderSupport : list SupportLine) :
  r_atkTotal (resolveCombat (group1 ++ group2) defender attackerSupport defenderSupport)
  = r_atkTotal (resolveCombat group1 defender attackerSupport defenderSupport)
    + r_atkTotal (resolveCombat group2 defender attackerSupport defenderSupport)
  /\ Z.of_nat (List.length group1)
     <= r_atkTotal (resolveCombat group1 defender attackerSupport defenderSupport).
Proof.
  rewrite !(proj1 (resolveCombat_result _ defender attackerSupport defenderSupport)).
  rewrite !atkTotalOf_sum. split.
  - rewrite map_app. apply sumZ_app.
  - induction group1 as [|a l IH]; [simpl; lia|].
    pose proof (attacker_term_positive a defender attackerSupport).
    change (sumZ (map ?f (a :: l))) with (f a + sumZ (map f l)).
    simpl List.length. lia.
Qed.

End StrengthBounds.

(** ** Choosing the support lines *)

Section SupportSelection.

Lemma removeFirstLine_None (t : LineType) (i : Z) (l : list SupportLine) :
  removeFirstLine t i l = None <->
  forall sl, In sl l -> lineKey sl <> (t, i).
Proof.
  induction l as [|s rest IH]; simpl.
  - split; [intros _ sl [] | reflexivity].
  - destruct (LineType_eqb (sl_type s) t && (sl_index s =? i)) eqn:E.
    + split; [discriminate|]. intros Hno. exfalso.
      apply andb_true_iff in E. destruct E as [Et Ei].
      apply LineType_eqb_eq in Et. apply Z.eqb_eq in Ei.
      apply (Hno s (or_introl eq_refl)). unfold lineKey. congruence.
    + destruct (removeFirstLine t i rest) as [rest'|] eqn:Er.
      * split; [discriminate|]. intros Hno.
        assert (Hx : Some rest' = None)
          by (apply IH; intros sl Hin; apply Hno; right; exact Hin).
        discriminate Hx.
      * split; [|reflexivity]. intros _ sl [Hs|Hin].
        -- subst sl. unfold lineKey. intros Hk. inversion Hk as [[Ht Hi]].
           apply andb_false_iff in E. destruct E as [E|E].
           ++ apply (proj2 (LineType_eqb_eq _ _)) in Ht. congruence.
           ++ apply Z.eqb_neq in E. contradiction.
        -- apply (proj1 IH eq_refl). exact Hin.
Qed.

(** What is left after a removal is a sublist, one line shorter. *)
Lemma removeFirstLine_Some (t : LineType) (i : Z) (l rest : list SupportLine) :
  removeFirstLine t i l = Some rest ->
  List.length l = S (List.length rest)
  /\ (forall sl, In sl rest -> In sl l)
  /\ (DuplicateFree l -> DuplicateFree rest).
Proof.
  revert rest. induction l as [|s l IH]; simpl; intros rest; [discriminate|].
  destruct (LineType_eqb (sl_type s) t && (sl_index s =? i)).
  - intros Hs. inversion Hs; subst rest. repeat split; auto.
    intros Hnd. inversion Hnd; assumption.
  - destruct (removeFirstLine t i l) as [rest'|]; [|discriminate].
    intros Hs. inversion Hs; subst rest.
    destruct (IH rest' eq_refl) as (Hlen & Hin & Hnd). repeat split.
    + simpl. lia.
    + intros sl [Hq|Hq]; [left; exact Hq | right; apply Hin; exact Hq].
    + unfold DuplicateFree in *. simpl. intros Hd. inversion Hd as [|k ks Hnotin Hd']; subst.
      constructor; [|apply Hnd; exact Hd'].
      intros Hk. apply Hnotin. apply in_map_iff in Hk. destruct Hk as [sl [Hkey Hsl]].
      apply in_map_iff. exists sl. split; [exact Hkey | apply Hin; exact Hsl].
Qed.

Lemma noDuplicateLine_absent (supports : list SupportLine) (newSupport : SupportLine) :
  (forall sl, In sl supports -> lineKey sl <> lineKey newSupport) ->
  noDuplicateLine supports newSupport = true.
Proof.
  intros Habs. destruct (noDuplicateLine supports newSupport) eqn:E; [reflexivity|].
  apply noDuplicateLine_false in E. destruct E as [s [Hin [Ht Hi]]].
  exfalso. apply (Habs s Hin). unfold lineKey. congruence.
Qed.

(** The three outcomes of a click on a header during the selection. *)
Lemma toggleSupport_cases (t : LineType) (i : Z) (g : GameState) :
  turn g = setup_support ->
  match removeFirstLine t i (playerSupport g) with
  | Some rest => toggleSupport t i g = set_playerSupport rest g
  | None =>
    if Z.of_nat (List.length (playerSupport g)) >=? 3
    then toggleSupport t i g = addLog "Max 3 supports allowed. Deselect one first." g
    else toggleSupport t i g
         = set_playerSupport (playerSupport g ++ [mkSupportLine (Some player) t i]) g
  end.
Proof.
  intros Ht. unfold toggleSupport. rewrite Ht.
  destruct (removeFirstLine t i (playerSupport g)) eqn:Er; [reflexivity|].
  destruct (Z.of_nat (List.length (playerSupport g)) >=? 3) eqn:El; [reflexivity|].
  unfold isValidSupportPlacement. rewrite El.
  rewrite noDuplicateLine_absent; [reflexivity|].
  apply removeFirstLine_None. exact Er.
Qed.

Lemma toggleSupport_sound (t : LineType) (i : Z) (g : GameState) :
  SupportSound (playerSupport g) -> SupportSound (playerSupport (toggleSupport t i g)).
Proof.
  intros (Hlen & Hnd & Hown).
  destruct (turn g) eqn:Ht; try (unfold toggleSupport; rewrite Ht; repeat split; assumption).
  pose proof (toggleSupport_cases t i g Ht) as Hc.
  destruct (removeFirstLine t i (playerSupport g)) as [rest|] eqn:Er.
  - rewrite Hc. simpl. destruct (removeFirstLine_Some _ _ _ _ Er) as (Hl & Hin & Hd).
    repeat split; [lia | apply Hd; exact Hnd | intros sl Hsl; apply Hown, Hin, Hsl].
  - destruct (Z.of_nat (List.length (playerSupport g)) >=? 3) eqn:El; rewrite Hc.
    + simpl. repeat split; assumption.
    + simpl. zify_tests. repeat split.
      * rewrite length_app. simpl. lia.
      * unfold DuplicateFree in *. rewrite map_app. simpl.
        apply NoDup_app; [exact Hnd | repeat constructor; intros [] | ].
        intros k Hk [Hq|[]]. subst k.
        apply in_map_iff in Hk. destruct Hk as [sl [Hkey Hsl]].
        exact (proj1 (removeFirstLine_None t i _) Er sl Hsl Hkey).
      * intros sl Hsl. apply in_app_or in Hsl. destruct Hsl as [Hsl|[Hsl|[]]].
        -- apply Hown. exact Hsl.
        -- subst sl. reflexivity.
Qed.

(** X6. Whatever headers are clicked, in whatever phase, the player holds
    at most three support lines, no line twice, all of its own side; and
    [finishSetup] starts the game only with exactly three of them,
    leaving the lines as they are. *)
Theorem toggleSupport_keeps_lines_sound (toggles : list (LineType * Z)) (g : GameState) :
  SupportSound (playerSupport g) ->
  SupportSound (playerSupport (toggleAll toggles g))
  /\ playerSupport (finishSetup (toggleAll toggles g)) = playerSupport (toggleAll toggles g)
  /\ (List.length (playerSupport (toggleAll toggles g)) = 3%nat ->
      turn (finishSetup (toggleAll toggles g)) = turn_of player)
  /\ (List.length (playerSupport (toggleAll toggles g)) <> 3%nat ->
      turn (finishSetup (toggleAll toggles g)) = turn (toggleAll toggles g)).
Proof.
  intros Hs.
  assert (Hall : SupportSound (playerSupport (toggleAll toggles g))).
  { unfold toggleAll. revert g Hs. induction toggles as [|ti rest IH]; intros g Hs; simpl.
    - exact Hs.
    - apply IH. apply toggleSupport_sound. exact Hs. }
  split; [exact Hall|]. set (g' := toggleAll toggles g). unfold finishSetup.
  repeat split.
  - destruct (negb _); reflexivity.
  - intros H3. rewrite H3. reflexivity.
  - intros H3. apply Nat.eqb_neq in H3. rewrite H3. reflexivity.
Qed.

(** Four clicks during the selection, the fourth refused. *)
Lemma toggleSupport_keeps_lines_sound_witness :
  SupportSound (playerSupport
    (toggleAll [(row, 3); (row, 4); (col, 2); (col, 7)]
       (set_turn setup_support initialGameState))).
Proof.
  apply (proj1 (toggleSupport_keeps_lines_sound [(row, 3); (row, 4); (col, 2); (col, 7)]
                  (set_turn setup_support initialGameState)
                  (conj (le_0_n 3) (conj (NoDup_nil _) (fun sl (H : In sl []) =>
                     match H with end))))).
Defined.

Lemma removeFirstLine_last (t : LineType) (i : Z) (l : list SupportLine) (o : option Player) :
  removeFirstLine t i l = None ->
  removeFirstLine t i (l ++ [mkSupportLine o t i]) = Some l.
Proof.
  induction l as [|s l IH]; simpl.
  - intros _. destruct t; simpl; rewrite Z.eqb_refl; reflexivity.
  - destruct (LineType_eqb (sl_type s) t && (sl_index s =? i)); [discriminate|].
    destruct (removeFirstLine t i l); [discriminate|].
    intros _. rewrite (IH eq_refl). reflexivity.
Qed.

(** X7. During the selection, a click on a header whose line is not held,
    with fewer than three lines held, always adds the line (the refusal
    for adjacent lines cannot occur), and a second click on the same
    header takes it off again: the state is as before the two clicks. *)
Theorem toggleSupport_twice (t : LineType) (i : Z) (g : GameState) :
  turn g = setup_support ->
  (forall sl, In sl (playerSupport g) -> lineKey sl <> (t, i)) ->
  (List.length (playerSupport g) < 3)%nat ->
  playerSupport (toggleSupport t i g)
    = playerSupport g ++ [mkSupportLine (Some player) t i]
  /\ logs (toggleSupport t i g) = logs g
  /\ toggleSupport t i (toggleSupport t i g) = g.
Proof.
  intros Ht Habs Hlen. apply removeFirstLine_None in Habs.
  pose proof (toggleSupport_cases t i g Ht) as Hc. rewrite Habs in Hc.
  assert (El : (Z.of_nat (List.length (playerSupport g)) >=? 3) = false)
    by (rewrite Z.geb_leb; apply Z.leb_gt; lia).
  rewrite El in Hc. rewrite Hc. repeat split.
  pose proof (toggleSupport_cases t i
                (set_playerSupport (playerSupport g ++ [mkSupportLine (Some player) t i]) g)
                Ht) as Hc2.
  simpl playerSupport in Hc2. rewrite (removeFirstLine_last t i _ _ Habs) in Hc2.
  rewrite Hc2. destruct g; reflexivity.
Qed.

(** Row 4 clicked twice while row 3 is held. *)
Lemma toggleSupport_twice_witness :
  toggleSupport row 4
    (toggleSupport row 4
       (set_playerSupport [mkSupportLine (Some player) row 3]
          (set_turn setup_support initialGameState)))
  = set_playerSupport [mkSupportLine (Some player) row 3]
      (set_turn setup_support initialGameState).
Proof.
  apply (proj2 (proj2 (toggleSupport_twice row 4
           (set_playerSupport [mkSupportLine (Some player) row 3]
              (set_turn setup_support initialGameState))
           eq_refl
           (fun sl (H : In sl [mkSupportLine (Some player) row 3]) =>
              match H with
              | or_introl e => fun k => ltac:(subst sl; discriminate k)
              | or_intror f => match f with end
              end)
           ltac:(simpl; lia)))).
Defined.

End SupportSelection.

(** ** What the play phase keeps *)

Section Evolution.

Lemma SameUnit_refl (u : Unit) : SameUnit u u.
Proof. unfold SameUnit. repeat split. Qed.

Lemma SameUnit_trans (u v w : Unit) : SameUnit u v -> SameUnit v w -> SameUnit u w.
Proof. unfold SameUnit. intros (A1 & A2 & A3 & A4 & A5) (B1 & B2 & B3 & B4 & B5).
  repeat split; congruence. Qed.

Lemma NoDup_map_filter {A B : Type} (h : A -> B) (c : A -> bool) (l : list A) :
  NoDup (map h l) -> NoDup (map h (filter c l)).
Proof.
  induction l as [|a l IH]; simpl; intros Hnd; [constructor|].
  inversion Hnd as [|b bs Hnotin Hnd']; subst.
  destruct (c a); simpl; [constructor|]; auto.
  intros Hin. apply Hnotin. apply in_map_iff in Hin. destruct Hin as [a' [Ha Hin]].
  apply in_map_iff. exists a'. split; [exact Ha|]. apply filter_In in Hin. tauto.
Qed.

Lemma unique_by_id (us : list Unit) (u v : Unit) :
  NoDup (map u_id us) -> In u us -> In v us -> u_id u = u_id v -> u = v.
Proof.
  induction us as [|w us IH]; simpl; intros Hnd Hu Hv Hid; [destruct Hu|].
  inversion Hnd as [|k ks Hnotin Hnd']; subst.
  destruct Hu as [Hu|Hu], Hv as [Hv|Hv]; subst.
  - reflexivity.
  - exfalso. apply Hnotin. rewrite Hid. apply in_map. exact Hv.
  - exfalso. apply Hnotin. rewrite <- Hid. apply in_map. exact Hu.
  - apply IH; assumption.
Qed.

(** The moved list: the tiles are distinct again when the identifiers are. *)
Lemma NoDup_tiles_move (us : list Unit) (i : string) (x y : Z) (f : Unit -> Unit) :
  (forall u, tile (f u) = (x, y)) ->
  Unoccupied us x y -> NoDup (map u_id us) -> NoDup (map tile us) ->
  NoDup (map tile (map (fun u => if String.eqb (u_id u) i then f u else u) us)).
Proof.
  intros Hf. induction us as [|w us IH]; simpl; intros Hfree Hids Htiles; [constructor|].
  inversion Hids as [|k ks Hnotin Hids']; subst.
  inversion Htiles as [|k ks Hnotin' Htiles']; subst.
  assert (Hfree' : Unoccupied us x y).
  { intros u Hu. apply Hfree. right. exact Hu. }
  constructor; [|apply IH; assumption].
  rewrite map_map. intros Hin. apply in_map_iff in Hin. destruct Hin as [u [Ht Hu]].
  destruct (String.eqb (u_id w) i) eqn:Ew; destruct (String.eqb (u_id u) i) eqn:Eu.
  - apply String.eqb_eq in Ew. apply String.eqb_eq in Eu.
    apply Hnotin. rewrite Ew, <- Eu. apply in_map. exact Hu.
  - rewrite Hf in Ht. apply (Hfree' u Hu). unfold tile in Ht. inversion Ht. auto.
  - rewrite Hf in Ht. apply (Hfree w (or_introl eq_refl)).
    unfold tile in Ht. inversion Ht. auto.
  - apply Hnotin'. rewrite <- Ht. apply in_map. exact Hu.
Qed.

Lemma Evolves_Orderly (Allowed : Z -> Z -> Prop) (us us' : list Unit) :
  Evolves Allowed us us' -> Orderly us -> Orderly us'.
Proof.
  induction 1 as [us | us1 us2 us3 _ IH1 _ IH2 | us c f Hf | us c | us i x y f _ Hfree Hf Hb].
  - intros Ho. exact Ho.
  - intros Ho. apply IH2, IH1, Ho.
  - intros (Hids & Htiles & Hbud). split; [|split].
    + rewrite map_map. erewrite map_ext; [exact Hids|].
      intros u. simpl. destruct (c u); [apply (Hf u) | reflexivity].
    + rewrite map_map. erewrite map_ext; [exact Htiles|].
      intros u. simpl. destruct (c u); [apply (Hf u) | reflexivity].
    + intros u Hu. apply in_map_iff in Hu. destruct Hu as [u0 [Hu Hin]]. subst u.
      destruct (c u0); [apply (Hf u0) | ]; apply (Hbud u0 Hin).
  - intros (Hids & Htiles & Hbud). split; [|split].
    + apply NoDup_map_filter. exact Hids.
    + apply NoDup_map_filter. exact Htiles.
    + intros u Hu. apply filter_In in Hu. apply (Hbud u (proj1 Hu)).
  - intros (Hids & Htiles & Hbud). split; [|split].
    + rewrite map_map. erewrite map_ext; [exact Hids|].
      intros u. simpl. destruct (String.eqb (u_id u) i); [apply (Hf u) | reflexivity].
    + apply (NoDup_tiles_move us i x y f); try assumption. intros u. apply (Hf u).
    + intros u Hu. apply in_map_iff in Hu. destruct Hu as [u0 [Hu Hin]]. subst u.
      destruct (String.eqb (u_id u0) i) eqn:E; [|apply (Hbud u0 Hin)].
      apply String.eqb_eq in E. apply (Hb u0 Hin E (Hbud u0 Hin)).
Qed.

Lemma Evolves_OnBoard (us us' : list Unit) :
  Evolves InBounds us us' -> OnBoard us -> OnBoard us'.
Proof.
  induction 1 as [us | us1 us2 us3 _ IH1 _ IH2 | us c f Hf | us c | us i x y f Hin _ Hf _];
    intros Hon; auto.
  - intros u Hu. apply in_map_iff in Hu. destruct Hu as [u0 [Hu Hu0]]. subst u.
    destruct (c u0); [|apply Hon; exact Hu0].
    destruct (Hf u0) as (_ & Ht & _). unfold tile in Ht. inversion Ht as [[Hx Hy]].
    rewrite Hx, Hy. apply Hon. exact Hu0.
  - intros u Hu. apply filter_In in Hu. apply Hon. tauto.
  - intros u Hu. apply in_map_iff in Hu. destruct Hu as [u0 [Hu Hu0]]. subst u.
    destruct (String.eqb (u_id u0) i); [|apply Hon; exact Hu0].
    destruct (Hf u0) as (_ & Ht). unfold tile in Ht. inversion Ht as [[Hx Hy]].
    rewrite Hx, Hy. exact Hin.
Qed.

Lemma Evolves_Descends (Allowed : Z -> Z -> Prop) (us us' : list Unit) :
  Evolves Allowed us us' -> Descends us us'.
Proof.
  induction 1 as [us | us1 us2 us3 _ IH1 _ IH2 | us c f Hf | us c | us i x y f _ _ Hf _];
    intros u' Hu'.
  - exists u'. split; [exact Hu' | apply SameUnit_refl].
  - destruct (IH2 u' Hu') as [v [Hv Hvu]]. destruct (IH1 v Hv) as [u [Hu Huv]].
    exists u. split; [exact Hu | exact (SameUnit_trans _ _ _ Huv Hvu)].
  - apply in_map_iff in Hu'. destruct Hu' as [u [Hq Hu]]. subst u'. exists u.
    split; [exact Hu|]. destruct (c u); [apply (Hf u) | apply SameUnit_refl].
  - apply filter_In in Hu'. exists u'. split; [tauto | apply SameUnit_refl].
  - apply in_map_iff in Hu'. destruct Hu' as [u [Hq Hu]]. subst u'. exists u.
    split; [exact Hu|].
    destruct (String.eqb (u_id u) i); [apply (Hf u) | apply SameUnit_refl].
Qed.

Lemma Evolves_length (Allowed : Z -> Z -> Prop) (us us' : list Unit) :
  Evolves Allowed us us' -> (List.length us' <= List.length us)%nat.
Proof.
  induction 1 as [us | us1 us2 us3 _ IH1 _ IH2 | us c f _ | us c | us i x y f _ _ _ _].
  - lia.
  - lia.
  - rewrite length_map. lia.
  - apply filter_length_le.
  - rewrite length_map. lia.
Qed.

Lemma Evolves_weaken (Allowed : Z -> Z -> Prop) (us us' : list Unit) :
  Evolves Allowed us us' -> Evolves (fun _ _ => True) us us'.
Proof.
  induction 1 as [us | us1 us2 us3 _ IH1 _ IH2 | us c f Hf | us c
                 | us i x y f _ Hfree Hf Hb].
  - apply ev_refl.
  - exact (ev_trans _ _ _ _ IH1 IH2).
  - apply ev_adjust. exact Hf.
  - apply ev_remove.
  - apply (ev_move (fun _ _ => True) us i x y f I Hfree Hf Hb).
Qed.

End Evolution.

(** ** The player's turn and the computer's run keep the units orderly *)

Section Orderliness.

Ltac same_units :=
  repeat match goal with
  | |- context [match ?x with _ => _ end] => destruct x
  end; reflexivity.

Lemma units_clickEnemy (c : Unit) (s : option Unit) (g : GameState) :
  units (clickEnemy c s g) = units g.
Proof. unfold clickEnemy. same_units. Qed.

Lemma units_clickOwn (c : Unit) (g : GameState) : units (clickOwn c g) = units g.
Proof. unfold clickOwn. same_units. Qed.

Lemma supports_clickEnemy (c : Unit) (s : option Unit) (g : GameState) :
  playerSupport (clickEnemy c s g) = playerSupport g
  /\ computerSupport (clickEnemy c s g) = computerSupport g.
Proof. unfold clickEnemy. split; same_units. Qed.

Lemma supports_clickOwn (c : Unit) (g : GameState) :
  playerSupport (clickOwn c g) = playerSupport g
  /\ computerSupport (clickOwn c g) = computerSupport g.
Proof. unfold clickOwn. split; same_units. Qed.

(** A valid move goes to a free tile of the board. *)
Lemma isValidMove_free (unit : Unit) (x y : Z) (us : list Unit) :
  isValidMove unit x y us = true -> InBounds x y /\ Unoccupied us x y.
Proof.
  unfold isValidMove, InBounds, GRID_SIZE.
  destruct ((x <? 1) || (x >? 7) || (y <? 1) || (y >? 7)) eqn:Eb; [discriminate|].
  destruct (getUnitAt us x y) eqn:Eo; [discriminate|].
  intros _. zify_tests. split; [lia|]. apply getUnitAt_None. exact Eo.
Qed.

Lemma findById_In (us : list Unit) (i : string) (u : Unit) :
  findById us i = Some u -> In u us /\ u_id u = i.
Proof.
  unfold findById. intros Hf. apply find_some in Hf. destruct Hf as [Hin Hi].
  apply String.eqb_eq in Hi. auto.
Qed.

Lemma findSelected_In (g : GameState) (u : Unit) :
  findSelected g = Some u -> In u (units g).
Proof.
  unfold findSelected. destruct (selectedUnitId g); [|discriminate].
  intros Hf. apply findById_In in Hf. tauto.
Qed.

Lemma clickEmpty_Evolves (sel : Unit) (x y : Z) (g : GameState) :
  NoDup (map u_id (units g)) -> In sel (units g) ->
  Evolves InBounds (units g) (units (clickEmpty sel x y g)).
Proof.
  intros Hids Hsel. unfold clickEmpty.
  destruct (pendingIncludes g (u_id sel)); [apply ev_refl|].
  destruct (isValidMove sel x y (units g)) eqn:Ev; [|apply ev_refl].
  destruct (u_movesLeft sel >=? _) eqn:Em; [|apply ev_refl].
  apply isValidMove_free in Ev. destruct Ev as [Hin Hfree]. zify_tests.
  unfold executeMove. simpl units.
  apply (ev_move InBounds (units g) (u_id sel) x y
           (fun u => set_position x y (moveRotation sel x y)
                       (u_movesLeft u
                        - (Z.abs (u_x sel - x) + Z.abs (u_y sel - y))) false u)
           Hin Hfree).
  - intros u. split; [unfold SameUnit; repeat split | reflexivity].
  - intros u Hu Hid (Hm & Ha).
    assert (u = sel) by (apply (unique_by_id (units g)); assumption). subst u.
    unfold budgetOk. simpl. lia.
Qed.

Lemma handleGameInteraction_Evolves (x y : Z) (g : GameState) :
  NoDup (map u_id (units g)) ->
  Evolves InBounds (units g) (units (handleGameInteraction x y g)).
Proof.
  intros Hids. unfold handleGameInteraction.
  destruct (getUnitAt (units g) x y) as [clicked|].
  - destruct (u_player clicked).
    + rewrite units_clickOwn. apply ev_refl.
    + rewrite units_clickEnemy. apply ev_refl.
  - destruct (findSelected g) as [sel|] eqn:Es; [|apply ev_refl].
    apply clickEmpty_Evolves; [exact Hids | apply findSelected_In; exact Es].
Qed.

Lemma executeRotate_Evolves (Allowed : Z -> Z -> Prop) (d : Turning) (g : GameState) :
  Evolves Allowed (units g) (units (executeRotate d g)).
Proof.
  unfold executeRotate. destruct (findSelected g) as [unit|]; [|apply ev_refl].
  destruct (pendingIncludes g (u_id unit)); [apply ev_refl|].
  destruct (negb (canRotate unit)); [apply ev_refl|]. simpl units.
  apply (ev_adjust Allowed (units g) (fun u => String.eqb (u_id u) (u_id unit))
           (fun u => set_rotation
                       match d with
                       | turn_left => Direction_of_num ((Direction_num (u_rotation u) + 3) mod 4)
                       | turn_right => Direction_of_num ((Direction_num (u_rotation u) + 1) mod 4)
                       end true u)).
  intros u. split; [unfold SameUnit; repeat split|]. split; [reflexivity|].
  intros Hb. exact Hb.
Qed.

Lemma spend_Evolves (Allowed : Z -> Z -> Prop) (c : Unit -> bool) (us : list Unit) :
  Evolves Allowed us
    (map (fun u => if c u
                   then set_budget (Z.max 0 (u_movesLeft u)) 0 (u_hasRotated u) u
                   else u) us).
Proof.
  apply (ev_adjust Allowed us c
           (fun u => set_budget (Z.max 0 (u_movesLeft u)) 0 (u_hasRotated u) u)).
  intros u. split; [unfold SameUnit; repeat split|]. split; [reflexivity|].
  unfold budgetOk. simpl. lia.
Qed.

Lemma resolveMultiAttack_Evolves (Allowed : Z -> Z -> Prop) (attackers : list Unit)
    (defender : Unit) (g : GameState) :
  Evolves Allowed (units g) (units (resolveMultiAttack attackers defender g)).
Proof.
  unfold resolveMultiAttack.
  destruct (isEmpty _); [apply ev_refl|].
  destruct (findById (units g) (u_id defender)) as [curDefender|]; [|apply ev_refl].
  simpl units.
  destruct (r_winner _).
  - eapply ev_trans; [apply spend_Evolves | apply ev_remove].
  - eapply ev_trans; [apply spend_Evolves | apply ev_remove].
  - apply spend_Evolves.
Qed.

Lemma confirmPendingAttack_Evolves (Allowed : Z -> Z -> Prop) (g : GameState) :
  Evolves Allowed (units g) (units (confirmPendingAttack g)).
Proof.
  unfold confirmPendingAttack. destruct (pendingAttack g) as [pa|]; [|apply ev_refl].
  destruct (isEmpty (pa_attackerIds pa)); [apply ev_refl|].
  destruct (findById _ _) as [t|]; [|apply ev_refl].
  destruct (isEmpty _); [apply ev_refl|].
  unfold executeMultiAttack. rewrite units_checkWinCondition.
  apply (resolveMultiAttack_Evolves Allowed _ _
           (set_combatState _ (set_pendingAttack None g))).
Qed.

Lemma resetSide_Evolves (Allowed : Z -> Z -> Prop) (side : Player) (us : list Unit) :
  Evolves Allowed us (resetSide side us).
Proof.
  unfold resetSide.
  apply (ev_adjust Allowed us (fun u => Player_eqb (u_player u) side)
           (fun u => set_budget (u_maxMoves u) 1 false u)).
  intros u. split; [unfold SameUnit; repeat split|]. split; [reflexivity|].
  unfold budgetOk. simpl. lia.
Qed.

Lemma perform_Evolves (g : GameState) (a : PlayerAction) :
  NoDup (map u_id (units g)) ->
  Evolves InBounds (units g) (units (perform g a)).
Proof.
  intros Hids. destruct a; simpl.
  - apply handleGameInteraction_Evolves. exact Hids.
  - apply executeRotate_Evolves.
  - apply confirmPendingAttack_Evolves.
  - apply ev_refl.
  - apply resetSide_Evolves.
Qed.

Lemma supports_checkWinCondition (g : GameState) :
  playerSupport (checkWinCondition g) = playerSupport g
  /\ computerSupport (checkWinCondition g) = computerSupport g.
Proof. unfold checkWinCondition. split; same_units. Qed.

Lemma perform_supports (g : GameState) (a : PlayerAction) :
  playerSupport (perform g a) = playerSupport g
  /\ computerSupport (perform g a) = computerSupport g.
Proof.
  destruct a; simpl.
  - unfold handleGameInteraction.
    destruct (getUnitAt (units g) x y) as [clicked|].
    + destruct (u_player clicked); [apply supports_clickOwn | apply supports_clickEnemy].
    + destruct (findSelected g) as [sel|]; [|split; reflexivity].
      unfold clickEmpty. split; same_units.
  - unfold executeRotate. split; same_units.
  - unfold confirmPendingAttack.
    destruct (pendingAttack g) as [pa|]; [|split; reflexivity].
    destruct (isEmpty (pa_attackerIds pa)); [split; reflexivity|].
    destruct (findById _ _) as [t|]; [|split; reflexivity].
    destruct (isEmpty _); [split; reflexivity|].
    unfold executeMultiAttack.
    destruct (supports_checkWinCondition
                (resolveMultiAttack (filter (fun u => includes (pa_attackerIds pa) (u_id u))
                                       (units g)) t
                   (set_combatState
                      (Some (mkCombatState
                               (map u_id (filter (fun u => includes (pa_attackerIds pa) (u_id u))
                                            (units g))) (u_id t)))
                      (set_pendingAttack None g)))) as [Hp Hc].
    rewrite Hp, Hc. unfold resolveMultiAttack. split; same_units.
  - split; reflexivity.
  - split; reflexivity.
Qed.

(** X8. From an orderly position on the board (no identifier twice, no
    two units on one tile, every budget within its limits, every unit on
    the board), whatever the player does in its turn leaves an orderly
    position on the board; no unit is added, every unit left is one of the
    former units with its identifier, kind and side, and the support lines
    of both sides stay as they are. *)
Theorem player_turn_keeps_order (actions : list PlayerAction) (g : GameState) :
  Orderly (units g) -> OnBoard (units g) ->
  let g' := fold_left perform actions g in
  Orderly (units g') /\ OnBoard (units g')
  /\ Descends (units g) (units g')
  /\ (List.length (units g') <= List.length (units g))%nat
  /\ playerSupport g' = playerSupport g /\ computerSupport g' = computerSupport g.
Proof.
  intros Ho Hb. cbv zeta.
  assert (He : Evolves InBounds (units g) (units (fold_left perform actions g))
               /\ playerSupport (fold_left perform actions g) = playerSupport g
               /\ computerSupport (fold_left perform actions g) = computerSupport g).
  { revert g Ho Hb. induction actions as [|a rest IH]; intros g Ho Hb; simpl.
    - split; [apply ev_refl | split; reflexivity].
    - pose proof (perform_Evolves g a (proj1 Ho)) as Hstep.
      destruct (IH (perform g a) (Evolves_Orderly _ _ _ Hstep Ho)
                  (Evolves_OnBoard _ _ Hstep Hb)) as (Hrest & Hp & Hc).
      destruct (perform_supports g a) as [Hp' Hc'].
      split; [exact (ev_trans _ _ _ _ Hstep Hrest) | split; congruence]. }
  destruct He as (He & Hp & Hc).
  split; [exact (Evolves_Orderly _ _ _ He Ho)|].
  split; [exact (Evolves_OnBoard _ _ He Hb)|].
  split; [exact (Evolves_Descends _ _ _ He)|].
  split; [exact (Evolves_length _ _ _ He) | split; assumption].
Qed.

End Orderliness.

Section ComputerOrder.

Ltac same_field :=
  repeat match goal with
  | |- context [match ?x with _ => _ end] => destruct x
  end; reflexivity.

Lemma computerMove_Evolves (i : string) (t : Coordinate) (g : GameState) :
  Evolves (fun _ _ => True) (units g) (units (computerMove i t g)).
Proof.
  unfold computerMove. destruct (findById (units g) i) as [unit|]; [|apply ev_refl].
  destruct (getUnitAt (units g) (c_x t) (c_y t)) eqn:Eo; [apply ev_refl|].
  apply getUnitAt_None in Eo. simpl units.
  apply (ev_move (fun _ _ => True) (units g) (u_id unit) (c_x t) (c_y t)
           (fun u => set_position (c_x t) (c_y t) (moveRotation unit (c_x t) (c_y t))
                       (Z.max 0 (u_movesLeft u
                                 - (Z.abs (u_x unit - c_x t) + Z.abs (u_y unit - c_y t))))
                       (u_hasRotated u) u) I Eo).
  - intros u. split; [unfold SameUnit; repeat split | reflexivity].
  - intros u _ _. unfold budgetOk. simpl. lia.
Qed.

Lemma computerRotate_Evolves (i : string) (d : Direction) (g : GameState) :
  Evolves (fun _ _ => True) (units g) (units (computerRotate i d g)).
Proof.
  unfold computerRotate. destruct (findById (units g) i) as [unit|]; [|apply ev_refl].
  simpl units.
  apply (ev_adjust _ (units g) (fun u => String.eqb (u_id u) (u_id unit))
           (fun u => set_rotation d (u_hasRotated u) u)).
  intros u. split; [unfold SameUnit; repeat split|]. split; [reflexivity|].
  intros Hb. exact Hb.
Qed.

Lemma exhaust_Evolves (c : Unit -> bool) (us : list Unit) :
  Evolves (fun _ _ => True) us
    (map (fun u => if c u then set_budget (u_movesLeft u) 0 (u_hasRotated u) u else u) us).
Proof.
  apply (ev_adjust _ us c (fun u => set_budget (u_movesLeft u) 0 (u_hasRotated u) u)).
  intros u. split; [unfold SameUnit; repeat split|]. split; [reflexivity|].
  unfold budgetOk. simpl. lia.
Qed.

Lemma computerAttack_Evolves (i : string) (t : Coordinate) (g : GameState) :
  Evolves (fun _ _ => True) (units g) (units (computerAttack i t g)).
Proof.
  unfold computerAttack.
  destruct (findById (units g) i) as [attacker|] eqn:Ea; [|apply ev_refl].
  destruct (getUnitAt (units g) (c_x t) (c_y t)) as [defender|] eqn:Ed; [|apply ev_refl].
  unfold resolveComputerAttack. simpl units. rewrite Ea, Ed. simpl units.
  destruct (r_winner _).
  - eapply ev_trans; [apply ev_remove|].
    destruct (existsb _ _); [apply exhaust_Evolves | apply ev_refl].
  - eapply ev_trans; [apply ev_remove|].
    destruct (existsb _ _); [apply exhaust_Evolves | apply ev_refl].
  - destruct (existsb _ _); [apply exhaust_Evolves | apply ev_refl].
Qed.

Lemma applyAction_Evolves (action : AIAction) (g : GameState) :
  Evolves (fun _ _ => True) (units g) (units (applyAction action g)).
Proof.
  unfold applyAction.
  destruct (a_actionType action), (a_target action) as [t|],
           (a_direction action) as [d|];
    try apply ev_refl; try apply computerMove_Evolves;
    try apply computerRotate_Evolves; apply computerAttack_Evolves.
Qed.

Lemma applyAction_supports (action : AIAction) (g : GameState) :
  playerSupport (applyAction action g) = playerSupport g
  /\ computerSupport (applyAction action g) = computerSupport g.
Proof.
  unfold applyAction, computerMove, computerRotate, computerAttack, resolveComputerAttack.
  split; same_field.
Qed.

Lemma runPlan_Evolves (plan : list AIAction) (g : GameState) :
  Evolves (fun _ _ => True) (units g) (units (runPlan plan g))
  /\ playerSupport (runPlan plan g) = playerSupport g
  /\ computerSupport (runPlan plan g) = computerSupport g.
Proof.
  revert g. induction plan as [|action rest IH]; intros g; simpl.
  - split; [apply ev_refl | split; reflexivity].
  - assert (Hgo : Evolves (fun _ _ => True) (units g)
                    (units (runPlan rest (applyAction action g)))
                  /\ playerSupport (runPlan rest (applyAction action g)) = playerSupport g
                  /\ computerSupport (runPlan rest (applyAction action g))
                     = computerSupport g).
    { destruct (IH (applyAction action g)) as (He & Hp & Hc).
      destruct (applyAction_supports action g) as [Hp' Hc'].
      split; [exact (ev_trans _ _ _ _ (applyAction_Evolves action g) He)
             | split; congruence]. }
    destruct (a_actionType action); try exact Hgo.
    split; [apply ev_refl | split; reflexivity].
Qed.

Lemma finishComputerTurn_supports (g : GameState) :
  playerSupport (finishComputerTurn g) = playerSupport g
  /\ computerSupport (finishComputerTurn g) = computerSupport g.
Proof.
  unfold finishComputerTurn.
  destruct (negb (existsb _ (resetSide computer (units g))));
    destruct (negb (existsb _ (resetSide computer (units g)))); split; reflexivity.
Qed.

(** X9. Whatever plan the computer runs, legal or not, an orderly
    position stays orderly (no identifier twice, no two units on one
    tile, every budget within its limits), no unit is added, every unit
    left is one of the former units with its identifier, kind and side,
    and the support lines of both sides stay as they are. *)
Theorem computer_run_keeps_order (plan : list AIAction) (g : GameState) :
  let g' := finishComputerTurn (runPlan plan g) in
  (Orderly (units g) -> Orderly (units g'))
  /\ Descends (units g) (units g')
  /\ (List.length (units g') <= List.length (units g))%nat
  /\ playerSupport g' = playerSupport g /\ computerSupport g' = computerSupport g.
Proof.
  cbv zeta.
  destruct (runPlan_Evolves plan g) as (He & Hp & Hc).
  destruct (finishComputerTurn_fields (runPlan plan g)) as [Hu _].
  destruct (finishComputerTurn_supports (runPlan plan g)) as [Hp' Hc'].
  assert (Hall : Evolves (fun _ _ => True) (units g)
                   (units (finishComputerTurn (runPlan plan g)))).
  { rewrite Hu. exact (ev_trans _ _ _ _ He (resetSide_Evolves _ computer _)). }
  split; [exact (Evolves_Orderly _ _ _ Hall)|].
  split; [exact (Evolves_Descends _ _ _ Hall)|].
  split; [exact (Evolves_length _ _ _ Hall) | split; congruence].
Qed.

End ComputerOrder.

Section OrderSamples.

Import Scenarios.

Lemma two_units_orderly (u v : Unit) :
  u_id u <> u_id v -> tile u <> tile v -> budgetOk u -> budgetOk v -> Orderly [u; v].
Proof.
  intros Hid Ht Hu Hv. unfold Orderly. simpl. split; [|split].
  - constructor; [intros [Hq|[]]; apply Hid; symmetry; exact Hq|].
    constructor; [intros []|constructor].
  - constructor; [intros [Hq|[]]; apply Ht; symmetry; exact Hq|].
    constructor; [intros []|constructor].
  - intros w [Hq|[Hq|[]]]; subst w; [exact Hu | exact Hv].
Defined.

(** The infantry steps forward, tries to turn and the turn ends. *)
Lemma player_turn_keeps_order_witness :
  Orderly (units (fold_left perform [Click 4 5; Rotate turn_left; EndTurn]
                    (gameState playerToMove)))
  /\ OnBoard (units (fold_left perform [Click 4 5; Rotate turn_left; EndTurn]
                       (gameState playerToMove))).
Proof.
  assert (Ho : Orderly (units (gameState playerToMove))).
  { apply two_units_orderly;
      [discriminate | vm_compute; discriminate
      | unfold budgetOk; cbn; lia | unfold budgetOk; cbn; lia]. }
  assert (Hb : OnBoard (units (gameState playerToMove))).
  { intros u [Hu|[Hu|[]]]; subst u; unfold InBounds; simpl; lia. }
  split.
  - apply (proj1 (player_turn_keeps_order [Click 4 5; Rotate turn_left; EndTurn]
                    (gameState playerToMove) Ho Hb)).
  - apply (proj1 (proj2 (player_turn_keeps_order [Click 4 5; Rotate turn_left; EndTurn]
                           (gameState playerToMove) Ho Hb))).
Defined.

(** The raid, illegal as it is, leaves an orderly position. *)
Lemma computer_run_keeps_order_witness :
  Orderly (units (finishComputerTurn (runPlan raidPlan beforeRaid))).
Proof.
  apply (proj1 (computer_run_keeps_order raidPlan beforeRaid)).
  apply two_units_orderly;
    [discriminate | vm_compute; discriminate
    | unfold budgetOk; cbn; lia | unfold budgetOk; cbn; lia].
Defined.

End OrderSamples.

(** ** Turning, moving and the facing of a unit *)

Section Facing.

Lemma turn_round_trip (r : Direction) :
  Direction_of_num ((Direction_num (Direction_of_num ((Direction_num r + 3) mod 4)) + 1) mod 4)
    = r
  /\ Direction_of_num
       ((Direction_num (Direction_of_num ((Direction_num r + 1) mod 4)) + 3) mod 4) = r.
Proof. destruct r; split; reflexivity. Qed.

(** Looking a unit up after an update that keeps the identifiers. *)
Lemma findById_map (h : Unit -> Unit) (us : list Unit) (i : string) :
  (forall u, u_id (h u) = u_id u) ->
  findById (map h us) i = option_map h (findById us i).
Proof.
  intros Hid. unfold findById. induction us as [|u us IH]; simpl; [reflexivity|].
  rewrite Hid. destruct (String.eqb (u_id u) i); [reflexivity | exact IH].
Qed.

(** [executeRotate] either leaves the units as they are or turns the
    units that carry the selected identifier. *)
Lemma executeRotate_units (d : Turning) (g : GameState) :
  (units (executeRotate d g) = units g
   /\ forall d', units (executeRotate d' (executeRotate d g)) = units g)
  \/ exists unit, findSelected g = Some unit
       /\ pendingIncludes g (u_id unit) = false /\ canRotate unit = true
       /\ executeRotate d g
          = set_units (map (fun u => if String.eqb (u_id u) (u_id unit)
                                     then turned d u else u) (units g)) g.
Proof.
  unfold executeRotate. destruct (findSelected g) as [unit|] eqn:Es.
  - destruct (pendingIncludes g (u_id unit)) eqn:Ep.
    + left. split; [reflexivity|]. intros d'.
      assert (Hs : findSelected (addLog "Cannot rotate while preparing to attack." g)
                   = Some unit) by exact Es.
      rewrite Hs. simpl. unfold pendingIncludes in *. simpl. rewrite Ep. reflexivity.
    + destruct (canRotate unit) eqn:Ec; simpl.
      * right. exists unit. split; [reflexivity|]. split; [exact Ep|].
        split; [exact Ec|]. destruct d; reflexivity.
      * left. split; [reflexivity|]. intros d'.
        assert (Hs : findSelected
                       (addLog "Cannot rotate (Need at least 1 move remaining)." g)
                     = Some unit) by exact Es.
        rewrite Hs. unfold pendingIncludes in *. simpl. rewrite Ep, Ec. reflexivity.
  - left. split; [reflexivity|]. intros d'. rewrite Es. reflexivity.
Qed.

(** X10. A quarter turn followed by the opposite quarter turn leaves every
    unit facing as before, whether the turns were carried out or refused;
    and a turn never moves a unit nor costs it anything. *)
Theorem executeRotate_round_trip (d : Turning) (g : GameState) :
  map u_rotation (units (executeRotate (counterTurn d) (executeRotate d g)))
    = map u_rotation (units g)
  /\ map tile (units (executeRotate d g)) = map tile (units g)
  /\ map budget (units (executeRotate d g)) = map budget (units g).
Proof.
  destruct (executeRotate_units d g) as [[Hsame Hagain]|(unit & Hs & Hp & Hc & Hrot)].
  - rewrite Hagain, Hsame. repeat split.
  - assert (Hid : forall u, u_id (if String.eqb (u_id u) (u_id unit) then turned d u else u)
                            = u_id u)
      by (intros u; destruct (String.eqb (u_id u) (u_id unit)); reflexivity).
    split; [|split].
    + rewrite Hrot. unfold executeRotate at 1.
      assert (Hsel : findSelected
                (set_units (map (fun u => if String.eqb (u_id u) (u_id unit)
                                          then turned d u else u) (units g)) g)
              = Some (turned d unit)).
      { unfold findSelected in *. simpl. destruct (selectedUnitId g) as [i|]; [|discriminate].
        rewrite (findById_map _ _ _ Hid), Hs. simpl.
        destruct (findById_In _ _ _ Hs) as [_ Hi].
        rewrite String.eqb_refl. reflexivity. }
      rewrite Hsel.
      assert (Hp' : pendingIncludes
                (set_units (map (fun u => if String.eqb (u_id u) (u_id unit)
                                          then turned d u else u) (units g)) g)
                (u_id (turned d unit)) = false) by exact Hp.
      rewrite Hp'.
      assert (Hc' : canRotate (turned d unit) = true) by exact Hc.
      rewrite Hc'. simpl. rewrite !map_map. apply map_ext. intros u.
      destruct (String.eqb (u_id u) (u_id unit)) eqn:E; simpl; rewrite E; [|reflexivity].
      destruct d; simpl; apply turn_round_trip.
    + rewrite Hrot. simpl. rewrite map_map. apply map_ext. intros u.
      destruct (String.eqb (u_id u) (u_id unit)); reflexivity.
    + rewrite Hrot. simpl. rewrite map_map. apply map_ext. intros u.
      destruct (String.eqb (u_id u) (u_id unit)); reflexivity.
Qed.

(** X11. A valid move is made along the direction the unit faces once it
    has moved: the displacement is the new facing vector, taken once for a
    step and twice for a charge, so the cost of the move is the number of
    tiles crossed in that direction. *)
Theorem move_faces_direction_of_travel (unit : Unit) (x y : Z) (us : list Unit) :
  isValidMove unit x y us = true ->
  let v := getVectorForRotation (moveRotation unit x y) in
  let dist := Z.abs (u_x unit - x) + Z.abs (u_y unit - y) in
  x - u_x unit = dist * c_x v /\ y - u_y unit = dist * c_y v /\ 1 <= dist <= 2.
Proof.
  unfold isValidMove, moveRotation. cbv zeta.
  destruct (_ || _); [discriminate|].
  destruct (getUnitAt us x y); [discriminate|].
  destruct (Z.abs (x - u_x unit) + Z.abs (y - u_y unit) =? 1) eqn:E1.
  - intros _. zify_tests.
    destruct (y <? u_y unit) eqn:A; [zify_tests; simpl; lia|].
    destruct (x >? u_x unit) eqn:B; [zify_tests; simpl; lia|].
    destruct (y >? u_y unit) eqn:C; [zify_tests; simpl; lia|].
    destruct (x <? u_x unit) eqn:D; zify_tests; simpl; lia.
  - destruct (UnitType_eqb (u_type unit) CAVALRY && (u_movesLeft unit >=? 2)
              && (Z.abs (x - u_x unit) + Z.abs (y - u_y unit) =? 2)); [|discriminate].
    destruct ((x - u_x unit =? c_x (getVectorForRotation (u_rotation unit)) * 2)
              && (y - u_y unit =? c_y (getVectorForRotation (u_rotation unit)) * 2)) eqn:Ed;
      [|discriminate].
    intros _. zify_tests.
    destruct (u_rotation unit); simpl in *;
      destruct (y <? u_y unit) eqn:A; zify_tests; simpl; try lia;
      destruct (x >? u_x unit) eqn:B; zify_tests; simpl; try lia;
      destruct (y >? u_y unit) eqn:C; zify_tests; simpl; try lia;
      destruct (x <? u_x unit) eqn:D; zify_tests; simpl; lia.
Qed.

(** The lancer charges north. *)
Lemma move_faces_direction_of_travel_witness :
  4 - u_x (Scenarios.lancer 2)
    = 2 * c_x (getVectorForRotation (moveRotation (Scenarios.lancer 2) 4 3))
  /\ 3 - u_y (Scenarios.lancer 2)
      = 2 * c_y (getVectorForRotation (moveRotation (Scenarios.lancer 2) 4 3))
  /\ 1 <= 2 <= 2.
Proof.
  exact (move_faces_direction_of_travel (Scenarios.lancer 2) 4 3 [Scenarios.lancer 2]
           eq_refl).
Defined.

End Facing.

(** ** Attacks spend the attack, plans stop at their end marker *)

Section Spending.




(** X13. A plan is run up to its first end marker: whatever follows the
    marker is never applied. *)
Theorem runPlan_stops_at_end_turn (before after : list AIAction) (i : string)
    (t : option Coordinate) (d : option Direction) (g : GameState) :
  runPlan (before ++ mkAIAction i act_end_turn t d :: after) g = runPlan before g.
Proof.
  revert g. induction before as [|a rest IH]; intros g; simpl; [reflexivity|].
  destruct (a_actionType a); try apply IH. reflexivity.
Qed.

(** X14. The step the second copy of the planner simulates for a move is
    the step the computer's run applies: after a move action that is not
    dropped, the unit of that identifier is [simulateMove] of the unit it
    was. *)
Theorem computerMove_is_simulateMove (i : string) (t : Coordinate) (g : GameState)
    (unit : Unit) :
  findById (units g) i = Some unit ->
  getUnitAt (units g) (c_x t) (c_y t) = None ->
  findById (units (applyAction (mkAIAction i act_move (Some t) None) g)) i
  = Some (AiLogicOwned.simulateMove unit (c_x t) (c_y t)).
Proof.
  intros Hu Ho. unfold applyAction. simpl. unfold computerMove. rewrite Hu, Ho.
  simpl units. rewrite findById_map.
  - rewrite Hu. simpl. destruct (findById_In _ _ _ Hu) as [_ Hi].
    rewrite String.eqb_refl. reflexivity.
  - intros u. destruct (String.eqb (u_id u) (u_id unit)); reflexivity.
Qed.

Lemma computerMove_is_simulateMove_witness :
  findById (units (applyAction Scenarios.raidMove Scenarios.beforeRaid)) "c1"
  = Some (AiLogicOwned.simulateMove Scenarios.raider 4 6).
Proof.
  exact (computerMove_is_simulateMove "c1" (mkCoordinate 4 6) Scenarios.beforeRaid
           Scenarios.raider eq_refl eq_refl).
Defined.

End Spending.

(** ** The highlights and the clicks *)

Section Highlights.

Lemma In_allTiles (x y : Z) : In (mkCoordinate x y) allTiles <-> InBounds x y.
Proof.
  unfold allTiles, InBounds, GRID_SIZE.
  change (Z.to_nat (7 * 7)) with 49%nat. rewrite in_map_iff. split.
  - intros [i [Hc Hi]]. apply in_seq in Hi. inversion Hc; subst x y.
    pose proof (Z.mod_pos_bound (Z.of_nat i) 7 ltac:(lia)).
    assert (0 <= Z.of_nat i / 7) by (apply Z.div_pos; lia).
    assert (Z.of_nat i / 7 < 7) by (apply Z.div_lt_upper_bound; lia).
    lia.
  - intros [Hx Hy]. exists (Z.to_nat (7 * (y - 1) + (x - 1))). split.
    + rewrite Z2Nat.id by lia. f_equal.
      * rewrite <- (Z.mod_unique_pos (7 * (y - 1) + (x - 1)) 7 (y - 1) (x - 1)); lia.
      * rewrite <- (Z.div_unique_pos (7 * (y - 1) + (x - 1)) 7 (y - 1) (x - 1)); lia.
    + apply in_seq. lia.
Qed.

(** The cost of a valid move is 1, or 2 for a charge, which needs two
    moves. *)
Lemma isValidMove_cost (unit : Unit) (x y : Z) (us : list Unit) :
  isValidMove unit x y us = true ->
  let dist := Z.abs (u_x unit - x) + Z.abs (u_y unit - y) in
  dist = 1 \/ (dist = 2 /\ 2 <= u_movesLeft unit).
Proof.
  unfold isValidMove. cbv zeta.
  destruct (_ || _); [discriminate|].
  destruct (getUnitAt us x y); [discriminate|].
  destruct (Z.abs (x - u_x unit) + Z.abs (y - u_y unit) =? 1) eqn:E1.
  - intros _. zify_tests. left. lia.
  - destruct (UnitType_eqb (u_type unit) CAVALRY && (u_movesLeft unit >=? 2)
              && (Z.abs (x - u_x unit) + Z.abs (y - u_y unit) =? 2)) eqn:Ec; [|discriminate].
    intros _. zify_tests. right. lia.
Qed.

Lemma findSelected_findById (g : GameState) (sel : Unit) :
  findSelected g = Some sel -> findById (units g) (u_id sel) = Some sel.
Proof.
  unfold findSelected. destruct (selectedUnitId g) as [i|]; [|discriminate].
  intros Hf. destruct (findById_In _ _ _ Hf) as [_ Hi]. rewrite Hi. exact Hf.
Qed.

(** X15. In the player's turn with no attack staged, the tiles highlighted
    as moves are exactly the tiles on which a click moves the selected
    unit: after the click the unit stands on the tile and has paid for
    the move. *)
Theorem validMoves_are_the_moves (g : GameState) (sel : Unit) (x y : Z) :
  turn g = turn_of player -> pendingAttack g = None -> findSelected g = Some sel ->
  (In (mkCoordinate x y) (validMoves g) <->
   exists u', findById (units (handleGameInteraction x y g)) (u_id sel) = Some u'
              /\ tile u' = (x, y) /\ u_movesLeft u' < u_movesLeft sel).
Proof.
  intros Ht Hp Hs. pose proof (findSelected_findById g sel Hs) as Hfind.
  unfold validMoves. rewrite Hs, Ht, Hp. rewrite filter_In, In_allTiles. simpl c_x. simpl c_y.
  assert (Hpi : pendingIncludes g (u_id sel) = false)
    by (unfold pendingIncludes; rewrite Hp; reflexivity).
  assert (Hmoved : isValidMove sel x y (units g) = true ->
            (u_movesLeft sel >=? Z.abs (u_x sel - x) + Z.abs (u_y sel - y)) = true ->
            handleGameInteraction x y g
            = executeMove sel x y (Z.abs (u_x sel - x) + Z.abs (u_y sel - y)) g).
  { intros Hv Hm. unfold handleGameInteraction.
    destruct (isValidMove_free _ _ _ _ Hv) as [_ Hfree].
    apply getUnitAt_None in Hfree. rewrite Hfree, Hs.
    unfold clickEmpty. rewrite Hpi, Hv, Hm. reflexivity. }
  assert (Hafter : forall cost,
            findById (units (executeMove sel x y cost g)) (u_id sel)
            = Some (set_position x y (moveRotation sel x y) (u_movesLeft sel - cost)
                      false sel)).
  { intros cost. unfold executeMove. simpl units. rewrite findById_map.
    - rewrite Hfind. simpl. rewrite String.eqb_refl. reflexivity.
    - intros u. destruct (String.eqb (u_id u) (u_id sel)); reflexivity. }
  split.
  - intros [_ Hc]. apply andb_true_iff in Hc. destruct Hc as [Hv Hm].
    pose proof (isValidMove_cost _ _ _ _ Hv) as Hcost. cbv zeta in Hcost.
    assert (Hm' : (u_movesLeft sel >=? Z.abs (u_x sel - x) + Z.abs (u_y sel - y)) = true).
    { rewrite Z.geb_leb. apply Z.leb_le. rewrite Z.gtb_ltb in Hm. apply Z.ltb_lt in Hm. lia. }
    rewrite (Hmoved Hv Hm'), Hafter. eexists. split; [reflexivity|].
    split; [reflexivity|]. simpl. lia.
  - intros (u' & Hu' & Htile & Hless).
    assert (Hsame : units (handleGameInteraction x y g) = units g -> False).
    { intros Hq. rewrite Hq, Hfind in Hu'. inversion Hu'; subst u'. lia. }
    unfold handleGameInteraction in Hsame, Hu'.
    destruct (getUnitAt (units g) x y) as [clicked|] eqn:Eo.
    { exfalso. apply Hsame. destruct (u_player clicked);
        [apply units_clickOwn | apply units_clickEnemy]. }
    rewrite Hs in Hsame, Hu'. unfold clickEmpty in Hsame, Hu'. rewrite Hpi in Hsame, Hu'.
    destruct (isValidMove sel x y (units g)) eqn:Ev; [|exfalso; apply Hsame; reflexivity].
    destruct (u_movesLeft sel >=? _) eqn:Em; [|exfalso; apply Hsame; reflexivity].
    destruct (isValidMove_free _ _ _ _ Ev) as [Hin _].
    pose proof (isValidMove_cost _ _ _ _ Ev) as Hcost. cbv zeta in Hcost.
    split; [exact Hin|]. apply andb_true_iff. split; [reflexivity|].
    rewrite Z.gtb_ltb. apply Z.ltb_lt. zify_tests. lia.
Qed.

(** The selected infantry at (4,6) may step to (4,5). *)
Lemma validMoves_are_the_moves_witness :
  In (mkCoordinate 4 5) (validMoves (gameState Scenarios.playerToMove)) <->
  exists u', findById (units (handleGameInteraction 4 5 (gameState Scenarios.playerToMove)))
               (u_id Scenarios.farInfantry) = Some u'
             /\ tile u' = (4, 5) /\ u_movesLeft u' < u_movesLeft Scenarios.farInfantry.
Proof.
  exact (validMoves_are_the_moves (gameState Scenarios.playerToMove) Scenarios.farInfantry
           4 5 eq_refl eq_refl eq_refl).
Defined.

End Highlights.

Section TargetHighlights.

Lemma unique_by_tile (us : list Unit) (u v : Unit) :
  NoDup (map tile us) -> In u us -> In v us -> tile u = tile v -> u = v.
Proof.
  induction us as [|w us IH]; simpl; intros Hnd Hu Hv Ht; [destruct Hu|].
  inversion Hnd as [|k ks Hnotin Hnd']; subst.
  destruct Hu as [Hu|Hu], Hv as [Hv|Hv]; subst.
  - reflexivity.
  - exfalso. apply Hnotin. rewrite Ht. apply in_map. exact Hv.
  - exfalso. apply Hnotin. rewrite <- Ht. apply in_map. exact Hu.
  - apply IH; assumption.
Qed.

(** X16. In the player's turn, with a unit of the player selected and no
    two units on one tile, a click on a tile highlighted as a target
    stages the attack: afterwards the pending attack aims at the unit on
    that tile, which the selected unit can attack, and counts the
    selected unit among its attackers. *)
Theorem validTargets_stage_the_attack (g : GameState) (sel : Unit) (x y : Z) :
  turn g = turn_of player -> findSelected g = Some sel -> u_player sel = player ->
  NoDup (map tile (units g)) ->
  In (mkCoordinate x y) (validTargets g) ->
  exists e pa,
    getUnitAt (units g) x y = Some e /\ canAttack sel e (units g) = true
    /\ pendingAttack (handleGameInteraction x y g) = Some pa
    /\ pa_targetId pa = u_id e /\ In (u_id sel) (pa_attackerIds pa).
Proof.
  intros Ht Hs Hside Htiles Hin.
  unfold validTargets in Hin. rewrite Hs, Ht in Hin.
  apply in_map_iff in Hin. destruct Hin as [e [Hc He]].
  unfold getValidAttackTargets in He. apply filter_In in He. destruct He as [He Hcan].
  apply filter_In in He. destruct He as [He Henemy].
  inversion Hc as [[Hx Hy]]. clear Hc.
  destruct (getUnitAt (units g) x y) as [e'|] eqn:Eo.
  2:{ exfalso. apply getUnitAt_None in Eo. apply (Eo e He). split; assumption. }
  destruct (getUnitAt_Some _ _ _ _ Eo) as (He' & Hx' & Hy').
  assert (e' = e).
  { apply (unique_by_tile (units g)); try assumption. unfold tile. congruence. }
  subst e'. apply negb_true_iff in Henemy. apply Player_eqb_neq in Henemy.
  assert (Hcomp : u_player e = computer).
  { rewrite Hside in Henemy. destruct (u_player e); [contradiction | reflexivity]. }
  unfold handleGameInteraction. rewrite Hx, Hy, Eo, Hs, Hcomp.
  unfold clickEnemy. rewrite Hcan. simpl negb. simpl andb.
  destruct (pendingAttack g) as [pa0|] eqn:Ep.
  - destruct (String.eqb (pa_targetId pa0) (u_id e)) eqn:Et.
    + apply String.eqb_eq in Et.
      destruct (includes (pa_attackerIds pa0) (u_id sel)) eqn:Ei; simpl.
      * exists e, pa0. repeat split; try assumption. apply includes_In. exact Ei.
      * exists e, (mkPendingAttack (pa_targetId pa0) (pa_attackerIds pa0 ++ [u_id sel])).
        repeat split; try assumption. simpl. apply in_or_app. right. left. reflexivity.
    + simpl. exists e, (mkPendingAttack (u_id e) [u_id sel]).
      repeat split; try assumption. left. reflexivity.
  - simpl. exists e, (mkPendingAttack (u_id e) [u_id sel]).
    repeat split; try assumption. left. reflexivity.
Qed.

(** The spearman is selected; the cornered archer in front of it is
    highlighted and a click on it stages the attack. *)
Lemma validTargets_stage_the_attack_witness :
  exists e pa,
    getUnitAt (units (set_selectedUnitId (Some "p1"%string)
                        (set_pendingAttack None Scenarios.stagedAttack))) 4 4 = Some e
    /\ canAttack Scenarios.spearman e
         (units (set_selectedUnitId (Some "p1"%string)
                   (set_pendingAttack None Scenarios.stagedAttack))) = true
    /\ pendingAttack (handleGameInteraction 4 4
                        (set_selectedUnitId (Some "p1"%string)
                           (set_pendingAttack None Scenarios.stagedAttack))) = Some pa
    /\ pa_targetId pa = u_id e /\ In (u_id Scenarios.spearman) (pa_attackerIds pa).
Proof.
  apply (validTargets_stage_the_attack
           (set_selectedUnitId (Some "p1"%string)
              (set_pendingAttack None Scenarios.stagedAttack))
           Scenarios.spearman 4 4 eq_refl eq_refl eq_refl).
  - simpl. constructor; [intros [Hq|[]]; discriminate Hq|].
    constructor; [intros []|constructor].
  - vm_compute. left. reflexivity.
Defined.

End TargetHighlights.

(** ** The plan of the local planner *)

Section PlannerShape.

Variable shuffle : nat -> list AIAction -> list AIAction.
Variable g : GameState.
Hypothesis shuffle_faithful : Faithful shuffle.

Lemma In_insertByValue (x e : Unit) (sorted : list Unit) :
  In x (AiLogic.insertByValue e sorted) <-> x = e \/ In x sorted.
Proof.
  induction sorted as [|h t IH]; simpl.
  - split; [intros [Hq|[]]; auto | intros [Hq|[]]; auto].
  - destruct (AiLogic.UNIT_VALUES (u_type h) <? AiLogic.UNIT_VALUES (u_type e)); simpl.
    + split; [intros [Hq|Hq]; auto | intros [Hq|Hq]; auto].
    + rewrite IH. split; [intros [Hq|[Hq|Hq]]; auto | intros [Hq|[Hq|Hq]]; auto].
Qed.

Lemma In_sortByValue (x : Unit) (l : list Unit) :
  In x (AiLogic.sortByValue l) <-> In x l.
Proof.
  unfold AiLogic.sortByValue.
  assert (Hgen : forall acc, In x (fold_left (fun sorted e => AiLogic.insertByValue e sorted)
                                     l acc) <-> In x l \/ In x acc).
  { induction l as [|e l IH]; intros acc; simpl.
    - split; [auto | intros [[]|Hq]; exact Hq].
    - rewrite IH, In_insertByValue.
      split; [intros [Hq|[Hq|Hq]]; auto | intros [[Hq|Hq]|Hq]; auto]. }
  rewrite Hgen. split; [intros [Hq|[]]; exact Hq | auto].
Qed.

Lemma In_firstn {A : Type} (n : nat) (l : list A) (a : A) :
  In a (firstn n l) -> In a l.
Proof.
  intros Ha. rewrite <- (firstn_skipn n l). apply in_or_app. left. exact Ha.
Qed.

Lemma planAttackOn_planned (myUnits : list Unit) (st : AiLogic.Planning) (enemy : Unit) :
  (forall u, In u myUnits -> In u (units g) /\ u_player u = computer) ->
  In enemy (units g) -> u_player enemy = player ->
  AllPlanned g st -> AllPlanned g (AiLogic.planAttackOn g myUnits st enemy).
Proof.
  intros Hmy He Hp Hst. unfold AiLogic.planAttackOn.
  destruct (isEmpty _); [exact Hst|].
  destruct (r_winner _); try exact Hst.
  intros a Ha. simpl in Ha. apply in_app_or in Ha. destruct Ha as [Ha|Ha]; [apply Hst, Ha|].
  apply in_map_iff in Ha. destruct Ha as [atk [Hq Hatk]]. subst a.
  apply filter_In in Hatk. destruct Hatk as [Hatk _].
  destruct (Hmy atk Hatk) as [Hin Hside].
  unfold PlannedFor, AiLogic.attackAction. simpl. split; [|split].
  - exists atk. auto.
  - reflexivity.
  - left. split; [reflexivity|]. exists enemy. auto.
Qed.

Lemma scoreCandidate_picks (unit : Unit) (sim : list Unit) (candidates : list AIAction)
    (best : option AIAction * option Z) :
  let r := fold_left (AiLogic.scoreCandidate g unit sim) candidates best in
  fst r = fst best \/ exists a, fst r = Some a /\ In a candidates.
Proof.
  revert best. induction candidates as [|c cs IH]; intros best; simpl; [left; reflexivity|].
  destruct (IH (AiLogic.scoreCandidate g unit sim best c)) as [Hq|[a [Hq Ha]]].
  - rewrite Hq. unfold AiLogic.scoreCandidate.
    destruct (a_target c); [|left; reflexivity].
    destruct (snd best).
    + destruct (_ >? _); [right; exists c; split; [reflexivity | left; reflexivity]
                         | left; reflexivity].
    + right. exists c. split; [reflexivity | left; reflexivity].
  - right. exists a. split; [exact Hq | right; exact Ha].
Qed.

Lemma planMoveOf_planned (k : nat) (st : AiLogic.Planning) (unit : Unit) :
  In unit (units g) -> u_player unit = computer ->
  AllPlanned g st -> AllPlanned g (AiLogic.planMoveOf (shuffle k) g st unit).
Proof.
  intros Hin Hside Hst. unfold AiLogic.planMoveOf.
  match goal with
  | |- context [fold_left ?f ?cands ?init] =>
      pose proof (scoreCandidate_picks unit (AiLogic.simulatedUnits st) cands init) as Hpick;
      cbv zeta in Hpick; destruct (fold_left f cands init) as [bestAction bestScore]
  end.
  simpl fst in *. destruct bestAction as [bestAction|]; [|exact Hst].
  destruct Hpick as [Hq|[a [Hq Ha]]]; [discriminate|]. inversion Hq; subst a. clear Hq.
  destruct (a_target bestAction) as [t|] eqn:Et; [|exact Hst].
  destruct (negb (c_x t =? u_x unit) || negb (c_y t =? u_y unit)) eqn:Emoved; [|exact Hst].
  intros a Hact. simpl in Hact. apply in_app_or in Hact.
  destruct Hact as [Hact|[Hact|[]]]; [apply Hst, Hact|]. subst a.
  apply In_firstn in Ha. apply shuffle_faithful in Ha.
  destruct Ha as [Ha|Ha].
  - exfalso. subst bestAction. simpl in Et. inversion Et; subst t. simpl in Emoved.
    rewrite !Z.eqb_refl in Emoved. discriminate.
  - apply in_flat_map in Ha. destruct Ha as [y [_ Ha]].
    apply in_flat_map in Ha. destruct Ha as [x [_ Ha]].
    destruct (isValidMove unit x y (AiLogic.simulatedUnits st)) eqn:Ev; [|destruct Ha].
    destruct Ha as [Ha|[]]. subst bestAction.
    destruct (isValidMove_free _ _ _ _ Ev) as [Hb _].
    unfold PlannedFor, AiLogic.moveAction. simpl. split; [|split].
    + exists unit. auto.
    + reflexivity.
    + right. split; [reflexivity|]. exists x, y. auto.
Qed.

Lemma planMoves_planned (remaining : list Unit) (k : nat) (st : AiLogic.Planning) :
  (forall u, In u remaining -> In u (units g) /\ u_player u = computer) ->
  AllPlanned g st -> AllPlanned g (AiLogic.planMoves shuffle k g st remaining).
Proof.
  revert k st. induction remaining as [|unit rest IH]; intros k st Hrem Hst; simpl.
  - exact Hst.
  - apply IH.
    + intros u Hu. apply Hrem. right. exact Hu.
    + destruct (Hrem unit (or_introl eq_refl)) as [Hin Hside].
      apply planMoveOf_planned; assumption.
Qed.

(** X17. With a shuffle that only returns candidates, the plan of the
    local planner is a list of attacks by computer units on tiles of
    player units and of moves of computer units to tiles of the board,
    closed by one end marker: it never plans a rotation, never commands a
    unit of the player, never moves a unit off the board. *)
Theorem getComputerMovesLocal_shape :
  exists body,
    AiLogic.getComputerMovesLocal shuffle g
      = body ++ [mkAIAction "global" act_end_turn None None]
    /\ forall a, In a body -> PlannedFor g a.
Proof.
  unfold AiLogic.getComputerMovesLocal. eexists. split; [reflexivity|].
  assert (Hmy : forall u, In u (filter (fun u => Player_eqb (u_player u) computer) (units g)) ->
                          In u (units g) /\ u_player u = computer).
  { intros u Hu. apply filter_In in Hu. destruct Hu as [Hu Hp].
    apply Player_eqb_eq in Hp. auto. }
  apply planMoves_planned.
  - intros u Hu. apply filter_In in Hu. apply Hmy. tauto.
  - assert (Hfold : forall enemies st,
              (forall e, In e enemies -> In e (units g) /\ u_player e = player) ->
              AllPlanned g st ->
              AllPlanned g (fold_left (AiLogic.planAttackOn g
                            (filter (fun u => Player_eqb (u_player u) computer) (units g)))
                            enemies st)).
    { induction enemies as [|e es IH]; intros st Hes Hst; simpl; [exact Hst|].
      apply IH; [intros e' He'; apply Hes; right; exact He'|].
      destruct (Hes e (or_introl eq_refl)) as [Hin Hp].
      apply planAttackOn_planned; assumption. }
    apply Hfold.
    + intros e He. apply (proj1 (In_sortByValue _ _)) in He. apply filter_In in He.
      destruct He as [He Hp]. apply Player_eqb_eq in Hp. auto.
    + intros a [].
Qed.

End PlannerShape.

(** On the pincer, with the identity for a shuffle. *)
Lemma getComputerMovesLocal_shape_witness :
  exists body,
    AiLogic.getComputerMovesLocal (fun _ l => l) Scenarios.pincer
      = body ++ [mkAIAction "global" act_end_turn None None]
    /\ forall a, In a body -> PlannedFor Scenarios.pincer a.
Proof.
  apply (getComputerMovesLocal_shape (fun _ l => l) Scenarios.pincer).
  intros k l a Ha. exact Ha.
Defined.

Section PlannerOnce.

Variable shuffle : nat -> list AIAction -> list AIAction.
Variable g : GameState.
Hypothesis shuffle_faithful : Faithful shuffle.
Hypothesis ids_unique : NoDup (map u_id (units g)).

Let myUnits : list Unit := filter (fun u => Player_eqb (u_player u) computer) (units g).

Lemma myUnits_ids : NoDup (map u_id myUnits).
Proof. apply NoDup_map_filter. exact ids_unique. Qed.

(** In the attack phase the units that acted are the units that were
    given an action, each once. *)
Lemma planAttackOn_once (st : AiLogic.Planning) (enemy : Unit) :
  map a_unitId (AiLogic.actions st) = AiLogic.unitsThatActed st ->
  NoDup (AiLogic.unitsThatActed st) ->
  let st' := AiLogic.planAttackOn g myUnits st enemy in
  map a_unitId (AiLogic.actions st') = AiLogic.unitsThatActed st'
  /\ NoDup (AiLogic.unitsThatActed st').
Proof.
  intros Hact Hnd. cbv zeta. unfold AiLogic.planAttackOn.
  destruct (isEmpty _); [auto|].
  destruct (r_winner _); auto. simpl. split.
  - rewrite map_app, Hact, map_map. reflexivity.
  - apply NoDup_app; [exact Hnd | apply NoDup_map_filter; exact myUnits_ids |].
    intros i Hi Hnew. apply in_map_iff in Hnew. destruct Hnew as [u [Hq Hu]]. subst i.
    apply filter_In in Hu. destruct Hu as [_ Hc].
    apply andb_true_iff in Hc. destruct Hc as [Hc _]. apply negb_true_iff in Hc.
    apply includes_In in Hi. congruence.
Qed.

(** A unit of the movement phase is given at most one action, under its
    own identifier. *)
Lemma planMoveOf_once (k : nat) (st : AiLogic.Planning) (unit : Unit) :
  let st' := AiLogic.planMoveOf (shuffle k) g st unit in
  AiLogic.actions st' = AiLogic.actions st
  \/ exists a, AiLogic.actions st' = AiLogic.actions st ++ [a] /\ a_unitId a = u_id unit.
Proof.
  cbv zeta. unfold AiLogic.planMoveOf.
  match goal with
  | |- context [fold_left ?f ?cands ?init] =>
      pose proof (scoreCandidate_picks g unit (AiLogic.simulatedUnits st) cands init)
        as Hpick;
      cbv zeta in Hpick; destruct (fold_left f cands init) as [bestAction bestScore]
  end.
  simpl fst in *. destruct bestAction as [bestAction|]; [|left; reflexivity].
  destruct Hpick as [Hq|[a [Hq Ha]]]; [discriminate|]. inversion Hq; subst a. clear Hq.
  destruct (a_target bestAction) as [t|]; [|left; reflexivity].
  destruct (negb _ || negb _); [|left; reflexivity].
  right. exists bestAction. split; [reflexivity|].
  apply In_firstn in Ha. apply shuffle_faithful in Ha. destruct Ha as [Ha|Ha].
  - subst bestAction. reflexivity.
  - apply in_flat_map in Ha. destruct Ha as [y [_ Ha]].
    apply in_flat_map in Ha. destruct Ha as [x [_ Ha]].
    destruct (isValidMove unit x y (AiLogic.simulatedUnits st)); [|destruct Ha].
    destruct Ha as [Ha|[]]. subst bestAction. reflexivity.
Qed.

Lemma planMoves_once (remaining : list Unit) (k : nat) (st : AiLogic.Planning) :
  NoDup (map u_id remaining) ->
  NoDup (map a_unitId (AiLogic.actions st)) ->
  (forall u, In u remaining -> ~ In (u_id u) (map a_unitId (AiLogic.actions st))) ->
  NoDup (map a_unitId (AiLogic.actions (AiLogic.planMoves shuffle k g st remaining))).
Proof.
  revert k st. induction remaining as [|unit rest IH]; intros k st Hrem Hnd Hfree; simpl.
  - exact Hnd.
  - inversion Hrem as [|i0 ids0 Hnotin Hrest]; subst.
    destruct (planMoveOf_once k st unit) as [Hq|[a [Hq Ha]]]; cbv zeta in *.
    + apply IH; [exact Hrest | rewrite Hq; exact Hnd |].
      intros u Hu. rewrite Hq. apply Hfree. right. exact Hu.
    + apply IH; [exact Hrest | |].
      * rewrite Hq, map_app. simpl. rewrite Ha.
        apply NoDup_app; [exact Hnd | repeat constructor; intros [] |].
        intros i Hi [Hq'|[]]. subst i. exact (Hfree unit (or_introl eq_refl) Hi).
      * intros u Hu. rewrite Hq, map_app. simpl. rewrite Ha. intros Hin.
        apply in_app_or in Hin. destruct Hin as [Hin|[Hin|[]]].
        -- exact (Hfree u (or_intror Hu) Hin).
        -- apply Hnotin. rewrite Hin. apply in_map. exact Hu.
Qed.

(** X18. With a shuffle that only returns candidates and no identifier
    twice among the units, the plan of the local planner, its end marker
    apart, names every unit at most once: in one turn a unit is given one
    attack or one move, never both and never two moves. *)
Theorem getComputerMovesLocal_once_per_unit :
  NoDup (map a_unitId (removelast (AiLogic.getComputerMovesLocal shuffle g))).
Proof.
  unfold AiLogic.getComputerMovesLocal. rewrite removelast_last.
  fold myUnits.
  assert (Hfold : forall enemies st,
            map a_unitId (AiLogic.actions st) = AiLogic.unitsThatActed st ->
            NoDup (AiLogic.unitsThatActed st) ->
            let st' := fold_left (AiLogic.planAttackOn g myUnits) enemies st in
            map a_unitId (AiLogic.actions st') = AiLogic.unitsThatActed st'
            /\ NoDup (AiLogic.unitsThatActed st')).
  { induction enemies as [|e es IH]; intros st Hact Hnd; simpl; [auto|].
    destruct (planAttackOn_once st e Hact Hnd) as [Hact' Hnd'].
    apply IH; assumption. }
  destruct (Hfold (AiLogic.sortByValue
                     (filter (fun u => Player_eqb (u_player u) player) (units g)))
              (AiLogic.mkPlanning [] [] (units g)) eq_refl (NoDup_nil _)) as [Hact Hnd].
  cbv zeta in Hact, Hnd.
  apply planMoves_once.
  - apply NoDup_map_filter. exact myUnits_ids.
  - rewrite Hact. exact Hnd.
  - intros u Hu. apply filter_In in Hu. destruct Hu as [_ Hc].
    apply negb_true_iff in Hc. rewrite Hact. intros Hin.
    apply includes_In in Hin. congruence.
Qed.

End PlannerOnce.

Lemma getComputerMovesLocal_once_per_unit_witness :
  NoDup (map a_unitId
           (removelast (AiLogic.getComputerMovesLocal (fun _ l => l) Scenarios.pincer))).
Proof.
  apply (getComputerMovesLocal_once_per_unit (fun _ l => l) Scenarios.pincer).
  - intros k l a Ha. exact Ha.
  - simpl. repeat (constructor; [simpl; intros Hin;
      repeat (destruct Hin as [Hin|Hin]; [discriminate Hin|]); exact Hin|]).
    constructor.
Defined.

(** ** Deployment *)

Section Deployment.

Lemma deployComputer_units (genId : nat -> string) (placements : list Coordinate)
    (types : list UnitType) (k : nat) (u : Unit) :
  In u (deployComputer genId k types placements) ->
  FreshUnit computer SOUTH u
  /\ exists j, (k <= j)%nat /\ nth_error placements j = Some (mkCoordinate (u_x u) (u_y u))
               /\ u_id u = genId j.
Proof.
  revert k. induction types as [|t rest IH]; intros k; simpl; [intros []|].
  destruct (nth_error placements k) as [p|] eqn:Ep.
  - intros [Hu|Hu].
    + subst u. split; [unfold FreshUnit; simpl; repeat split|].
      exists k. simpl. destruct p. simpl. auto.
    + destruct (IH (S k) Hu) as [Hf [j [Hj Hn]]]. split; [exact Hf|].
      exists j. split; [lia | exact Hn].
  - intros Hu. destruct (IH (S k) Hu) as [Hf [j [Hj Hn]]]. split; [exact Hf|].
    exists j. split; [lia | exact Hn].
Qed.

Lemma deployComputer_tiles (genId : nat -> string) (placements : list Coordinate)
    (types : list UnitType) (k : nat) :
  NoDup placements -> NoDup (map tile (deployComputer genId k types placements)).
Proof.
  intros Hnd. revert k. induction types as [|t rest IH]; intros k; simpl; [constructor|].
  destruct (nth_error placements k) as [p|] eqn:Ep; [|apply IH].
  simpl. constructor; [|apply IH].
  intros Hin. apply in_map_iff in Hin. destruct Hin as [u [Ht Hu]].
  destruct (deployComputer_units _ _ _ _ _ Hu) as [_ [j [Hj [Hn _]]]].
  unfold tile in Ht. simpl in Ht. inversion Ht as [[Hx Hy]].
  rewrite Hx, Hy in Hn. destruct p as [px py]. simpl in Hn.
  assert (Hlt : (k < List.length placements)%nat)
    by (apply nth_error_Some; congruence).
  assert (j = k).
  { apply (proj1 (NoDup_nth_error placements) Hnd j k).
    - apply nth_error_Some. congruence.
    - congruence. }
  lia.
Qed.

Lemma deployComputer_full (genId : nat -> string) (placements : list Coordinate)
    (types : list UnitType) (k : nat) :
  (k + List.length types <= List.length placements)%nat ->
  map u_type (deployComputer genId k types placements) = types
  /\ map u_id (deployComputer genId k types placements)
     = map genId (seq k (List.length types)).
Proof.
  revert k. induction types as [|t rest IH]; intros k Hlen; simpl; [auto|].
  simpl in Hlen.
  destruct (nth_error placements k) as [p|] eqn:Ep.
  - destruct (IH (S k) ltac:(lia)) as [Ht Hi]. simpl. rewrite Ht, Hi. auto.
  - exfalso. apply nth_error_None in Ep. lia.
Qed.

(** X19. When the shuffled placements are tiles of the computer's zone,
    none twice, the units deployed for the computer are fresh units of the
    computer facing south, each inside the zone and no two on one tile;
    with six placements or more they are the six kinds of the army in
    order, named by the identifiers drawn in order. *)
Theorem deployComputer_sound (genId : nat -> string) (placements : list Coordinate) :
  NoDup placements ->
  (forall p, In p placements -> InComputerZone (c_x p) (c_y p)) ->
  let us := deployComputer genId 0 INITIAL_ARMY_COMPOSITION placements in
  (forall u, In u us -> FreshUnit computer SOUTH u /\ InComputerZone (u_x u) (u_y u))
  /\ NoDup (map tile us)
  /\ ((6 <= List.length placements)%nat ->
      map u_type us = INITIAL_ARMY_COMPOSITION
      /\ map u_id us = map genId (seq 0 6)).
Proof.
  intros Hnd Hzone. cbv zeta. split; [|split].
  - intros u Hu. destruct (deployComputer_units _ _ _ _ _ Hu) as [Hf [j [_ [Hn _]]]].
    split; [exact Hf|]. apply nth_error_In in Hn. apply (Hzone _ Hn).
  - apply deployComputer_tiles. exact Hnd.
  - intros Hlen. apply (deployComputer_full genId placements INITIAL_ARMY_COMPOSITION 0).
    simpl. lia.
Qed.

Lemma computerZone_sound :
  NoDup computerZone /\ forall p, In p computerZone -> InComputerZone (c_x p) (c_y p).
Proof.
  split.
  - unfold computerZone. simpl.
    repeat (constructor; [simpl; intros Hin;
      repeat (destruct Hin as [Hin|Hin]; [discriminate Hin|]); exact Hin|]).
    constructor.
  - unfold computerZone. simpl. intros p Hin.
    repeat (destruct Hin as [Hin|Hin]; [subst p; unfold InComputerZone; simpl; lia|]).
    destruct Hin.
Defined.

(** The zone in the order the loops push it. *)
Lemma deployComputer_sound_witness :
  NoDup (map tile (deployComputer (fun _ => "id"%string) 0 INITIAL_ARMY_COMPOSITION
                     computerZone)).
Proof.
  apply (proj1 (proj2 (deployComputer_sound (fun _ => "id"%string) computerZone
                         (proj1 computerZone_sound) (proj2 computerZone_sound)))).
Defined.

End Deployment.

Section PlayerDeployment.

Lemma playerUnits_addLog (msg : string) (g : GameState) :
  playerUnits (addLog msg g) = playerUnits g.
Proof. reflexivity. Qed.

Lemma handleSetupPlacement_Deploying (x y : Z) (fresh : string) (s : AppState) :
  InBounds x y -> Deploying s -> turn (gameState s) = setup_placement ->
  Deploying (handleSetupPlacement x y fresh s).
Proof.
  intros Hon (Hphase & Harmy & Hfresh & Htiles) Hturn. unfold handleSetupPlacement.
  destruct (setupUnitsLeft s) as [|t rest] eqn:Er.
  { unfold Deploying. rewrite Er. auto. }
  destruct ((y <? 6) || (x <? 3) || (x >? 5)) eqn:Ez.
  { unfold Deploying, with_gameState. simpl. rewrite Er. auto. }
  destruct (getUnitAt (units (gameState s)) x y) eqn:Eo.
  { unfold Deploying, with_gameState. simpl. rewrite Er. auto. }
  apply getUnitAt_None in Eo. zify_tests.
  set (newUnit := mkUnit fresh t player x y NORTH (maxMovesFor t) 1 false (maxMovesFor t) 1).
  assert (Hnew : FreshUnit player NORTH newUnit /\ InPlayerZone (u_x newUnit) (u_y newUnit)).
  { unfold FreshUnit, InPlayerZone, InBounds, newUnit in *. simpl. repeat split; lia. }
  assert (Htiles' : NoDup (map tile (units (gameState s) ++ [newUnit]))).
  { rewrite map_app. simpl.
    apply NoDup_app; [exact Htiles | repeat constructor; intros [] |].
    intros k Hk [Hq|[]]. subst k. apply in_map_iff in Hk. destruct Hk as [u [Ht Hu]].
    apply (Eo u Hu). unfold tile, newUnit in Ht. simpl in Ht. inversion Ht. auto. }
  assert (Hpl : playerUnits (set_units (units (gameState s) ++ [newUnit]) (gameState s))
                = playerUnits (gameState s) ++ [newUnit]).
  { unfold playerUnits. simpl. rewrite filter_app. reflexivity. }
  assert (Harmy' : map u_type (playerUnits (gameState s) ++ [newUnit]) ++ rest
                   = INITIAL_ARMY_COMPOSITION).
  { rewrite map_app. simpl. rewrite <- app_assoc. simpl. exact Harmy. }
  assert (Hfresh' : forall u, In u (playerUnits (gameState s) ++ [newUnit]) ->
                      FreshUnit player NORTH u /\ InPlayerZone (u_x u) (u_y u)).
  { intros u Hu. apply in_app_or in Hu. destruct Hu as [Hu|[Hu|[]]].
    - apply Hfresh. exact Hu.
    - subst u. exact Hnew. }
  destruct rest as [|t' rest'].
  - unfold Deploying. simpl. fold newUnit.
    change (playerUnits _) with
      (playerUnits (set_units (units (gameState s) ++ [newUnit]) (gameState s))).
    rewrite Hpl. split; [right; auto|]. split; [exact Harmy'|]. split; [exact Hfresh'|exact Htiles'].
  - unfold Deploying. simpl. fold newUnit. rewrite Hpl.
    split; [left; split; [exact Hturn|discriminate]|].
    split; [exact Harmy'|]. split; [exact Hfresh'|exact Htiles'].
Qed.

Lemma handleTileClick_Deploying (x y : Z) (fresh : string) (s : AppState) :
  InBounds x y -> Deploying s -> Deploying (handleTileClick x y fresh s).
Proof.
  intros Hon Hd. unfold handleTileClick.
  destruct (isSome _ || isProcessingAI s || isSome _); [exact Hd|].
  destruct Hd as (Hphase & Hrest).
  destruct Hphase as [[Ht Hr]|[Ht Hr]]; rewrite Ht.
  - apply handleSetupPlacement_Deploying; [exact Hon| |exact Ht].
    split; [left; auto | exact Hrest].
  - split; [right; auto | exact Hrest].
Qed.

(** X20. During the deployment, whatever tiles of the board are clicked,
    the units of the player stand fresh, facing north, inside the player's
    zone (columns 3 to 5, rows 6 and 7), no two units share a tile, and
    the kinds placed so far followed by the roster left are the army; the
    phase turns to the choice of support lines exactly when the roster is
    used up, and then the player holds the six kinds of the army in
    order. *)
Theorem deployment_keeps_zone_and_roster (clicks : list (Z * Z * string)) (s : AppState) :
  Deploying s -> OnTiles clicks ->
  Deploying (clickAll clicks s)
  /\ (setupUnitsLeft (clickAll clicks s) = [] <->
      turn (gameState (clickAll clicks s)) = setup_support)
  /\ (setupUnitsLeft (clickAll clicks s) = [] ->
      map u_type (playerUnits (gameState (clickAll clicks s))) = INITIAL_ARMY_COMPOSITION).
Proof.
  intros Hd Hon.
  assert (Hall : Deploying (clickAll clicks s)).
  { unfold clickAll. revert s Hd. induction clicks as [|c rest IH]; intros s Hd; simpl.
    - exact Hd.
    - apply IH.
      + intros c' Hc'. apply Hon. right. exact Hc'.
      + apply handleTileClick_Deploying; [apply Hon; left; reflexivity | exact Hd]. }
  split; [exact Hall|].
  destruct Hall as (Hphase & Harmy & _). split.
  - destruct Hphase as [[Ht Hr]|[Ht Hr]]; rewrite Ht; split; intros Hq;
      try congruence; try discriminate; auto.
  - intros Hr. rewrite Hr, app_nil_r in Harmy. exact Harmy.
Qed.

(** From the start-up state: a click outside the zone, one on the zone,
    one on the tile just taken, one on the zone's last row. *)
Lemma deployment_keeps_zone_and_roster_witness :
  Deploying (clickAll [(1, 1, "a"%string); (4, 6, "b"%string); (4, 6, "c"%string);
                       (5, 7, "d"%string)]
               Scenarios.startUp).
Proof.
  apply (deployment_keeps_zone_and_roster
           [(1, 1, "a"%string); (4, 6, "b"%string); (4, 6, "c"%string); (5, 7, "d"%string)]
           Scenarios.startUp).
  - split; [left; split; [reflexivity | discriminate]|].
    split; [reflexivity|].
    split; [intros u Hu; vm_compute in Hu; destruct Hu|].
    vm_compute.
    repeat (constructor; [intros Hin;
              repeat (destruct Hin as [Hin|Hin]; [discriminate Hin|]); exact Hin|]).
    constructor.
  - intros c Hc. unfold InBounds.
    repeat (destruct Hc as [Hc|Hc]; [subst c; simpl; lia|]). destruct Hc.
Defined.

End PlayerDeployment.

Section EnemyOrder.

Lemma insertByValue_perm (e : Unit) (l : list Unit) :
  Permutation (AiLogic.insertByValue e l) (l ++ [e]).
Proof.
  induction l as [|h t IH]; simpl.
  - apply Permutation_refl.
  - destruct (AiLogic.UNIT_VALUES (u_type h) <? AiLogic.UNIT_VALUES (u_type e)).
    + change (e :: h :: t) with ([e] ++ (h :: t)).
      change (h :: t ++ [e]) with ((h :: t) ++ [e]).
      apply Permutation_app_comm.
    + apply perm_skip. exact IH.
Qed.

Lemma insertByValue_sorted (e : Unit) (l : list Unit) :
  ByDecreasingWorth l -> ByDecreasingWorth (AiLogic.insertByValue e l).
Proof.
  unfold ByDecreasingWorth. induction l as [|h t IH]; intros Hs; simpl.
  - constructor; constructor.
  - inversion Hs as [|h' t' Ht Hh]; subst.
    destruct (AiLogic.UNIT_VALUES (u_type h) <? AiLogic.UNIT_VALUES (u_type e)) eqn:Ev; zify_tests.
    + constructor; [exact Hs|].
      constructor; [unfold worth; lia|].
      rewrite Forall_forall in Hh |- *. intros u Hu. specialize (Hh u Hu).
      unfold worth in *. lia.
    + constructor; [apply IH; exact Ht|].
      rewrite Forall_forall in Hh |- *. intros u Hu.
      apply (Permutation_in _ (insertByValue_perm e t)) in Hu.
      apply in_app_or in Hu. destruct Hu as [Hu|[Hu|[]]].
      * apply Hh. exact Hu.
      * subst u. unfold worth. lia.
Qed.

Lemma insertByValue_stable (v : Z) (e : Unit) (l : list Unit) :
  ByDecreasingWorth l ->
  ofWorth v (AiLogic.insertByValue e l) = ofWorth v l ++ ofWorth v [e].
Proof.
  unfold ByDecreasingWorth, ofWorth. induction l as [|h t IH]; intros Hs.
  - reflexivity.
  - inversion Hs as [|h' t' Ht Hh]; subst. simpl AiLogic.insertByValue.
    destruct (AiLogic.UNIT_VALUES (u_type h) <? AiLogic.UNIT_VALUES (u_type e)) eqn:Ev; zify_tests.
    + simpl filter at 3.
      destruct (worth e =? v) eqn:Ee; zify_tests.
      * assert (Hnone : filter (fun u => worth u =? v) (h :: t) = []).
        { apply filter_none. intros u Hu. apply Z.eqb_neq.
          destruct Hu as [Hu|Hu].
          - subst u. unfold worth in *. lia.
          - rewrite Forall_forall in Hh. specialize (Hh u Hu). unfold worth in *. lia. }
        change (filter (fun u => worth u =? v) (e :: h :: t))
          with (if worth e =? v then e :: filter (fun u => worth u =? v) (h :: t)
                else filter (fun u => worth u =? v) (h :: t)).
        rewrite Hnone. rewrite (proj2 (Z.eqb_eq _ _) Ee). reflexivity.
      * change (filter (fun u => worth u =? v) (e :: h :: t))
          with (if worth e =? v then e :: filter (fun u => worth u =? v) (h :: t)
                else filter (fun u => worth u =? v) (h :: t)).
        rewrite (proj2 (Z.eqb_neq _ _) Ee), app_nil_r. reflexivity.
    + simpl. rewrite (IH Ht). simpl.
      destruct (worth h =? v); reflexivity.
Qed.

Lemma sortFrom_spec (l acc : list Unit) :
  ByDecreasingWorth acc ->
  let out := fold_left (fun sorted e => AiLogic.insertByValue e sorted) l acc in
  Permutation out (acc ++ l) /\ ByDecreasingWorth out
  /\ forall v, ofWorth v out = ofWorth v acc ++ ofWorth v l.
Proof.
  cbv zeta. revert acc. induction l as [|e rest IH]; intros acc Hs; simpl.
  - rewrite app_nil_r. split; [apply Permutation_refl|]. split; [exact Hs|].
    intros v. unfold ofWorth. simpl. rewrite app_nil_r. reflexivity.
  - destruct (IH (AiLogic.insertByValue e acc) (insertByValue_sorted e acc Hs)) as (Hp & Ho & Hst).
    split; [|split; [exact Ho|]].
    + eapply Permutation_trans; [exact Hp|].
      change (acc ++ e :: rest) with (acc ++ [e] ++ rest). rewrite app_assoc.
      apply Permutation_app_tail. apply insertByValue_perm.
    + intros v. rewrite Hst, (insertByValue_stable v e acc Hs).
      rewrite <- app_assoc. unfold ofWorth. simpl.
      destruct (worth e =? v); reflexivity.
Qed.

(** X21. The planner's order of the enemies holds the same units, runs
    from the most to the least valuable, cavalry before archers before
    infantry, and keeps the board's order among units of the same
    worth. *)
Theorem sortByValue_stable_sort (l : list Unit) :
  Permutation (AiLogic.sortByValue l) l
  /\ ByDecreasingWorth (AiLogic.sortByValue l)
  /\ (forall v, ofWorth v (AiLogic.sortByValue l) = ofWorth v l)
  /\ (forall t, filter (fun u => UnitType_eqb (u_type u) t) (AiLogic.sortByValue l)
                = filter (fun u => UnitType_eqb (u_type u) t) l).
Proof.
  destruct (sortFrom_spec l [] (SSorted_nil _)) as (Hp & Ho & Hst).
  split; [exact Hp|]. split; [exact Ho|]. split; [exact Hst|].
  intros t. specialize (Hst (AiLogic.UNIT_VALUES t)). unfold ofWorth in Hst.
  assert (Heq : forall m, filter (fun u => UnitType_eqb (u_type u) t) m
                          = filter (fun u => worth u =? AiLogic.UNIT_VALUES t) m).
  { intros m. apply filter_ext. intros u. unfold worth.
    destruct (u_type u), t; reflexivity. }
  rewrite !Heq. exact Hst.
Qed.

End EnemyOrder.

(** ** The verdict after a decisive combat *)

Section Verdict.

Import Scenarios.

Lemma Descends_NoUnits (p : Player) (g g' : GameState) :
  Descends (units g) (units g') -> NoUnits p g -> NoUnits p g'.
Proof.
  intros Hd Hno u' Hu' Hp.
  destruct (Hd u' Hu') as [u [Hu (_ & _ & Hside & _)]].
  apply (Hno u Hu). congruence.
Qed.

(** A run over a plan in two parts stops in the first part, or goes on
    with the second part from the state the first part leaves. *)
Lemma runPlan_app (before after : list AIAction) (g : GameState) :
  runPlan (before ++ after) g = runPlan before g
  \/ runPlan (before ++ after) g = runPlan after (runPlan before g).
Proof.
  revert g. induction before as [|action rest IH]; intros g; simpl.
  - right. reflexivity.
  - destruct (a_actionType action); try apply IH. left. reflexivity.
Qed.

Lemma runPlan_NoUnits (p : Player) (plan : list AIAction) (g : GameState) :
  NoUnits p g -> NoUnits p (runPlan plan g).
Proof.
  apply Descends_NoUnits.
  exact (Evolves_Descends _ _ _ (proj1 (runPlan_Evolves plan g))).
Qed.

Lemma window_Evolves (window : list PlayerAction) (g : GameState) :
  Orderly (units g) ->
  Evolves InBounds (units g) (units (fold_left perform window g)).
Proof.
  revert g. induction window as [|a rest IH]; intros g Ho; simpl.
  - apply ev_refl.
  - pose proof (perform_Evolves g a (proj1 Ho)) as Hstep.
    exact (ev_trans _ _ _ _ Hstep (IH _ (Evolves_Orderly _ _ _ Hstep Ho))).
Qed.

(** C10, amended. A side left without units by a combat has lost, with
    the other side as winner, at the next verdict and not before: after
    the player's attack when the check of the win condition runs,
    whatever the player has done on the board in between; in the
    computer's run when the update that closes the run is applied, after
    the rest of the plan.  From the verdict on, with no attack staged,
    every further click, confirmation of an attack, planning or run of the
    computer leaves the state as it is. *)
Theorem gameOver_at_the_verdict :
  (forall (s : AppState) (attackers : list Unit) (defender : Unit)
          (window : list PlayerAction) (p : Player),
     let fought := multiAttackUpdates attackers defender (gameState s) in
     let later := fold_left perform window fought in
     aiPlan s = None -> Orderly (units fought) ->
     NoUnits p fought -> HasUnits (otherSide p) later -> pendingAttack later = None ->
     GameOver (with_gameState (fun _ => checkWinCondition later) s) (otherSide p))
  /\ (forall (s : AppState) (before after : list AIAction) (p : Player),
     aiPlan s = Some (before ++ after) -> pendingAttack (gameState s) = None ->
     NoUnits p (runPlan before (gameState s)) ->
     HasUnits (otherSide p) (gameState (runComputerTurn s)) ->
     GameOver (runComputerTurn s) (otherSide p))
  /\ (forall (s : AppState) (w : Player), GameOver s w ->
      forall invocations : list Invocation, fold_left invoke invocations s = s).
Proof.
  split; [|split].
  - intros s attackers defender window p fought later Hplan Ho Hno Hhas Hpend.
    assert (Hno' : NoUnits p later).
    { apply (Descends_NoUnits p fought later); [|exact Hno].
      exact (Evolves_Descends _ _ _ (window_Evolves window fought Ho)). }
    destruct (checkWinCondition_verdict p later Hno' Hhas) as [Hw Ht].
    unfold GameOver, with_gameState. simpl.
    rewrite pendingAttack_checkWinCondition.
    repeat split; assumption.
  - intros s before after p Hplan Hpend Hno Hhas.
    unfold runComputerTurn, GameOver in *. rewrite Hplan in *. simpl in *.
    set (g := runPlan (before ++ after) (gameState s)) in *.
    assert (Hg : NoUnits p g).
    { unfold g. destruct (runPlan_app before after (gameState s)) as [Hq|Hq]; rewrite Hq.
      - exact Hno.
      - apply runPlan_NoUnits. exact Hno. }
    apply not_alive_NoUnits in Hg.
    apply alive_HasUnits in Hhas. rewrite finishComputerTurn_units_side in Hhas.
    pose proof (finishComputerTurn_verdict g) as Hv.
    destruct (finishComputerTurn_fields g) as [_ Hp].
    assert (Hpg : pendingAttack g = None)
      by (unfold g; rewrite pendingAttack_runPlan; exact Hpend).
    destruct p; simpl otherSide in *; rewrite Hg, Hhas in Hv; simpl in Hv;
      inversion Hv as [[Hw Ht]]; repeat split; congruence.
  - intros s w Hover invocations.
    induction invocations as [|i rest IH]; simpl; [reflexivity|].
    rewrite (GameOver_invoke s w i Hover). exact IH.
Qed.

(** The spearman overruns the computer's last unit and steps on before the
    check runs; the vanguard takes the player's last unit in the first
    action of the plan; the finished game ignores what follows. *)
Lemma gameOver_at_the_verdict_witness :
  GameOver
    (with_gameState
       (fun _ => checkWinCondition
                   (fold_left perform [Click 4 5; Click 4 4]
                      (multiAttackUpdates [spearman] cornered stagedAttack)))
       stagedApp) player
  /\ GameOver (runComputerTurn lastStandApp) computer
  /\ fold_left invoke
       [TileClick 4 4 "x"; ConfirmAttack; PlanComputerTurn (fun _ l => l); RunComputerTurn]
       (runComputerTurn lastStandApp) = runComputerTurn lastStandApp.
Proof.
  assert (Hrun : GameOver (runComputerTurn lastStandApp) computer).
  { apply (proj1 (proj2 gameOver_at_the_verdict) lastStandApp [lastStandAttack]
             [lastStandMove; mkAIAction "global" act_end_turn None None] player).
    - reflexivity.
    - reflexivity.
    - intros u Hin. vm_compute in Hin.
      destruct Hin as [Hu|[Hu|[]]]; subst u; discriminate.
    - eexists. split; [left; reflexivity | reflexivity]. }
  split; [|split].
  - apply (proj1 gameOver_at_the_verdict stagedApp [spearman] cornered
             [Click 4 5; Click 4 4] computer).
    + reflexivity.
    + simpl gameState. set (us := units _). vm_compute in us. subst us.
      split; [|split].
      * constructor; [intros []|constructor].
      * constructor; [intros []|constructor].
      * intros u [Hu|[]]. subst u. unfold budgetOk. simpl. lia.
    + intros u Hin. vm_compute in Hin. destruct Hin as [Hu|[]]. subst u. discriminate.
    + eexists. split; [left; reflexivity | reflexivity].
    + reflexivity.
  - exact Hrun.
  - apply (proj2 (proj2 gameOver_at_the_verdict) (runComputerTurn lastStandApp) computer Hrun).
Defined.

(** C10, as stated, fails.  The plan is the planner's own.  Its attack
    takes the player's last unit, and the state it leaves records no
    winner and is still the computer's turn; the move that follows in the
    plan is applied to it.  In the same way the state the player's attack
    leaves until the check runs has no winner, and a click on it is
    handled. *)
Lemma gameOver_not_at_once :
  AiLogic.getComputerMovesLocal (fun _ l => rev l) lastStand = lastStandPlan
  /\ (let afterCombat := applyAction lastStandAttack lastStand in
      NoUnits player afterCombat /\ HasUnits computer afterCombat
      /\ winner afterCombat = None /\ turn afterCombat = turn_of computer
      /\ applyAction lastStandMove afterCombat <> afterCombat
      /\ ~ OverAtOnce (mkAppState afterCombat [] true (Some lastStandPlan)))
  /\ (let fought := mkAppState (multiAttackUpdates [spearman] cornered stagedAttack)
                      [] false None in
      NoUnits computer (gameState fought) /\ HasUnits player (gameState fought)
      /\ winner (gameState fought) = None /\ turn (gameState fought) = turn_of player
      /\ handleTileClick 4 5 "x" fought <> fought
      /\ ~ OverAtOnce fought).
Proof.
  split; [vm_compute; reflexivity|].
  assert (Hlost : NoUnits player (applyAction lastStandAttack lastStand)).
  { intros u Hin. vm_compute in Hin.
    destruct Hin as [Hu|[Hu|[]]]; subst u; discriminate. }
  assert (Hleft : HasUnits computer (applyAction lastStandAttack lastStand)).
  { eexists. split; [left; reflexivity | reflexivity]. }
  assert (Hlost' : NoUnits computer (multiAttackUpdates [spearman] cornered stagedAttack)).
  { intros u Hin. vm_compute in Hin. destruct Hin as [Hu|[]]. subst u. discriminate. }
  assert (Hleft' : HasUnits player (multiAttackUpdates [spearman] cornered stagedAttack)).
  { eexists. split; [left; reflexivity | reflexivity]. }
  split; cbv zeta.
  - split; [exact Hlost|]. split; [exact Hleft|].
    split; [reflexivity|]. split; [reflexivity|]. split.
    + vm_compute. discriminate.
    + intros Hover. destruct (Hover player Hlost Hleft) as [[Hw _] _].
      vm_compute in Hw. discriminate Hw.
  - split; [exact Hlost'|]. split; [exact Hleft'|].
    split; [reflexivity|]. split; [reflexivity|]. split.
    + vm_compute. discriminate.
    + intros Hover. destruct (Hover computer Hlost' Hleft') as [[Hw _] _].
      vm_compute in Hw. discriminate Hw.
Qed.

End Verdict.
